(** * DragDropWidgets: the spatial interaction core, embedded and verified

    A shallow embedding of the event bus ([utils/events.py]), the drag
    controller ([core/draggable.py]), the drop surface ([core/drop_zone.py])
    and the layout engine ([core/layout_manager.py]), followed by the
    properties the specification states about them and by further
    properties of the code.

    Conventions of the embedding.
    - Python objects that are shared and mutated (events in the history,
      widgets in a drop zone) carry an explicit identity: events live in a
      store and are named by their address, widgets carry the value [oid] of
      Python's [id()].
    - User callbacks are arbitrary Python callables.  They are modelled as
      state transformers over a type [World] of user state, which may mutate
      the event they receive and may raise.  Callbacks that re-enter the
      event manager they are called from are outside the model.
    - Qt signals are recorded in a log of emissions.
    - Coordinates are Python/C integers, modelled in [Z]; Qt's [QPoint] holds
      C [int]s, so all coordinates that occur are 32-bit values: Qt's
      arithmetic on points wraps around, and [QPoint(x, y)] raises
      [OverflowError] for a Python integer outside that range.
    - Python floats are IEEE binary64 numbers: a float is the rational it
      denotes, and every float operation rounds its exact result to the
      nearest binary64 number ([Py.float]). *)

From Stdlib Require Import ZArith QArith Qpower Qround Qabs Lia Lqa Sorted Ascii.
From stdpp Require Import gmap strings list.

Local Open Scope Z_scope.

(** ** Python primitives used by the sources *)

Module Py.

Section sort.
Context {A : Type} (key : A → Z).

(** [list.sort(key=..., reverse=True)]: Python's sort is stable, and stays
    so under [reverse=True]: elements with equal keys keep their original
    relative order, larger keys come first. *)
Fixpoint insert_reverse (x : A) (l : list A) : list A :=
  match l with
  | [] => [x]
  | y :: l' => if key x <? key y then y :: insert_reverse x l' else x :: l
  end.

Fixpoint sort_reverse (l : list A) : list A :=
  match l with
  | [] => []
  | x :: l' => insert_reverse x (sort_reverse l')
  end.


End sort.

(** [round(q)] on a float: the nearest integer, ties to the even one. *)
Definition round (q : Q) : Z :=
  let f := Qfloor q in
  match (q - inject_Z f ?= 1 # 2)%Q with
  | Lt => f
  | Gt => f + 1
  | Eq => if Z.even f then f else f + 1
  end.


(** The integer part of the binary logarithm of a positive rational. *)
Definition ilog2 (q : Q) : Z :=
  let k := Z.log2 (Qnum q) - Z.log2 (Z.pos (Qden q)) in
  if Qle_bool (2 ^ k) q then k else k - 1.

(** Python's [float] is IEEE binary64.  A float is the rational it denotes;
    [float q] is the binary64 number nearest to [q], ties to the even
    mantissa: [q] is scaled to a mantissa of 53 bits, rounded, and scaled
    back.  The exponent is not bounded, which agrees with binary64 between
    2^-1022 and 2^1024 in magnitude. *)
Definition float (q : Q) : Q :=
  if Qeq_bool q 0 then 0%Q
  else
    let e := ilog2 (Qabs q) - 52 in
    (inject_Z (round (q / 2 ^ e)) * 2 ^ e)%Q.

(** [a / b] on integers: the float nearest to the quotient, or
    [ZeroDivisionError]. *)
Definition truediv (a b : Z) : option Q :=
  if b =? 0 then None else Some (float (inject_Z a / inject_Z b)).


(** [l[start:]]: a negative [start] counts from the end of the list, and a
    start that falls outside the list is clamped to its ends. *)
Definition slice_from {A : Type} (start : Z) (l : list A) : list A :=
  if start <? 0 then drop (Z.to_nat (Z.of_nat (length l) + start)) l
  else drop (Z.to_nat start) l.

(** [l.remove(x)] on a list that holds [x]: the first occurrence goes. *)
Fixpoint remove `{EqDecision A} (x : A) (l : list A) : list A :=
  match l with
  | [] => []
  | y :: l' => if decide (y = x) then l' else y :: remove x l'
  end.

(** [s.split(sep)] for a separator of one character. *)
Fixpoint split (sep : ascii) (s : string) : list string :=
  match s with
  | EmptyString => [EmptyString]
  | String c s' =>
      if Ascii.eqb c sep then EmptyString :: split sep s'
      else match split sep s' with
           | [] => [String c EmptyString]
           | piece :: pieces => String c piece :: pieces
           end
  end.

End Py.

(** ** The event bus ([utils/events.py]) *)

Module EventPriority.
Inductive t := LOW | NORMAL | HIGH | CRITICAL.

Definition value (p : t) : Z :=
  match p with LOW => 1 | NORMAL => 2 | HIGH => 3 | CRITICAL => 4 end.

#[global] Instance eq_dec : EqDecision t.
Proof. solve_decision. Defined.
End EventPriority.

Module Event.
(** [source] and the values of [data] have Python type [Any]; nothing in the
    bus inspects them, they are carried as a name and as integers. *)
Record t := mk {
  event_type : string;
  source : option string;
  data : gmap string Z;
  priority : EventPriority.t;
  timestamp : Z;
  cancelled : bool;
  handled : bool
}.

(** [now] is the reading of [datetime.now()] at construction. *)
Definition __init__ (event_type : string) (source : option string)
    (data : option (gmap string Z)) (priority : EventPriority.t) (now : Z) : t :=
  mk event_type source (default ∅ data) priority now false false.

Definition cancel (e : t) : t :=
  mk (event_type e) (source e) (data e) (priority e) (timestamp e) true (handled e).

Definition mark_handled (e : t) : t :=
  mk (event_type e) (source e) (data e) (priority e) (timestamp e) (cancelled e) true.
End Event.

(** How a call of a user callable ends. *)
Inductive Outcome := Returns | Raises (msg : string).

(** A Python callable taking an event: [cb_id] is the identity of the function
    object, [cb_run] what a call does to the user state and to the event. *)
Record Callback (World : Type) := {
  cb_id : nat;
  cb_run : World → Event.t → World * Event.t * Outcome
}.
Arguments cb_id {World} _.
Arguments cb_run {World} _ _ _.

(** What a dispatch does that an observer can see: calls of user callables,
    tagged by the place of the call and with the event object as the callable
    left it, and lines printed to stdout. *)
Inductive Dispatch := Slot | Global | Specific.

#[global] Instance Dispatch_eq_dec : EqDecision Dispatch.
Proof. solve_decision. Defined.

Inductive Effect :=
  | Invoked (from : Dispatch) (cb : nat) (after : Event.t)
  | Printed (msg : string).

Module EventHandler.
Section world.
Context {World : Type}.

Record t := mk {
  callback : Callback World;
  priority : EventPriority.t;
  once : bool;
  call_count : nat;
  enabled : bool
}.

Definition __init__ (callback : Callback World) (priority : EventPriority.t)
    (once : bool) : t :=
  mk callback priority once 0 true.

(** [__call__]: returns the handler after the call, the user state, the
    event, the callables that ran (with the event as they left it) and how
    the call ended.  When the callback raises, the counter and the [once]
    logic are skipped. *)
Definition __call__ (h : t) (w : World) (event : Event.t)
    : t * World * Event.t * list (nat * Event.t) * Outcome :=
  if negb (enabled h) then (h, w, event, [], Returns)
  else
    match cb_run (callback h) w event with
    | (w', event', Returns) =>
        (mk (callback h) (priority h) (once h) (S (call_count h))
            (if once h then false else enabled h),
         w', event', [(cb_id (callback h), event')], Returns)
    | (w', event', Raises msg) =>
        (h, w', event', [(cb_id (callback h), event')], Raises msg)
    end.
End world.
Arguments t : clear implicits.
End EventHandler.

Module EventManager.
Section world.
Context {World : Type}.

(** [_event_history] holds references to event objects: addresses into the
    store of events.  [event_triggered] is the Qt signal, given by the
    slots connected to it.  [_weak_handlers] is never read or written after
    construction and is left out. *)
Record t := mk {
  _event_handlers : gmap string (list (EventHandler.t World));
  _global_handlers : list (EventHandler.t World);
  _event_history : list nat;
  _max_history : nat;
  _enabled : bool;
  event_triggered : list (Callback World)
}.

Definition __init__ : t := mk ∅ [] [] 1000 true [].

Definition handlers_of (m : t) (event_name : string) : list (EventHandler.t World) :=
  default [] (_event_handlers m !! event_name).

Definition sort_handlers (l : list (EventHandler.t World)) : list (EventHandler.t World) :=
  Py.sort_reverse (λ h, EventPriority.value (EventHandler.priority h)) l.

(** [register_event]; the handler is callable by its type, so the
    [ValueError] branch is not reachable, and the returned id string, which
    nothing interprets, is dropped. *)
Definition register_event (m : t) (event_name : string) (handler : Callback World)
    (priority : EventPriority.t) (once : bool) : t :=
  let event_handler := EventHandler.__init__ handler priority once in
  mk (<[event_name := sort_handlers (handlers_of m event_name ++ [event_handler])]>
        (_event_handlers m))
     (_global_handlers m) (_event_history m) (_max_history m) (_enabled m)
     (event_triggered m).

Definition register_global_handler (m : t) (handler : Callback World)
    (priority : EventPriority.t) : t :=
  let event_handler := EventHandler.__init__ handler priority false in
  mk (_event_handlers m)
     (sort_handlers (_global_handlers m ++ [event_handler]))
     (_event_history m) (_max_history m) (_enabled m) (event_triggered m).

(** [event_triggered.connect(slot)] *)
Definition connect (m : t) (slot : Callback World) : t :=
  mk (_event_handlers m) (_global_handlers m) (_event_history m) (_max_history m)
     (_enabled m) (event_triggered m ++ [slot]).



Definition clear_event_history (m : t) : t :=
  mk (_event_handlers m) (_global_handlers m) [] (_max_history m)
     (_enabled m) (event_triggered m).

Definition remove_all_handlers (m : t) (event_name : string) : t :=
  mk (delete event_name (_event_handlers m)) (_global_handlers m) (_event_history m)
     (_max_history m) (_enabled m) (event_triggered m).

Definition clear_all_handlers (m : t) : t :=
  mk ∅ [] (_event_history m) (_max_history m) (_enabled m) (event_triggered m).

(** [_add_to_history]: append, then drop the oldest entry when the list
    has grown past [_max_history]. *)
Definition add_history (history : list nat) (max_history : nat) (event : nat) : list nat :=
  let history := history ++ [event] in
  if (max_history <? length history)%nat then drop 1 history else history.

Definition _add_to_history (m : t) (event : nat) : t :=
  mk (_event_handlers m) (_global_handlers m)
     (add_history (_event_history m) (_max_history m) event)
     (_max_history m) (_enabled m) (event_triggered m).

(** [event_triggered.emit(event)]: every connected slot runs, in connection
    order; an exception in a slot is reported by the binding and does not
    propagate. *)
Fixpoint emit_signal (slots : list (Callback World)) (w : World) (event : Event.t)
    : World * Event.t * list Effect :=
  match slots with
  | [] => (w, event, [])
  | s :: slots' =>
      let '(w', event', _) := cb_run s w event in
      let '(w'', event'', fx) := emit_signal slots' w' event' in
      (w'', event'', Invoked Slot (cb_id s) event' :: fx)
  end.

(** One of the two [for handler in ...] loops of [emit_event]: leave the
    loop at the first handler that is disabled or once the event is
    cancelled; an exception of a handler is printed and the loop goes on. *)
Fixpoint run_handlers (from : Dispatch) (prefix : string)
    (handlers : list (EventHandler.t World)) (w : World) (event : Event.t)
    : list (EventHandler.t World) * World * Event.t * list Effect :=
  match handlers with
  | [] => ([], w, event, [])
  | handler :: rest =>
      if negb (EventHandler.enabled handler) || Event.cancelled event
      then (handlers, w, event, [])
      else
        let '(handler', w', event', calls, out) :=
          EventHandler.__call__ handler w event in
        let printed :=
          match out with Returns => [] | Raises e => [Printed (prefix +:+ e)] end in
        let '(rest', w'', event'', fx) := run_handlers from prefix rest w' event' in
        (handler' :: rest', w'', event'', (uncurry (Invoked from) <$> calls) ++ printed ++ fx)
  end.

(** The texts of the two [print] calls, up to the exception. *)
Definition global_error : string := "Error in global event handler: ".
Definition handler_error (event_name : string) : string :=
  "Error in event handler for '" +:+ event_name +:+ "': ".

Record Emitted := {
  manager : t;
  store : list Event.t;
  world : World;
  returned : option nat;
  effects : list Effect
}.

(** [emit_event]; [events] is the store of event objects, the new event is
    allocated at its end and the final write puts back the object as the
    slots and handlers left it. *)
Definition emit_event (m : t) (events : list Event.t) (w : World)
    (event_name : string) (source : option string) (data : option (gmap string Z))
    (priority : EventPriority.t) (now : Z) : Emitted :=
  if negb (_enabled m) then
    {| manager := m; store := events; world := w; returned := None; effects := [] |}
  else
    let event := Event.__init__ event_name source data priority now in
    let ref := length events in
    let events := events ++ [event] in
    let m := _add_to_history m ref in
    let '(w, event, fx0) := emit_signal (event_triggered m) w event in
    let '(globals, w, event, fx1) :=
      run_handlers Global global_error (_global_handlers m) w event in
    let '(specific, w, event, fx2) :=
      match _event_handlers m !! event_name with
      | Some handlers =>
          if negb (Event.cancelled event) then
            let '(handlers', w, event, fx) :=
              run_handlers Specific (handler_error event_name) handlers w event in
            (<[event_name := handlers']> (_event_handlers m), w, event, fx)
          else (_event_handlers m, w, event, [])
      | None => (_event_handlers m, w, event, [])
      end in
    {| manager := mk specific globals (_event_history m) (_max_history m)
                     (_enabled m) (event_triggered m);
       store := <[ref := event]> events;
       world := w;
       returned := Some ref;
       effects := fx0 ++ fx1 ++ fx2 |}.

(** [get_handler_count()] without an event name: the handlers of all
    event types and the global ones. *)
Definition get_handler_count_all (m : t) : nat :=
  (map_fold (λ _ handlers n, length handlers + n) 0 (_event_handlers m)
   + length (_global_handlers m))%nat.

(** [get_handler_count(event_name)]; the empty name is false in Python, as
    [None] is, and then all handlers are counted. *)
Definition get_handler_count (m : t) (event_name : string) : nat :=
  match event_name with
  | EmptyString => get_handler_count_all m
  | String _ _ => length (handlers_of m event_name)
  end.

(** [remove_event_handler]: [event_handler.callback == handler] compares
    callables, which [cb_id] stands for.  The handlers collected in
    [handlers_to_remove] are objects of the list, and [list.remove] takes
    out each of them, so what stays are the handlers of the other
    callables, in their order; an empty list is deleted with its key. *)
Definition remove_event_handler (m : t) (event_name : string) (handler : Callback World)
    : t :=
  match _event_handlers m !! event_name with
  | Some handlers =>
      let handlers :=
        filter (λ h, cb_id (EventHandler.callback h) ≠ cb_id handler) handlers in
      mk (match handlers with
          | [] => delete event_name (_event_handlers m)
          | _ :: _ => <[event_name := handlers]> (_event_handlers m)
          end)
         (_global_handlers m) (_event_history m) (_max_history m) (_enabled m)
         (event_triggered m)
  | None => m
  end.

(** [get_event_history]; [events] is the store of event objects, the result
    lists references.  An empty [event_type] and a [limit] of 0 are false
    in Python, as [None] is, and then do not filter and do not cut. *)
Definition get_event_history (m : t) (events : list Event.t)
    (event_type : option string) (limit : option Z) : list nat :=
  let history := _event_history m in
  let history :=
    match event_type with
    | Some (String _ _ as event_type) =>
        filter (λ e, Event.event_type <$> events !! e = Some event_type) history
    | _ => history
    end in
  match limit with
  | Some limit => if limit =? 0 then history else Py.slice_from (- limit) history
  | None => history
  end.

End world.
Arguments t : clear implicits.
Arguments Emitted : clear implicits.
End EventManager.

Module EventContext.
Section world.
Context {World : Type}.

(** The context refers to its event manager, which is shared with the rest
    of the program: the methods take the manager as it is at the call and
    return it as they leave it.  [handlers] holds the pairs
    [(event_name, handler)]. *)
Record t := mk {
  context_name : string;
  handlers : list (string * Callback World)
}.

Definition __init__ (context_name : string) : t := mk context_name [].

Definition register_event (c : t) (m : EventManager.t World) (event_name : string)
    (handler : Callback World) (priority : EventPriority.t) (once : bool)
    : t * EventManager.t World :=
  let m := EventManager.register_event m event_name handler priority once in
  (mk (context_name c) (handlers c ++ [(event_name, handler)]), m).

Definition clear_context (c : t) (m : EventManager.t World) : t * EventManager.t World :=
  let m :=
    foldl (λ m '(event_name, handler), EventManager.remove_event_handler m event_name handler)
      m (handlers c) in
  (mk (context_name c) [], m).

(** [with manager.create_event_context(name) as c: ...] ends with
    [__exit__], whatever the block did. *)
Definition __exit__ (c : t) (m : EventManager.t World) : t * EventManager.t World :=
  clear_context c m.
End world.
Arguments t : clear implicits.
End EventContext.

(** ** Qt value types *)

(** The exceptions that leave the code under study. *)
Inductive PyError := ZeroDivisionError | OverflowError.

(** C [int]s, as Qt's value types hold them: 32 bits in two's complement.
    Qt's own arithmetic on them wraps around, and the binding raises
    [OverflowError] for a Python integer that does not fit. *)
Module CInt.
Definition fits (z : Z) : bool := (- 2 ^ 31 <=? z) && (z <=? 2 ^ 31 - 1).
Definition wrap (z : Z) : Z := (z + 2 ^ 31) `mod` 2 ^ 32 - 2 ^ 31.
End CInt.

Module QPoint.
Record t := mk { x : Z; y : Z }.

(** [QPoint(x, y)] for Python integers [x] and [y]. *)
Definition __init__ (x y : Z) : PyError + t :=
  if CInt.fits x && CInt.fits y then inr (mk x y) else inl OverflowError.

(** [p + q], [p - q] and [manhattanLength()], computed by Qt on C [int]s. *)
Definition add (p q : t) : t := mk (CInt.wrap (x p + x q)) (CInt.wrap (y p + y q)).
Definition sub (p q : t) : t := mk (CInt.wrap (x p - x q)) (CInt.wrap (y p - y q)).
Definition manhattanLength (p : t) : Z := CInt.wrap (Z.abs (x p) + Z.abs (y p)).
Definition isNull (p : t) : bool := (x p =? 0) && (y p =? 0).

#[global] Instance eq_dec : EqDecision t.
Proof. solve_decision. Defined.
End QPoint.

Module QRect.
(** Rectangles as widgets have them: a top-left corner and a size that is
    not negative. *)
Record t := mk { x : Z; y : Z; width : Z; height : Z }.

Definition isNull (r : t) : bool := (width r =? 0) && (height r =? 0).
Definition moveTopLeft (r : t) (p : QPoint.t) : t :=
  mk (QPoint.x p) (QPoint.y p) (width r) (height r).
Definition left (r : t) : Z := x r.
Definition right (r : t) : Z := x r + width r - 1.
Definition top (r : t) : Z := y r.
Definition bottom (r : t) : Z := y r + height r - 1.


(** [r.contains(r')]: [r'] lies inside [r], edges included; a null
    rectangle contains nothing and is contained in nothing. *)
Definition contains (r r' : t) : bool :=
  if isNull r || isNull r' then false
  else (left r <=? left r') && (right r' <=? right r)
       && (top r <=? top r') && (bottom r' <=? bottom r).
End QRect.

Inductive MouseButton := LeftButton | RightButton | MiddleButton.

#[global] Instance MouseButton_eq_dec : EqDecision MouseButton.
Proof. solve_decision. Defined.

(** A mouse event as a widget receives it: [pos] is in the coordinates of
    the widget. *)
Module QMouseEvent.
Record t := mk {
  button : MouseButton;
  buttons : list MouseButton;
  pos : QPoint.t
}.
End QMouseEvent.

(** Emissions of the library's Qt signals; widgets are named by [oid]. *)
Inductive Signal :=
  | widget_selected (w : nat)
  | widget_moved (w : nat) (p : QPoint.t)
  | drag_started (w : nat)
  | drag_finished (w : nat) (p : QPoint.t)
  | widget_removed (widget_id : string)
  | widget_dropped (w : nat) (p : QPoint.t)
  | layout_changed.

(** A drag-and-drop event as the drop zone reads it: [text] is
    [mimeData().text()] when [mimeData().hasText()], and [pos] is in the
    coordinates of the zone. *)
Module QDropEvent.
Record t := mk {
  text : option string;
  pos : QPoint.t
}.
End QDropEvent.

(** Emissions of the two signals of the layout manager, [widget_aligned]
    and its own [layout_changed]. *)
Inductive LayoutSignal :=
  | widget_aligned (widget_id : string) (p : QPoint.t)
  | manager_layout_changed.

(** ** Widgets ([core/widget_base.py]) *)

Module WidgetBase.
(** [oid] is the identity of the Python object, [pos], [width], [height]
    and [visible] are the state Qt keeps for the widget, and [parent] is
    [parent().rect()] when the widget has a parent. *)
Record t := mk {
  oid : nat;
  widget_id : string;
  pos : QPoint.t;
  width : Z;
  height : Z;
  parent : option QRect.t;
  visible : bool;
  is_selected : bool;
  is_draggable : bool;
  is_resizable : bool;
  is_deletable : bool;
  metadata : gmap string Z
}.

(** [uuid] is the value of [str(uuid.uuid4())], [width] and [height] the
    size Qt gives the new widget (at least the minimum, 50 by 30); the
    widget has no parent. *)
Definition __init__ (oid : nat) (uuid : string) (width height : Z) : t :=
  mk oid uuid (QPoint.mk 0 0) width height None false false true true true ∅.

Definition move (w : t) (p : QPoint.t) : t :=
  mk (oid w) (widget_id w) p (width w) (height w) (parent w) (visible w)
     (is_selected w) (is_draggable w) (is_resizable w) (is_deletable w) (metadata w).

Definition resize (w : t) (width height : Z) : t :=
  mk (oid w) (widget_id w) (pos w) width height (parent w) (visible w)
     (is_selected w) (is_draggable w) (is_resizable w) (is_deletable w) (metadata w).

(** [setParent(p)] with [p] given by its rectangle; Qt puts the widget at
    (0, 0) of the new parent and hides it. *)
Definition setParent (w : t) (p : option QRect.t) : t :=
  mk (oid w) (widget_id w) (QPoint.mk 0 0) (width w) (height w) p false
     (is_selected w) (is_draggable w) (is_resizable w) (is_deletable w) (metadata w).

Definition show (w : t) : t :=
  mk (oid w) (widget_id w) (pos w) (width w) (height w) (parent w) true
     (is_selected w) (is_draggable w) (is_resizable w) (is_deletable w) (metadata w).

Definition set_selected (w : t) (selected : bool) : t * list Signal :=
  if bool_decide (is_selected w ≠ selected) then
    (mk (oid w) (widget_id w) (pos w) (width w) (height w) (parent w) (visible w)
        selected (is_draggable w) (is_resizable w) (is_deletable w) (metadata w),
     if selected then [widget_selected (oid w)] else [])
  else (w, []).

Definition set_draggable (w : t) (draggable : bool) : t :=
  mk (oid w) (widget_id w) (pos w) (width w) (height w) (parent w) (visible w)
     (is_selected w) draggable (is_resizable w) (is_deletable w) (metadata w).

Definition mousePressEvent (w : t) (event : QMouseEvent.t) : t * list Signal :=
  set_selected w true.

Definition rect (w : t) : QRect.t := QRect.mk 0 0 (width w) (height w).
Definition mapToParent (w : t) (p : QPoint.t) : QPoint.t := QPoint.add p (pos w).
End WidgetBase.

(** ** The drag controller ([core/draggable.py]) *)

Module DraggableWidget.
(** [animation] is the end value of the animation started by
    [animate_to_position], if there is one. *)
Record t := mk {
  base : WidgetBase.t;
  drag_start_position : QPoint.t;
  is_dragging : bool;
  original_position : QPoint.t;
  drag_threshold : Z;
  snap_to_grid : bool;
  grid_size : Z;
  animation : option QPoint.t
}.

Definition __init__ (oid : nat) (uuid : string) (width height : Z) : t :=
  mk (WidgetBase.__init__ oid uuid width height)
     (QPoint.mk 0 0) false (QPoint.mk 0 0) 5 false 20 None.

Definition pos (w : t) : QPoint.t := WidgetBase.pos (base w).
Definition oid (w : t) : nat := WidgetBase.oid (base w).

Definition with_base (w : t) (b : WidgetBase.t) : t :=
  mk b (drag_start_position w) (is_dragging w) (original_position w)
     (drag_threshold w) (snap_to_grid w) (grid_size w) (animation w).

Definition move (w : t) (p : QPoint.t) : t := with_base w (WidgetBase.move (base w) p).

Definition set_is_dragging (w : t) (b : bool) : t :=
  mk (base w) (drag_start_position w) b (original_position w)
     (drag_threshold w) (snap_to_grid w) (grid_size w) (animation w).

(** What a handler leaves behind: the widget, the signals emitted, and
    the exception that left the handler, if any. *)
Record Handled := {
  widget : t;
  signals : list Signal;
  raised : option PyError
}.

Definition mousePressEvent (w : t) (event : QMouseEvent.t) : Handled :=
  let w :=
    if bool_decide (QMouseEvent.button event = LeftButton)
       && WidgetBase.is_draggable (base w)
    then mk (base w) (QMouseEvent.pos event) (is_dragging w) (pos w)
            (drag_threshold w) (snap_to_grid w) (grid_size w) (animation w)
    else w in
  let '(b, sigs) := WidgetBase.mousePressEvent (base w) event in
  {| widget := with_base w b; signals := sigs; raised := None |}.

(** [_snap_to_grid]: [round(x / grid_size) * grid_size] on each axis, in
    Python integers, and then [QPoint(x, y)]. *)
Definition _snap_to_grid (w : t) (position : QPoint.t) : PyError + QPoint.t :=
  match Py.truediv (QPoint.x position) (grid_size w) with
  | None => inl ZeroDivisionError
  | Some qx =>
      let x := Py.round qx * grid_size w in
      match Py.truediv (QPoint.y position) (grid_size w) with
      | None => inl ZeroDivisionError
      | Some qy =>
          let y := Py.round qy * grid_size w in
          QPoint.__init__ x y
      end
  end.

Definition mouseMoveEvent (w : t) (event : QMouseEvent.t) : Handled :=
  if negb (bool_decide (LeftButton ∈ QMouseEvent.buttons event))
     || negb (WidgetBase.is_draggable (base w))
  then {| widget := w; signals := []; raised := None |}
  else
    let distance :=
      QPoint.manhattanLength (QPoint.sub (QMouseEvent.pos event) (drag_start_position w)) in
    if distance <? drag_threshold w
    then {| widget := w; signals := []; raised := None |}
    else
      let '(w, started) :=
        if negb (is_dragging w)
        then (set_is_dragging w true, [drag_started (oid w)])
        else (w, []) in
      let new_position :=
        WidgetBase.mapToParent (base w)
          (QPoint.sub (QMouseEvent.pos event) (drag_start_position w)) in
      let snapped :=
        if snap_to_grid w then _snap_to_grid w new_position else inr new_position in
      match snapped with
      | inl error => {| widget := w; signals := started; raised := Some error |}
      | inr new_position =>
          {| widget := move w new_position;
             signals := started ++ [widget_moved (oid w) new_position];
             raised := None |}
      end.

Definition _is_valid_position (w : t) (position : QPoint.t) : bool :=
  match WidgetBase.parent (base w) with
  | None => true
  | Some parent_rect =>
      let widget_rect := QRect.moveTopLeft (WidgetBase.rect (base w)) position in
      QRect.contains parent_rect widget_rect
  end.

Definition mouseReleaseEvent (w : t) (event : QMouseEvent.t) : Handled :=
  if is_dragging w && bool_decide (QMouseEvent.button event = LeftButton)
  then
    let w := set_is_dragging w false in
    let final_position := pos w in
    if _is_valid_position w final_position
    then {| widget := w; signals := [drag_finished (oid w) final_position];
            raised := None |}
    else {| widget := move w (original_position w); signals := []; raised := None |}
  else {| widget := w; signals := []; raised := None |}.

Definition set_snap_to_grid (w : t) (enabled : bool) (grid_size : Z) : t :=
  mk (base w) (drag_start_position w) (is_dragging w) (original_position w)
     (drag_threshold w) enabled grid_size (animation w).

(** [animate_to_position]: the animation runs from the current position to
    [target_position]; the widget is at the target once it has finished. *)
Definition animate_to_position (w : t) (target_position : QPoint.t) : t :=
  mk (base w) (drag_start_position w) (is_dragging w) (original_position w)
     (drag_threshold w) (snap_to_grid w) (grid_size w) (Some target_position).

(** The pointer events of one interaction, in the order the widget
    receives them.  An exception that leaves a handler is reported by the
    binding and the event loop goes on with the next event. *)
Inductive Pointer :=
  | Press (event : QMouseEvent.t)
  | Move (event : QMouseEvent.t)
  | Release (event : QMouseEvent.t).

Definition handle (w : t) (p : Pointer) : Handled :=
  match p with
  | Press event => mousePressEvent w event
  | Move event => mouseMoveEvent w event
  | Release event => mouseReleaseEvent w event
  end.

Record Ran := {
  final : t;
  emitted : list Signal;
  errors : list PyError
}.

Fixpoint run (w : t) (ps : list Pointer) : Ran :=
  match ps with
  | [] => {| final := w; emitted := []; errors := [] |}
  | p :: ps' =>
      let h := handle w p in
      let r := run (widget h) ps' in
      {| final := final r;
         emitted := signals h ++ emitted r;
         errors := option_list (raised h) ++ errors r |}
  end.
End DraggableWidget.

(** A widget in a list of [WidgetBase]: an instance of the base class or of
    [DraggableWidget]. *)
Inductive Widget :=
  | Plain (w : WidgetBase.t)
  | Draggable (w : DraggableWidget.t).

Module Widget.
Definition base (w : Widget) : WidgetBase.t :=
  match w with Plain b => b | Draggable d => DraggableWidget.base d end.

Definition with_base (w : Widget) (b : WidgetBase.t) : Widget :=
  match w with
  | Plain _ => Plain b
  | Draggable d => Draggable (DraggableWidget.with_base d b)
  end.

Definition oid (w : Widget) : nat := WidgetBase.oid (base w).
Definition widget_id (w : Widget) : string := WidgetBase.widget_id (base w).
Definition pos (w : Widget) : QPoint.t := WidgetBase.pos (base w).
Definition x (w : Widget) : Z := QPoint.x (pos w).
Definition y (w : Widget) : Z := QPoint.y (pos w).
Definition width (w : Widget) : Z := WidgetBase.width (base w).
Definition height (w : Widget) : Z := WidgetBase.height (base w).

Definition move (w : Widget) (p : QPoint.t) : Widget := with_base w (WidgetBase.move (base w) p).
Definition setParent (w : Widget) (p : option QRect.t) : Widget :=
  with_base w (WidgetBase.setParent (base w) p).
Definition show (w : Widget) : Widget := with_base w (WidgetBase.show (base w)).

(** The idiom of the layout code:
    [if hasattr(widget, 'animate_to_position'): widget.animate_to_position(p)
     else: widget.move(p)]. *)
Definition place (w : Widget) (p : QPoint.t) : Widget :=
  match w with
  | Plain b => Plain (WidgetBase.move b p)
  | Draggable d => Draggable (DraggableWidget.animate_to_position d p)
  end.

(** Where the widget is once a running animation has finished. *)
Definition destination (w : Widget) : QPoint.t :=
  match w with
  | Plain b => WidgetBase.pos b
  | Draggable d => default (DraggableWidget.pos d) (DraggableWidget.animation d)
  end.

Definition is_selected (w : Widget) : bool := WidgetBase.is_selected (base w).
Definition is_deletable (w : Widget) : bool := WidgetBase.is_deletable (base w).
Definition is_resizable (w : Widget) : bool := WidgetBase.is_resizable (base w).

Definition set_selected (w : Widget) (selected : bool) : Widget * list Signal :=
  let '(b, signals) := WidgetBase.set_selected (base w) selected in
  (with_base w b, signals).

(** [mousePressEvent], of the class of the widget. *)
Definition mousePressEvent (w : Widget) (event : QMouseEvent.t) : Widget * list Signal :=
  match w with
  | Plain b =>
      let '(b, signals) := WidgetBase.mousePressEvent b event in (Plain b, signals)
  | Draggable d =>
      let h := DraggableWidget.mousePressEvent d event in
      (Draggable (DraggableWidget.widget h), DraggableWidget.signals h)
  end.

(** [resize(width, height)]; Qt keeps a size within the minimum and the
    maximum size of the widget.  The layout code only ever asks for a size
    that is at least the size the widget has, and the library sets no
    maximum size. *)
Definition resize (w : Widget) (width height : Z) : Widget :=
  with_base w (WidgetBase.resize (base w) width height).

End Widget.

(** ** The drop surface ([core/drop_zone.py]) *)

Module DropZone.
(** [selected_widgets] holds references to widgets, given by their [oid];
    [width] and [height] are the geometry Qt keeps for the zone.  The
    colours are left out. *)
Record t := mk {
  widgets : list Widget;
  selected_widgets : list nat;
  show_grid : bool;
  grid_size : Z;
  is_drop_target : bool;
  layout_mode : string;
  width : Z;
  height : Z
}.

(** [DropZone()]: a widget made without a parent has Qt's default size of
    640 by 480, which the minimum size of 400 by 300 leaves as it is. *)
Definition __init__ : t := mk [] [] true 20 false "free" 640 480.

(** [resize(width, height)]: Qt keeps the size within the minimum size set
    by [__init__] and its own maximum, [QWIDGETSIZE_MAX]. *)
Definition resize (z : t) (width height : Z) : t :=
  mk (widgets z) (selected_widgets z) (show_grid z) (grid_size z)
     (is_drop_target z) (layout_mode z)
     (Z.min 16777215 (Z.max 400 width)) (Z.min 16777215 (Z.max 300 height)).

Definition rect (z : t) : QRect.t := QRect.mk 0 0 (width z) (height z).

(** [bool(position)] for [position: Optional[QPoint]]: [None] is false,
    and so is the null point, since the binding takes [isNull()] for the
    truth value of a [QPoint]. *)
Definition truthy (position : option QPoint.t) : bool :=
  match position with
  | None => false
  | Some p => negb (QPoint.isNull p)
  end.

(** [add_widget]; [widget not in self.widgets] compares object identity.
    The slots connected here repaint the zone and maintain the selection;
    they never move a widget. *)
Definition add_widget (z : t) (widget : Widget) (position : option QPoint.t)
    : t * list Signal :=
  if bool_decide (Widget.oid widget ∉ Widget.oid <$> widgets z) then
    let n := Z.of_nat (length (widgets z ++ [widget])) in
    let widget := Widget.setParent widget (Some (rect z)) in
    let widget :=
      match position with
      | Some p => if truthy position then Widget.move widget p
                  else Widget.move widget (QPoint.mk (n * 50) (n * 30))
      | None => Widget.move widget (QPoint.mk (n * 50) (n * 30))
      end in
    let widget := Widget.show widget in
    (mk (widgets z ++ [widget]) (selected_widgets z) (show_grid z) (grid_size z)
        (is_drop_target z) (layout_mode z) (width z) (height z),
     [layout_changed])
  else (z, []).

Definition _snap_to_grid (z : t) (position : QPoint.t) : PyError + QPoint.t :=
  match Py.truediv (QPoint.x position) (grid_size z) with
  | None => inl ZeroDivisionError
  | Some qx =>
      let x := Py.round qx * grid_size z in
      match Py.truediv (QPoint.y position) (grid_size z) with
      | None => inl ZeroDivisionError
      | Some qy =>
          let y := Py.round qy * grid_size z in
          QPoint.__init__ x y
      end
  end.

(** [set_grid_visible]; [update()] schedules a repaint and changes no
    state. *)
Definition set_grid_visible (z : t) (visible : bool) : t :=
  mk (widgets z) (selected_widgets z) visible (grid_size z)
     (is_drop_target z) (layout_mode z) (width z) (height z).

(** The grid size has no setter method: callers assign the attribute,
    [drop_zone.grid_size = g]. *)
Definition set_grid_size (z : t) (g : Z) : t :=
  mk (widgets z) (selected_widgets z) (show_grid z) g
     (is_drop_target z) (layout_mode z) (width z) (height z).

(** [self.widgets.remove(widget)]: the first entry that is the object. *)
Fixpoint remove_object (oid : nat) (widgets : list Widget) : list Widget :=
  match widgets with
  | [] => []
  | w :: widgets' =>
      if decide (Widget.oid w = oid) then widgets' else w :: remove_object oid widgets'
  end.

(** [remove_widget]: the loop stops at the first widget with the id.
    [setParent(None)] and [deleteLater()] concern the widget that has left
    the zone. *)
Definition remove_widget (z : t) (widget_id : string) : t * list Signal :=
  match list_find (λ w, Widget.widget_id w = widget_id) (widgets z) with
  | Some (_, widget) =>
      (mk (remove_object (Widget.oid widget) (widgets z))
          (if bool_decide (Widget.oid widget ∈ selected_widgets z)
           then Py.remove (Widget.oid widget) (selected_widgets z)
           else selected_widgets z)
          (show_grid z) (grid_size z) (is_drop_target z) (layout_mode z)
          (width z) (height z),
       [widget_removed widget_id; layout_changed])
  | None => (z, [])
  end.

(** What a method call on the widget object [oid] does to the list of the
    zone. *)
Definition update (oid : nat) (f : Widget → Widget) (widgets : list Widget) : list Widget :=
  (λ w, if bool_decide (Widget.oid w = oid) then f w else w) <$> widgets.

(** [w.set_selected(False)], which emits nothing. *)
Definition deselect (w : Widget) : Widget := (Widget.set_selected w false).1.

Definition clear_selection (z : t) : t :=
  mk (foldl (λ widgets oid, update oid deselect widgets) (widgets z) (selected_widgets z))
     [] (show_grid z) (grid_size z) (is_drop_target z) (layout_mode z)
     (width z) (height z).

(** [_on_widget_selected], the slot of [widget_selected]; [ctrl] is the
    reading of [QApplication.keyboardModifiers() & Qt.ControlModifier]. *)
Definition _on_widget_selected (z : t) (widget : nat) (ctrl : bool) : t :=
  if negb ctrl then
    mk (foldl (λ widgets oid,
                 if bool_decide (oid ≠ widget) then update oid deselect widgets
                 else widgets)
          (widgets z) (selected_widgets z))
       [widget] (show_grid z) (grid_size z) (is_drop_target z) (layout_mode z)
       (width z) (height z)
  else if bool_decide (widget ∉ selected_widgets z) then
    mk (widgets z) (selected_widgets z ++ [widget]) (show_grid z) (grid_size z)
       (is_drop_target z) (layout_mode z) (width z) (height z)
  else z.

(** The slots that [add_widget] has connected to the signals of the
    widgets of the zone, run on the signals a widget emits: the
    connections are direct, so a slot runs inside [emit].
    [_on_widget_moved] repaints and changes no state. *)
Definition slots (z : t) (ctrl : bool) (signals : list Signal) : t :=
  foldl (λ z s,
           match s with
           | widget_selected widget => _on_widget_selected z widget ctrl
           | _ => z
           end) z signals.

(** A method call on the widget [oid] of the zone, with the slots its
    signals run.  The slots leave the widget itself alone, so they may be
    run on the state the method leaves. *)
Definition call (z : t) (oid : nat) (method : Widget → Widget * list Signal)
    (ctrl : bool) : t * list Signal :=
  match list_find (λ w, Widget.oid w = oid) (widgets z) with
  | Some (_, widget) =>
      let '(widget, signals) := method widget in
      (slots (mk (update oid (λ _, widget) (widgets z)) (selected_widgets z)
                 (show_grid z) (grid_size z) (is_drop_target z) (layout_mode z)
                 (width z) (height z))
         ctrl signals,
       signals)
  | None => (z, [])
  end.

(** [select_all]; [ctrl] is the state of the Ctrl key during the call. *)
Definition select_all (z : t) (ctrl : bool) : t * list Signal :=
  let z := clear_selection z in
  foldl (λ '(z, log) oid,
           let '(z, signals) := call z oid (λ w, Widget.set_selected w true) ctrl in
           (mk (widgets z) (selected_widgets z ++ [oid]) (show_grid z) (grid_size z)
               (is_drop_target z) (layout_mode z) (width z) (height z),
            log ++ signals))
    (z, []) (Widget.oid <$> widgets z).

(** [delete_selected], over a copy of the selection.  A reference to a
    widget that has left the zone names no widget of the zone: widget ids
    are UUIDs. *)
Definition delete_selected (z : t) : t * list Signal :=
  foldl (λ '(z, log) oid,
           match list_find (λ w, Widget.oid w = oid) (widgets z) with
           | Some (_, widget) =>
               if Widget.is_deletable widget then
                 let '(z, signals) := remove_widget z (Widget.widget_id widget) in
                 (z, log ++ signals)
               else (z, log)
           | None => (z, log)
           end)
    (z, []) (selected_widgets z).

Definition dragEnterEvent (z : t) (event : QDropEvent.t) : t :=
  match QDropEvent.text event with
  | Some text =>
      if String.prefix "widget:" text then
        mk (widgets z) (selected_widgets z) (show_grid z) (grid_size z) true
           (layout_mode z) (width z) (height z)
      else z
  | None => z
  end.

Definition dragLeaveEvent (z : t) : t :=
  mk (widgets z) (selected_widgets z) (show_grid z) (grid_size z) false
     (layout_mode z) (width z) (height z).

(** What [dropEvent] leaves behind: the zone, the signals emitted, and the
    exception that left the handler, if any. *)
Record Dropped := {
  zone : t;
  dropped : list Signal;
  failed : option PyError
}.

(** [dropEvent]; the widget id is [text.split(":")[1]], which exists as the
    text starts with [widget:].  [hasattr(widget, 'snap_to_grid')] holds of
    the instances of [DraggableWidget].  An exception leaves the handler
    before [is_drop_target] is reset. *)
Definition dropEvent (z : t) (event : QDropEvent.t) : Dropped :=
  let done (widgets : list Widget) (signals : list Signal) :=
    {| zone := mk widgets (selected_widgets z) (show_grid z) (grid_size z) false
                  (layout_mode z) (width z) (height z);
       dropped := signals; failed := None |} in
  match QDropEvent.text event with
  | Some text =>
      if String.prefix "widget:" text then
        let widget_id := default EmptyString (Py.split ":"%char text !! 1%nat) in
        match list_find (λ w, Widget.widget_id w = widget_id) (widgets z) with
        | Some (_, widget) =>
            let drop_position := QDropEvent.pos event in
            let snapped :=
              match widget with
              | Draggable d =>
                  if DraggableWidget.snap_to_grid d then _snap_to_grid z drop_position
                  else inr drop_position
              | Plain _ => inr drop_position
              end in
            match snapped with
            | inr drop_position =>
                done (update (Widget.oid widget) (λ w, Widget.move w drop_position)
                        (widgets z))
                     [widget_dropped (Widget.oid widget) drop_position]
            | inl error => {| zone := z; dropped := []; failed := Some error |}
            end
        | None => done (widgets z) []
        end
      else done (widgets z) []
  | None => done (widgets z) []
  end.

(** [_arrange_in_grid]: cells of 150 by 100, as many columns as fit the
    width of the zone. *)
Definition _arrange_in_grid (z : t) : t :=
  let columns := Z.max 1 (width z `div` 150) in
  mk (imap (λ i widget,
              let i := Z.of_nat i in
              let row := i `div` columns in
              let col := i `mod` columns in
              Widget.place widget (QPoint.mk (col * 150 + 20) (row * 100 + 20)))
        (widgets z))
     (selected_widgets z) (show_grid z) (grid_size z) (is_drop_target z)
     (layout_mode z) (width z) (height z).

(** The loop of [_arrange_in_flow]: [limit] is [self.width() - 20]. *)
Fixpoint flow (limit x y max_height : Z) (widgets : list Widget) : list Widget :=
  match widgets with
  | [] => []
  | widget :: rest =>
      let '(x, y, max_height) :=
        if limit <? x + Widget.width widget then (20, y + max_height + 10, 0)
        else (x, y, max_height) in
      Widget.place widget (QPoint.mk x y)
        :: flow limit (x + Widget.width widget + 10) y
             (Z.max max_height (Widget.height widget)) rest
  end.

Definition _arrange_in_flow (z : t) : t :=
  mk (flow (width z - 20) 20 20 0 (widgets z))
     (selected_widgets z) (show_grid z) (grid_size z) (is_drop_target z)
     (layout_mode z) (width z) (height z).

Definition _apply_layout_mode (z : t) : t :=
  if String.eqb (layout_mode z) "grid" then _arrange_in_grid z
  else if String.eqb (layout_mode z) "flow" then _arrange_in_flow z
  else z.

Definition set_layout_mode (z : t) (mode : string) : t :=
  if bool_decide (mode ∈ ["free"; "grid"; "flow"]) then
    _apply_layout_mode
      (mk (widgets z) (selected_widgets z) (show_grid z) (grid_size z)
          (is_drop_target z) mode (width z) (height z))
  else z.
End DropZone.

(** ** The layout engine ([core/layout_manager.py]) *)

Module DynamicLayoutManager.
(** [max(...)], [min(...)] and [sum(...)] over a generator; the first two
    raise on an empty sequence, which their callers exclude. *)
Definition py_max (l : list Z) : Z :=
  match l with [] => 0 | a :: l' => foldl Z.max a l' end.
Definition py_min (l : list Z) : Z :=
  match l with [] => 0 | a :: l' => foldl Z.min a l' end.
Definition py_sum (l : list Z) : Z := foldl Z.add 0 l.






(** The manager itself: [drop_zone] is not read by any method. *)
Record t := mk { alignment_threshold : Z }.

Definition __init__ : t := mk 10.

(** One of the loops of [auto_align_widgets]: every widget is placed at
    its new position, which is announced. *)
Definition align_each (new_pos : Widget → QPoint.t) (widgets : list Widget)
    : list Widget * list LayoutSignal :=
  ((λ w, Widget.place w (new_pos w)) <$> widgets,
   (λ w, widget_aligned (Widget.widget_id w) (new_pos w)) <$> widgets).

Definition auto_align_widgets (widgets : list Widget) (alignment_type : string)
    : list Widget * list LayoutSignal :=
  match widgets with
  | [] => (widgets, [])
  | _ :: _ =>
      let '(aligned, signals) :=
        if String.eqb alignment_type "left" then
          let min_x := py_min (Widget.x <$> widgets) in
          align_each (λ w, QPoint.mk min_x (Widget.y w)) widgets
        else if String.eqb alignment_type "right" then
          let max_x := py_max ((λ w, Widget.x w + Widget.width w) <$> widgets) in
          align_each (λ w, QPoint.mk (max_x - Widget.width w) (Widget.y w)) widgets
        else if String.eqb alignment_type "top" then
          let min_y := py_min (Widget.y <$> widgets) in
          align_each (λ w, QPoint.mk (Widget.x w) min_y) widgets
        else if String.eqb alignment_type "bottom" then
          let max_y := py_max ((λ w, Widget.y w + Widget.height w) <$> widgets) in
          align_each (λ w, QPoint.mk (Widget.x w) (max_y - Widget.height w)) widgets
        else if String.eqb alignment_type "center_horizontal" then
          let avg_x :=
            py_sum ((λ w, Widget.x w + Widget.width w `div` 2) <$> widgets)
            `div` Z.of_nat (length widgets) in
          align_each (λ w, QPoint.mk (avg_x - Widget.width w `div` 2) (Widget.y w)) widgets
        else if String.eqb alignment_type "center_vertical" then
          let avg_y :=
            py_sum ((λ w, Widget.y w + Widget.height w `div` 2) <$> widgets)
            `div` Z.of_nat (length widgets) in
          align_each (λ w, QPoint.mk (Widget.x w) (avg_y - Widget.height w `div` 2)) widgets
        else (widgets, []) in
      (aligned, signals ++ [manager_layout_changed])
  end.

Definition resize_each (size : Widget → Z * Z) (widgets : list Widget) : list Widget :=
  (λ w, if Widget.is_resizable w then Widget.resize w (size w).1 (size w).2 else w)
    <$> widgets.

Definition resize_widgets_uniform (widgets : list Widget) (size_type : string)
    : list Widget * list LayoutSignal :=
  match widgets with
  | [] => (widgets, [])
  | _ :: _ =>
      (if String.eqb size_type "width" then
         let max_width := py_max (Widget.width <$> widgets) in
         resize_each (λ w, (max_width, Widget.height w)) widgets
       else if String.eqb size_type "height" then
         let max_height := py_max (Widget.height <$> widgets) in
         resize_each (λ w, (Widget.width w, max_height)) widgets
       else if String.eqb size_type "both" then
         let max_width := py_max (Widget.width <$> widgets) in
         let max_height := py_max (Widget.height <$> widgets) in
         resize_each (λ w, (max_width, max_height)) widgets
       else widgets,
       [manager_layout_changed])
  end.

(** What [create_layout_grid] leaves behind: the widgets, the signals, and
    the exception that left the method, if any. *)
Record Arranged := {
  arranged : list Widget;
  announced : list LayoutSignal;
  raised : option PyError
}.

(** [create_layout_grid]: cells of 150 by 100 from (20, 20), [spacing]
    apart.  [i // columns] raises for [columns = 0] in the first round, before
    any widget is placed. *)
Definition create_layout_grid (widgets : list Widget) (columns spacing : Z) : Arranged :=
  match widgets with
  | [] => {| arranged := widgets; announced := []; raised := None |}
  | _ :: _ =>
      if columns =? 0 then
        {| arranged := widgets; announced := []; raised := Some ZeroDivisionError |}
      else
        {| arranged :=
             imap (λ i widget,
                     let i := Z.of_nat i in
                     let row := i `div` columns in
                     let col := i `mod` columns in
                     Widget.place widget
                       (QPoint.mk (20 + col * (150 + spacing)) (20 + row * (100 + spacing))))
               widgets;
           announced := [manager_layout_changed];
           raised := None |}
  end.



End DynamicLayoutManager.

(** * Properties *)

(** ** Python's stable sort *)

Section sort_facts.
Context {A : Type} (key : A → Z).

Definition descending : list A → Prop := StronglySorted (λ a b, key b ≤ key a).

Lemma insert_reverse_elem x l a : a ∈ Py.insert_reverse key x l ↔ a = x ∨ a ∈ l.
Proof.
  induction l as [|y l IH]; simpl.
  - rewrite list_elem_of_singleton. split; [by left|].
    by intros [?|?%elem_of_nil].
  - destruct (key x <? key y); [|apply elem_of_cons].
    rewrite !elem_of_cons, IH. tauto.
Qed.

Lemma insert_reverse_descending x l :
  descending l → descending (Py.insert_reverse key x l).
Proof.
  unfold descending. induction 1 as [|y l Hl IH Hy]; simpl.
  - repeat constructor.
  - destruct (Z.ltb_spec (key x) (key y)).
    + constructor; [exact IH|].
      apply Forall_forall. intros a Ha. apply insert_reverse_elem in Ha as [->|Ha]; [lia|].
      rewrite Forall_forall in Hy. auto.
    + constructor; [by constructor|].
      constructor; [lia|].
      eapply Forall_impl; [exact Hy|]. simpl. intros; lia.
Qed.

Lemma sort_reverse_descending l : descending (Py.sort_reverse key l).
Proof.
  induction l; simpl; [constructor|]. by apply insert_reverse_descending.
Qed.

(** Stability: the elements of one key keep their order. *)
Lemma insert_reverse_filter k x l :
  filter (λ a, key a = k) (Py.insert_reverse key x l) = filter (λ a, key a = k) (x :: l).
Proof.
  induction l as [|y l IH]; simpl; [done|].
  destruct (Z.ltb_spec (key x) (key y)); [|done].
  rewrite filter_cons, IH, !filter_cons.
  repeat case_decide; try done; lia.
Qed.

Lemma sort_reverse_filter k l :
  filter (λ a, key a = k) (Py.sort_reverse key l) = filter (λ a, key a = k) l.
Proof.
  induction l as [|x l IH]; simpl; [done|].
  by rewrite insert_reverse_filter, !filter_cons, IH.
Qed.

(** A descending list is determined by its elements of each key. *)
Lemma descending_unique l1 l2 :
  descending l1 → descending l2 →
  (∀ k, filter (λ a, key a = k) l1 = filter (λ a, key a = k) l2) →
  l1 = l2.
Proof.
  intros H1. revert l2. induction H1 as [|x l1 Hl1 IH Hx]; intros l2 H2 Hf.
  - destruct l2 as [|y l2]; [done|].
    specialize (Hf (key y)). rewrite filter_cons in Hf. by case_decide.
  - destruct H2 as [|y l2 Hl2 Hy].
    { specialize (Hf (key x)). rewrite filter_cons in Hf. by case_decide. }
    assert (key x = key y) as Hk.
    { pose proof (Hf (key x)) as Fx. pose proof (Hf (key y)) as Fy.
      rewrite !filter_cons in Fx, Fy.
      rewrite decide_True in Fx by done.
      rewrite (decide_True (P := key y = key y)) in Fy by done.
      assert (x ∈ y :: l2) as Hin.
      { apply (list_elem_of_filter (λ a, key a = key x)).
        rewrite filter_cons, <- Fx. left. }
      assert (y ∈ x :: l1) as Hin'.
      { apply (list_elem_of_filter (λ a, key a = key y)).
        rewrite filter_cons, Fy. left. }
      rewrite Forall_forall in Hx, Hy.
      apply elem_of_cons in Hin as [->|Hin]; [done|].
      apply elem_of_cons in Hin' as [Heq|Hin']; [by rewrite Heq|].
      specialize (Hx _ Hin'). specialize (Hy _ Hin). lia. }
    pose proof (Hf (key x)) as Fx. rewrite !filter_cons in Fx.
    rewrite decide_True in Fx by done. rewrite decide_True in Fx by done.
    injection Fx as -> Fx. f_equal. apply IH; [done|].
    intros k. destruct (decide (k = key y)) as [->|Hne]; [done|].
    specialize (Hf k). rewrite !filter_cons in Hf.
    rewrite !decide_False in Hf by congruence. done.
Qed.

Lemma sort_reverse_sorted l : descending l → Py.sort_reverse key l = l.
Proof.
  intros H. apply descending_unique; [apply sort_reverse_descending|done|].
  intros k. apply sort_reverse_filter.
Qed.

Lemma sort_reverse_snoc l x :
  Py.sort_reverse key (Py.sort_reverse key l ++ [x]) = Py.sort_reverse key (l ++ [x]).
Proof.
  apply descending_unique; try apply sort_reverse_descending.
  intros k. by rewrite !sort_reverse_filter, !filter_app, sort_reverse_filter.
Qed.
End sort_facts.

(** ** The event bus *)

Section event_bus.
Context {World : Type}.
Implicit Types (m : EventManager.t World) (h : EventHandler.t World).
Implicit Types (hs : list (EventHandler.t World)) (fx : list Effect).

Definition priority_value h : Z := EventPriority.value (EventHandler.priority h).

(** The callables called from one of the places of [emit_event], in the
    order of the calls. *)
Definition calls (from : Dispatch) fx : list nat :=
  omap (λ e, match e with
             | Invoked from' cb _ =>
                 if bool_decide (from' = from) then Some cb else None
             | Printed _ => None
             end) fx.

Definition handler_id h : nat := cb_id (EventHandler.callback h).

Lemma calls_app from fx fx' : calls from (fx ++ fx') = calls from fx ++ calls from fx'.
Proof. apply omap_app. Qed.

Lemma calls_invoked from cb after fx :
  calls from (Invoked from cb after :: fx) = cb :: calls from fx.
Proof. unfold calls. simpl. by rewrite bool_decide_true. Qed.

Lemma handlers_of_register_event m name cb p once :
  EventManager.handlers_of (EventManager.register_event m name cb p once) name
  = EventManager.sort_handlers
      (EventManager.handlers_of m name ++ [EventHandler.__init__ cb p once]).
Proof.
  unfold EventManager.handlers_of at 1, EventManager.register_event. simpl.
  by rewrite lookup_insert_eq.
Qed.

(** Registrations of several callables for one event type, one after the
    other. *)
Definition register_all m (name : string)
    (regs : list (Callback World * EventPriority.t * bool)) : EventManager.t World :=
  foldl (λ m '(cb, p, once), EventManager.register_event m name cb p once) m regs.

Definition new_handler (reg : Callback World * EventPriority.t * bool)
    : EventHandler.t World :=
  let '(cb, p, once) := reg in EventHandler.__init__ cb p once.

Lemma handlers_of_register_all m name regs :
  EventManager.handlers_of m name = [] →
  EventManager.handlers_of (register_all m name regs) name
  = EventManager.sort_handlers (new_handler <$> regs).
Proof.
  intros Hm. induction regs as [|[[cb p] once] regs IH] using rev_ind.
  - unfold register_all. simpl. by rewrite Hm.
  - unfold register_all in *. rewrite foldl_snoc, handlers_of_register_event, IH.
    rewrite fmap_app. apply sort_reverse_snoc.
Qed.

(** *** The two dispatch loops *)

Definition is_invoked (e : Effect) : Prop :=
  match e with Invoked _ _ _ => True | Printed _ => False end.

Definition printed (prefix : string) (out : Outcome) : list Effect :=
  match out with Returns => [] | Raises e => [Printed (prefix +:+ e)] end.

Lemma printed_not_invoked prefix out : Forall (λ e, ¬ is_invoked e) (printed prefix out).
Proof. destruct out; repeat constructor. simpl. tauto. Qed.

Lemma calls_printed from prefix out : calls from (printed prefix out) = [].
Proof. by destruct out. Qed.

(** A loop entered with a cancelled event does nothing. *)
Lemma run_handlers_cancelled from prefix hs w event :
  Event.cancelled event = true →
  EventManager.run_handlers from prefix hs w event = (hs, w, event, []).
Proof.
  intros Hc. destruct hs as [|h hs]; simpl; [done|].
  by rewrite Hc, orb_true_r.
Qed.

(** One round of a loop whose handler is enabled and whose event is not
    cancelled. *)
Lemma run_handlers_step from prefix h hs w event :
  EventHandler.enabled h = true → Event.cancelled event = false →
  ∃ h' out,
    let after := cb_run (EventHandler.callback h) w event in
    let rest := EventManager.run_handlers from prefix hs after.1.1 after.1.2 in
    EventManager.run_handlers from prefix (h :: hs) w event
    = (h' :: rest.1.1.1, rest.1.1.2, rest.1.2,
       Invoked from (handler_id h) after.1.2 :: printed prefix out ++ rest.2)
    ∧ out = after.2
    ∧ EventHandler.priority h' = EventHandler.priority h
    ∧ EventHandler.callback h' = EventHandler.callback h.
Proof.
  intros He Hc. simpl. rewrite He, Hc. simpl.
  unfold EventHandler.__call__. rewrite He. simpl.
  destruct (cb_run (EventHandler.callback h) w event) as [[w' event'] out] eqn:Hrun.
  simpl.
  destruct (EventManager.run_handlers from prefix hs w' event')
    as [[[rest' w''] event''] fx] eqn:Hrest.
  destruct out as [|msg]; simpl; rewrite Hrest;
    [eexists _, Returns | eexists _, (Raises msg)];
    (split; [reflexivity|done]).
Qed.

Lemma run_handlers_calls from prefix hs w event :
  calls from (EventManager.run_handlers from prefix hs w event).2
    `prefix_of` (handler_id <$> hs).
Proof.
  revert w event. induction hs as [|h hs IH]; intros w event; simpl.
  { by exists []. }
  destruct (EventHandler.enabled h) eqn:He; simpl; [|apply prefix_nil].
  destruct (Event.cancelled event) eqn:Hc; simpl; [apply prefix_nil|].
  destruct (run_handlers_step from prefix h hs w event He Hc) as (h' & out & Hrun & _).
  simpl in Hrun. rewrite He, Hc in Hrun. simpl in Hrun. rewrite Hrun. simpl.
  rewrite bool_decide_true by done. rewrite calls_app, calls_printed. simpl.
  apply prefix_cons, IH.
Qed.

Lemma run_handlers_calls_other from from' prefix hs w event :
  from' ≠ from →
  calls from' (EventManager.run_handlers from prefix hs w event).2 = [].
Proof.
  intros Hne. revert w event. induction hs as [|h hs IH]; intros w event; simpl; [done|].
  destruct (EventHandler.enabled h) eqn:He; simpl; [|done].
  destruct (Event.cancelled event) eqn:Hc; simpl; [done|].
  destruct (run_handlers_step from prefix h hs w event He Hc) as (h' & out & Hrun & _).
  simpl in Hrun. rewrite He, Hc in Hrun. simpl in Hrun. rewrite Hrun. simpl.
  rewrite bool_decide_false by done. by rewrite calls_app, calls_printed, IH.
Qed.

Lemma emit_signal_calls from (slots : list (Callback World)) w event :
  from ≠ Slot → calls from (EventManager.emit_signal slots w event).2 = [].
Proof.
  intros Hne. revert w event. induction slots as [|s slots IH]; intros w event; simpl; [done|].
  destruct (cb_run s w event) as [[w' event'] out].
  specialize (IH w' event').
  destruct (EventManager.emit_signal slots w' event') as [[w'' event''] fx].
  simpl in *. by rewrite bool_decide_false.
Qed.

(** After a handler has left the event cancelled, nothing more is called;
    [quiet] says so of a list of effects. *)
Fixpoint quiet fx : Prop :=
  match fx with
  | [] => True
  | Invoked from _ after :: fx' =>
      (from ≠ Slot → Event.cancelled after = true → Forall (λ e, ¬ is_invoked e) fx')
      ∧ quiet fx'
  | Printed _ :: fx' => quiet fx'
  end.

Definition cancels (e : Effect) : Prop :=
  match e with
  | Invoked from _ after => from ≠ Slot ∧ Event.cancelled after = true
  | Printed _ => False
  end.

Lemma quiet_printed prefix out fx : quiet fx → quiet (printed prefix out ++ fx).
Proof. by destruct out. Qed.

Lemma quiet_app fx fx' :
  quiet fx → quiet fx' → (Exists cancels fx → Forall (λ e, ¬ is_invoked e) fx') →
  quiet (fx ++ fx').
Proof.
  induction fx as [|[from cb after|msg] fx IH]; simpl; intros Hq Hq' Hex; [done| |].
  - destruct Hq as [Hc Hq]. split.
    + intros Hne Hcan. apply Forall_app. split; [by apply Hc|].
      apply Hex. by left.
    + apply IH; [done..|]. intros. apply Hex. by right.
  - apply IH; [done..|]. intros. apply Hex. by right.
Qed.

Lemma quiet_split fx1 from cb after fx2 :
  quiet (fx1 ++ Invoked from cb after :: fx2) →
  from ≠ Slot → Event.cancelled after = true →
  Forall (λ e, ¬ is_invoked e) fx2.
Proof.
  induction fx1 as [|[from' cb' after'|msg] fx1 IH]; simpl.
  - intros [H _]. exact H.
  - intros [_ H]. by apply IH.
  - apply IH.
Qed.

Lemma run_handlers_quiet from prefix hs w event :
  let r := EventManager.run_handlers from prefix hs w event in
  quiet r.2 ∧ (Exists cancels r.2 → Event.cancelled r.1.2 = true).
Proof.
  revert w event. induction hs as [|h hs IH]; intros w event; simpl.
  { split; [done|]. by intros ?%Exists_nil. }
  destruct (EventHandler.enabled h) eqn:He; simpl;
    [|split; [done|by intros ?%Exists_nil]].
  destruct (Event.cancelled event) eqn:Hc; simpl;
    [split; [done|by intros ?%Exists_nil]|].
  destruct (run_handlers_step from prefix h hs w event He Hc) as (h' & out & Hrun & _).
  simpl in Hrun. rewrite He, Hc in Hrun. simpl in Hrun. rewrite Hrun. simpl.
  set (after := cb_run (EventHandler.callback h) w event) in *.
  destruct (Event.cancelled after.1.2) eqn:Hafter.
  - rewrite run_handlers_cancelled by done. simpl. rewrite app_nil_r.
    split; [|done]. split; [intros; apply printed_not_invoked|].
    pose proof (quiet_printed prefix out [] I) as Hq. by rewrite app_nil_r in Hq.
  - destruct (IH after.1.1 after.1.2) as [Hq Hex]. split.
    + split; [congruence|]. by apply quiet_printed.
    + intros [Hcan|Hcan]%Exists_cons.
      * simpl in Hcan. destruct Hcan. congruence.
      * apply Hex. apply Exists_app in Hcan as [Hcan|Hcan]; [|done].
        exfalso. apply Exists_exists in Hcan as (e & He' & Hcan).
        pose proof (printed_not_invoked prefix out) as Hp.
        rewrite Forall_forall in Hp. apply (Hp e He').
        by destruct e.
Qed.

Lemma emit_signal_quiet (slots : list (Callback World)) w event :
  let r := EventManager.emit_signal slots w event in
  quiet r.2 ∧ ¬ Exists cancels r.2.
Proof.
  revert w event. induction slots as [|s slots IH]; intros w event; simpl.
  { split; [done|]. by intros ?%Exists_nil. }
  destruct (cb_run s w event) as [[w' event'] out].
  specialize (IH w' event').
  destruct (EventManager.emit_signal slots w' event') as [[w'' event''] fx].
  simpl in *. destruct IH as [Hq Hex]. split; [split; [done|done]|].
  intros [[? _]|?]%Exists_cons; done.
Qed.

(** *** [emit_event], taken apart *)

Lemma emit_event_enabled m events w name src data pr now :
  EventManager._enabled m = true →
  let event := Event.__init__ name src data pr now in
  let s := EventManager.emit_signal (EventManager.event_triggered m) w event in
  let g := EventManager.run_handlers Global EventManager.global_error
             (EventManager._global_handlers m) s.1.1 s.1.2 in
  let fx2 :=
    match EventManager._event_handlers m !! name with
    | Some hs =>
        if Event.cancelled g.1.2 then []
        else (EventManager.run_handlers Specific (EventManager.handler_error name)
                hs g.1.1.2 g.1.2).2
    | None => []
    end in
  let r := EventManager.emit_event m events w name src data pr now in
  EventManager.effects r = s.2 ++ g.2 ++ fx2
  ∧ EventManager.returned r = Some (length events)
  ∧ EventManager._event_history (EventManager.manager r)
    = EventManager.add_history (EventManager._event_history m)
        (EventManager._max_history m) (length events)
  ∧ EventManager._max_history (EventManager.manager r) = EventManager._max_history m
  ∧ EventManager._enabled (EventManager.manager r) = true
  ∧ length (EventManager.store r) = S (length events).
Proof.
  intros He. unfold EventManager.emit_event. rewrite He. simpl.
  destruct (EventManager.emit_signal _ w _) as [[w1 ev1] fx0]. simpl.
  destruct (EventManager.run_handlers Global _ _ w1 ev1) as [[[gs w2] ev2] fx1]. simpl.
  destruct (EventManager._event_handlers m !! name) as [hs|]; simpl.
  - destruct (Event.cancelled ev2); simpl.
    + rewrite length_insert, length_app. simpl. repeat split; try done. lia.
    + destruct (EventManager.run_handlers Specific _ hs w2 ev2) as [[[hs' w3] ev3] fx2].
      simpl. rewrite length_insert, length_app. simpl. repeat split; try done. lia.
  - rewrite length_insert, length_app. simpl. repeat split; try done. lia.
Qed.

Lemma emit_event_calls_prefix m events w name src data pr now :
  calls Specific
    (EventManager.effects (EventManager.emit_event m events w name src data pr now))
    `prefix_of` (handler_id <$> EventManager.handlers_of m name).
Proof.
  destruct (EventManager._enabled m) eqn:He.
  - destruct (emit_event_enabled m events w name src data pr now He) as (-> & _).
    rewrite !calls_app, emit_signal_calls, run_handlers_calls_other by done. simpl.
    unfold EventManager.handlers_of.
    destruct (EventManager._event_handlers m !! name) as [hs|]; simpl; [|done].
    destruct (Event.cancelled _); [apply prefix_nil|apply run_handlers_calls].
  - unfold EventManager.emit_event. rewrite He. apply prefix_nil.
Qed.

Lemma emit_event_quiet m events w name src data pr now :
  quiet (EventManager.effects (EventManager.emit_event m events w name src data pr now)).
Proof.
  destruct (EventManager._enabled m) eqn:He;
    [|by unfold EventManager.emit_event; rewrite He].
  destruct (emit_event_enabled m events w name src data pr now He) as (-> & _).
  set (event := Event.__init__ name src data pr now).
  set (s := EventManager.emit_signal _ w event).
  set (g := EventManager.run_handlers Global _ _ _ _).
  destruct (emit_signal_quiet (EventManager.event_triggered m) w event) as [Hs Hns].
  destruct (run_handlers_quiet Global EventManager.global_error
              (EventManager._global_handlers m) s.1.1 s.1.2) as [Hg Hgc].
  apply quiet_app; [done| |by intros ?%Hns].
  apply quiet_app; [done| |].
  - destruct (EventManager._event_handlers m !! name) as [hs|]; [|done].
    destruct (Event.cancelled g.1.2); [done|]. apply run_handlers_quiet.
  - intros Hc%Hgc. fold g in Hc. rewrite Hc.
    by destruct (EventManager._event_handlers m !! name).
Qed.

Lemma register_all_fields m name regs :
  let m' := register_all m name regs in
  EventManager._enabled m' = EventManager._enabled m
  ∧ EventManager.event_triggered m' = EventManager.event_triggered m
  ∧ EventManager._global_handlers m' = EventManager._global_handlers m.
Proof.
  revert m. induction regs as [|[[cb p] once] regs IH]; intros m; [done|].
  simpl. destruct (IH (EventManager.register_event m name cb p once)) as (-> & -> & ->).
  done.
Qed.

Lemma handlers_of_cons m name h hs :
  EventManager.handlers_of m name = h :: hs →
  EventManager._event_handlers m !! name = Some (h :: hs).
Proof.
  unfold EventManager.handlers_of.
  by destruct (EventManager._event_handlers m !! name); simpl; intros; simplify_eq.
Qed.

(** C1.  For an event type without handlers so far: after any sequence of
    registrations the handler list is ordered by descending priority, the
    handlers of one priority stand in the order of their registration, and
    [emit_event] calls the handlers of the type in the order of that list
    (the calls are a prefix of it).  With one HIGH and one NORMAL handler
    the list is HIGH, NORMAL whichever was registered first, and an
    emission calls the HIGH one and then, unless that cancelled the event,
    the NORMAL one. *)
Theorem priority_then_registration_order m name :
  EventManager._event_handlers m !! name = None →
  (∀ regs,
     let m' := register_all m name regs in
     let hs := EventManager.handlers_of m' name in
     descending priority_value hs
     ∧ (∀ p, filter (λ h, EventHandler.priority h = p) hs
             = filter (λ h, EventHandler.priority h = p) (new_handler <$> regs))
     ∧ ∀ events w src data pr now,
         calls Specific
           (EventManager.effects (EventManager.emit_event m' events w name src data pr now))
           `prefix_of` (handler_id <$> hs))
  ∧ (∀ hi lo once_hi once_lo regs,
       regs = [(hi, EventPriority.HIGH, once_hi); (lo, EventPriority.NORMAL, once_lo)]
       ∨ regs = [(lo, EventPriority.NORMAL, once_lo); (hi, EventPriority.HIGH, once_hi)] →
       let m' := register_all m name regs in
       EventManager.handlers_of m' name
       = [EventHandler.__init__ hi EventPriority.HIGH once_hi;
          EventHandler.__init__ lo EventPriority.NORMAL once_lo]
       ∧ ∀ events w src data pr now,
           EventManager._enabled m = true →
           EventManager.event_triggered m = [] →
           EventManager._global_handlers m = [] →
           let after_hi := cb_run hi w (Event.__init__ name src data pr now) in
           calls Specific
             (EventManager.effects
                (EventManager.emit_event m' events w name src data pr now))
           = if Event.cancelled after_hi.1.2 then [cb_id hi] else [cb_id hi; cb_id lo]).
Proof.
  intros Hnone.
  assert (EventManager.handlers_of m name = []) as Hnil.
  { unfold EventManager.handlers_of. by rewrite Hnone. }
  split.
  - intros regs m' hs. subst hs m'. rewrite handlers_of_register_all by done.
    split; [apply sort_reverse_descending|]. split.
    + intros p.
      rewrite (list_filter_iff _ (λ h, priority_value h = EventPriority.value p)
                 (EventManager.sort_handlers _)).
      2:{ intros h. unfold priority_value.
          destruct (EventHandler.priority h), p; simpl; split; done. }
      unfold EventManager.sort_handlers. fold priority_value.
      rewrite (sort_reverse_filter priority_value).
      apply list_filter_iff. intros h. unfold priority_value.
      destruct (EventHandler.priority h), p; simpl; split; done.
    + intros. rewrite <- (handlers_of_register_all m name regs Hnil).
      apply emit_event_calls_prefix.
  - intros hi lo once_hi once_lo regs Hregs m'.
    assert (EventManager.handlers_of m' name
            = [EventHandler.__init__ hi EventPriority.HIGH once_hi;
               EventHandler.__init__ lo EventPriority.NORMAL once_lo]) as Hhs.
    { subst m'. rewrite handlers_of_register_all by done.
      by destruct Hregs as [-> | ->]. }
    split; [done|].
    intros events w src data pr now He Hslots Hglobals after_hi.
    destruct (register_all_fields m name regs) as (He' & Hs' & Hg'). fold m' in He', Hs', Hg'.
    rewrite He in He'. rewrite Hslots in Hs'. rewrite Hglobals in Hg'.
    destruct (emit_event_enabled m' events w name src data pr now He') as (-> & _).
    rewrite Hs', Hg'. simpl. rewrite (handlers_of_cons _ _ _ _ Hhs).
    set (event := Event.__init__ name src data pr now) in *.
    set (H := EventHandler.__init__ hi EventPriority.HIGH once_hi).
    set (N := EventHandler.__init__ lo EventPriority.NORMAL once_lo).
    destruct (run_handlers_step Specific (EventManager.handler_error name) H [N] w event)
      as (H' & out & -> & _); [done..|].
    cbn [snd]. rewrite calls_invoked, calls_app, calls_printed. cbn [app].
    change (EventHandler.callback H) with hi. fold after_hi.
    destruct (Event.cancelled after_hi.1.2) eqn:Hc.
    + by rewrite run_handlers_cancelled.
    + destruct (run_handlers_step Specific (EventManager.handler_error name) N []
                  after_hi.1.1 after_hi.1.2) as (N' & out' & -> & _); [done..|].
      cbn [snd]. by rewrite calls_invoked, calls_app, calls_printed.
Qed.

(** C2.  In the effects of one [emit_event], nothing is called after a
    call of a handler (global or specific to the type) that left the event
    cancelled. *)
Theorem cancel_stops_dispatch m events w name src data pr now fx1 from cb after fx2 :
  EventManager.effects (EventManager.emit_event m events w name src data pr now)
  = fx1 ++ Invoked from cb after :: fx2 →
  from ≠ Slot →
  Event.cancelled after = true →
  Forall (λ e, ¬ is_invoked e) fx2.
Proof.
  intros Hfx. apply (quiet_split fx1 from cb after fx2). rewrite <- Hfx.
  apply emit_event_quiet.
Qed.

(** *** The history *)

(** The arguments of one call of [emit_event], with the clock reading. *)
Record Emission := {
  em_name : string;
  em_source : option string;
  em_data : option (gmap string Z);
  em_priority : EventPriority.t;
  em_now : Z
}.

(** Calls of [emit_event] one after the other; the last component lists
    what the calls returned. *)
Fixpoint emit_all m (events : list Event.t) (w : World) (es : list Emission)
    : EventManager.t World * list Event.t * World * list (option nat) :=
  match es with
  | [] => (m, events, w, [])
  | e :: es' =>
      let r := EventManager.emit_event m events w (em_name e) (em_source e)
                 (em_data e) (em_priority e) (em_now e) in
      let '(m', events', w', refs) :=
        emit_all (EventManager.manager r) (EventManager.store r)
          (EventManager.world r) es' in
      (m', events', w', EventManager.returned r :: refs)
  end.

Lemma add_history_drop (history : list nat) (max_history : nat) (event : nat) :
  (length history ≤ max_history)%nat →
  EventManager.add_history history max_history event
  = drop (length history + 1 - max_history) (history ++ [event]).
Proof.
  intros Hlen. unfold EventManager.add_history. rewrite length_app. simpl.
  destruct (Nat.ltb_spec max_history (length history + 1)).
  - by replace (length history + 1 - max_history)%nat with 1%nat by lia.
  - by replace (length history + 1 - max_history)%nat with 0%nat by lia.
Qed.

Lemma emit_all_history m events w es :
  EventManager._enabled m = true →
  (length (EventManager._event_history m) ≤ EventManager._max_history m)%nat →
  let r := emit_all m events w es in
  let new := seq (length events) (length es) in
  r.2 = Some <$> new
  ∧ EventManager._event_history r.1.1.1
    = drop (length (EventManager._event_history m) + length es
            - EventManager._max_history m)
        (EventManager._event_history m ++ new).
Proof.
  revert m events w. induction es as [|e es IH]; intros m events w He Hlen; simpl.
  { split; [done|]. rewrite app_nil_r.
    by replace (_ + 0 - _)%nat with 0%nat by lia. }
  destruct (emit_event_enabled m events w (em_name e) (em_source e) (em_data e)
              (em_priority e) (em_now e) He) as (_ & Hret & Hhist & Hmax & He' & Hstore).
  set (r := EventManager.emit_event m events w _ _ _ _ _) in *.
  specialize (IH (EventManager.manager r) (EventManager.store r) (EventManager.world r) He').
  rewrite Hhist, Hmax, Hstore, add_history_drop in IH by done.
  destruct (emit_all (EventManager.manager r) (EventManager.store r) (EventManager.world r) es)
    as [[[m' events'] w'] refs].
  simpl in *. destruct IH as [-> ->].
  { rewrite length_drop, length_app. simpl. lia. }
  rewrite Hret. split; [done|].
  rewrite length_drop, length_app. simpl.
  set (h0 := EventManager._event_history m) in *.
  set (mx := EventManager._max_history m) in *.
  set (new := seq (S (length events)) (length es)).
  destruct (decide (length h0 + 1 ≤ mx)%nat).
  - replace (length h0 + 1 - mx)%nat with 0%nat by lia.
    rewrite drop_0, <- app_assoc. simpl. f_equal. lia.
  - assert (length h0 = mx) as Hfull by lia.
    replace (length h0 + 1 - mx)%nat with 1%nat by lia.
    replace (length h0 + 1 - 1 + length es - mx)%nat with (length es) by lia.
    replace (length h0 + S (length es) - mx)%nat with (S (length es)) by lia.
    destruct h0 as [|a h0]; simpl; [done|].
    by rewrite drop_0, <- app_assoc.
Qed.

(** C3.  On an enabled manager whose capacity is the 1000 of [__init__] and
    whose history holds at most 1000 events, any [N] emissions return [N]
    new event objects and leave in the history the last 1000 of the events
    held before and emitted since, oldest first, and all of them while they
    are fewer: the length is the minimum of their number and 1000.  From an
    empty history these are the last [min N 1000] emitted events in the
    order of emission. *)
Theorem history_keeps_newest m events w es :
  EventManager._enabled m = true →
  EventManager._max_history m = 1000%nat →
  (length (EventManager._event_history m) ≤ 1000)%nat →
  let r := emit_all m events w es in
  let emitted := seq (length events) (length es) in
  let before := EventManager._event_history m in
  r.2 = Some <$> emitted
  ∧ EventManager._event_history r.1.1.1
    = drop (length (before ++ emitted) - 1000) (before ++ emitted)
  ∧ length (EventManager._event_history r.1.1.1)
    = (length (before ++ emitted) `min` 1000)%nat
  ∧ (before = [] →
     EventManager._event_history r.1.1.1 = drop (length es - 1000) emitted
     ∧ length (EventManager._event_history r.1.1.1) = (length es `min` 1000)%nat).
Proof.
  intros He Hmax Hlen r emitted before.
  destruct (emit_all_history m events w es He) as [Hrefs Hhist]; [lia|].
  fold r emitted before in Hrefs, Hhist. rewrite Hmax in Hhist.
  assert (length (before ++ emitted) = (length before + length es)%nat) as Hl.
  { unfold emitted. by rewrite length_app, length_seq. }
  rewrite Hl. split; [done|]. split; [done|]. split.
  - rewrite Hhist, length_drop, Hl. lia.
  - intros Hnil. rewrite Hhist, Hnil. simpl. split; [done|].
    rewrite length_drop. unfold emitted. rewrite length_seq. lia.
Qed.

End event_bus.

(** *** The event bus on concrete handlers *)

(** Two callables on a user state that is not used: [quiet_handler] returns,
    [cancelling_handler] cancels the event and then raises. *)
Definition quiet_handler (id : nat) : Callback unit :=
  {| cb_id := id; cb_run := λ w event, (w, event, Returns) |}.

Definition cancelling_handler (id : nat) : Callback unit :=
  {| cb_id := id; cb_run := λ w event, (w, Event.cancel event, Raises "stop") |}.

Lemma priority_then_registration_order_witness :
  let hi := quiet_handler 1 in
  let lo := quiet_handler 2 in
  let m' := register_all EventManager.__init__ "widget_moved"
              [(lo, EventPriority.NORMAL, false); (hi, EventPriority.HIGH, false)] in
  EventManager._event_handlers (EventManager.__init__ (World := unit)) !! "widget_moved" = None
  ∧ EventManager.handlers_of m' "widget_moved"
    = [EventHandler.__init__ hi EventPriority.HIGH false;
       EventHandler.__init__ lo EventPriority.NORMAL false]
  ∧ calls Specific
      (EventManager.effects
         (EventManager.emit_event m' [] tt "widget_moved" None None EventPriority.NORMAL 0))
    = [1; 2]%nat.
Proof.
  intros hi lo m'. split; [reflexivity|].
  destruct (priority_then_registration_order (World := unit) EventManager.__init__
              "widget_moved" eq_refl) as [_ H].
  destruct (H hi lo false false _ (or_intror eq_refl)) as [Hhs Hcalls].
  split; [exact Hhs|].
  exact (Hcalls [] tt None None EventPriority.NORMAL 0 eq_refl eq_refl eq_refl).
Defined.

Lemma cancel_stops_dispatch_witness :
  let m := EventManager.register_global_handler
             (register_all EventManager.__init__ "drag_started"
                [(quiet_handler 2, EventPriority.NORMAL, false);
                 (cancelling_handler 1, EventPriority.HIGH, false)])
             (quiet_handler 3) EventPriority.LOW in
  let event := Event.__init__ "drag_started" None None EventPriority.NORMAL 0 in
  let rest := [Printed "Error in event handler for 'drag_started': stop"] in
  EventManager.effects
    (EventManager.emit_event m [] tt "drag_started" None None EventPriority.NORMAL 0)
  = [Invoked Global 3 event] ++ Invoked Specific 1 (Event.cancel event) :: rest
  ∧ Event.cancelled (Event.cancel event) = true
  ∧ Forall (λ e, ¬ is_invoked e) rest.
Proof.
  intros m event rest.
  assert (EventManager.effects
            (EventManager.emit_event m [] tt "drag_started" None None EventPriority.NORMAL 0)
          = [Invoked Global 3 event] ++ Invoked Specific 1 (Event.cancel event) :: rest)
    as Hfx by (vm_compute; reflexivity).
  split; [exact Hfx|]. split; [reflexivity|].
  apply (cancel_stops_dispatch m [] tt "drag_started" None None EventPriority.NORMAL 0
           [Invoked Global 3 event] Specific 1%nat (Event.cancel event) rest Hfx);
    [discriminate|reflexivity].
Defined.

(** The scenario of the specification: 1200 emissions of [widget_moved] on a
    new manager leave the events 200 to 1199 in the history. *)
Lemma history_keeps_newest_witness :
  let e := {| em_name := "widget_moved"; em_source := None; em_data := None;
              em_priority := EventPriority.NORMAL; em_now := 0 |} in
  let r := emit_all (EventManager.__init__ (World := unit)) [] tt (replicate 1200 e) in
  EventManager._enabled (EventManager.__init__ (World := unit)) = true
  ∧ EventManager._max_history (EventManager.__init__ (World := unit)) = 1000%nat
  ∧ EventManager._event_history (EventManager.__init__ (World := unit)) = []
  ∧ EventManager._event_history r.1.1.1 = seq 200 1000
  ∧ length (EventManager._event_history r.1.1.1) = 1000%nat.
Proof.
  intros e r. split; [reflexivity|]. split; [reflexivity|]. split; [reflexivity|].
  assert (length (EventManager._event_history (EventManager.__init__ (World := unit)))
          ≤ 1000)%nat as Hle by (simpl; lia).
  destruct (history_keeps_newest EventManager.__init__ [] tt (replicate 1200 e)
              eq_refl eq_refl Hle) as (_ & _ & _ & Hnil).
  destruct (Hnil eq_refl) as [Hhist Hlen].
  split; [exact Hhist | exact Hlen].
Defined.

(** ** The drag controller *)

Section drag.
Import DraggableWidget.
Implicit Types (w : DraggableWidget.t) (event : QMouseEvent.t).

Definition unhandled w : Handled := {| widget := w; signals := []; raised := None |}.

Definition distance_from_press w event : Z :=
  QPoint.manhattanLength (QPoint.sub (QMouseEvent.pos event) (drag_start_position w)).

(** The position a move asks for, before any snapping. *)
Definition candidate w event : QPoint.t :=
  WidgetBase.mapToParent (base w) (QPoint.sub (QMouseEvent.pos event) (drag_start_position w)).

Definition aligned (g : Z) (p : QPoint.t) : Prop :=
  QPoint.x p mod g = 0 ∧ QPoint.y p mod g = 0.

Lemma mouseMoveEvent_below_threshold w event :
  distance_from_press w event < drag_threshold w →
  mouseMoveEvent w event = unhandled w.
Proof.
  intros Hd. unfold mouseMoveEvent. fold (distance_from_press w event).
  destruct (_ || _); [done|].
  by destruct (Z.ltb_spec (distance_from_press w event) (drag_threshold w)); [|lia].
Qed.

Lemma mousePressEvent_records w event :
  QMouseEvent.button event = LeftButton →
  WidgetBase.is_draggable (base w) = true →
  let w' := widget (mousePressEvent w event) in
  drag_start_position w' = QMouseEvent.pos event
  ∧ original_position w' = pos w
  ∧ pos w' = pos w
  ∧ is_dragging w' = is_dragging w
  ∧ drag_threshold w' = drag_threshold w
  ∧ snap_to_grid w' = snap_to_grid w
  ∧ grid_size w' = grid_size w
  ∧ oid w' = oid w
  ∧ WidgetBase.parent (base w') = WidgetBase.parent (base w)
  ∧ WidgetBase.width (base w') = WidgetBase.width (base w)
  ∧ WidgetBase.height (base w') = WidgetBase.height (base w)
  ∧ WidgetBase.is_draggable (base w') = true
  ∧ raised (mousePressEvent w event) = None
  ∧ signals (mousePressEvent w event)
    = if WidgetBase.is_selected (base w) then [] else [widget_selected (oid w)].
Proof.
  intros Hb Hd. unfold mousePressEvent. rewrite Hb, Hd. simpl.
  unfold WidgetBase.mousePressEvent, WidgetBase.set_selected. simpl.
  destruct (WidgetBase.is_selected (base w)) eqn:Hs; simpl; repeat split; done.
Qed.

Lemma run_moves_below w (moves : list QMouseEvent.t) :
  Forall (λ event, distance_from_press w event < drag_threshold w) moves →
  run w (Move <$> moves) = {| final := w; emitted := []; errors := [] |}.
Proof.
  induction 1 as [|event moves Hev _ IH]; [done|].
  rewrite fmap_cons. cbn [run handle].
  rewrite mouseMoveEvent_below_threshold by done.
  cbn [unhandled widget signals raised]. by rewrite IH.
Qed.

(** C4.  After a press with the left button on a draggable widget, moves
    whose Manhattan distance from the press point stays below
    [drag_threshold] (5 for a new widget) are not handled at all: they
    emit no signal, so no [drag_started], they leave the widget as the
    press left it, at the position it had, and the whole interaction emits
    no [drag_started]. *)
Theorem below_threshold_no_drag w press (moves : list QMouseEvent.t) :
  QMouseEvent.button press = LeftButton →
  WidgetBase.is_draggable (base w) = true →
  Forall (λ event,
    QPoint.manhattanLength (QPoint.sub (QMouseEvent.pos event) (QMouseEvent.pos press))
    < drag_threshold w) moves →
  let pressed := widget (mousePressEvent w press) in
  let r := run pressed (Move <$> moves) in
  final r = pressed
  ∧ emitted r = []
  ∧ errors r = []
  ∧ pos (final r) = pos w
  ∧ (∀ o, drag_started o ∉ emitted (run w (Press press :: (Move <$> moves))))
  ∧ ∀ oid uuid width height, drag_threshold (__init__ oid uuid width height) = 5.
Proof.
  intros Hb Hd Hmoves pressed r.
  destruct (mousePressEvent_records w press Hb Hd)
    as (Hstart & _ & Hpos & _ & Hthr & _ & _ & _ & _ & _ & _ & _ & _ & Hsig).
  fold pressed in Hstart, Hpos, Hthr.
  assert (r = {| final := pressed; emitted := []; errors := [] |}) as Hr.
  { apply run_moves_below. eapply Forall_impl; [exact Hmoves|].
    intros event Hev. unfold distance_from_press. by rewrite Hstart, Hthr. }
  rewrite Hr. cbn [final emitted errors]. repeat split; try done.
  intros o. cbn [run handle]. fold pressed r. rewrite Hr. cbn [emitted].
  rewrite app_nil_r, Hsig.
  destruct (WidgetBase.is_selected (base w)); [apply not_elem_of_nil|].
  by intros ?%list_elem_of_singleton.
Qed.

(** *** Moves with snap to grid *)

(** What the handlers never touch between a press and the release. *)
Definition same_setup w w' : Prop :=
  drag_start_position w' = drag_start_position w
  ∧ original_position w' = original_position w
  ∧ drag_threshold w' = drag_threshold w
  ∧ snap_to_grid w' = snap_to_grid w
  ∧ grid_size w' = grid_size w
  ∧ oid w' = oid w
  ∧ WidgetBase.parent (base w') = WidgetBase.parent (base w)
  ∧ WidgetBase.width (base w') = WidgetBase.width (base w)
  ∧ WidgetBase.height (base w') = WidgetBase.height (base w)
  ∧ WidgetBase.is_draggable (base w') = WidgetBase.is_draggable (base w).

Lemma same_setup_refl w : same_setup w w.
Proof. by repeat split. Qed.

Lemma same_setup_trans w1 w2 w3 : same_setup w1 w2 → same_setup w2 w3 → same_setup w1 w3.
Proof.
  intros (? & ? & ? & ? & ? & ? & ? & ? & ? & ?) (? & ? & ? & ? & ? & ? & ? & ? & ? & ?).
  repeat split; congruence.
Qed.

Definition quantize (g : Z) (p : QPoint.t) : QPoint.t :=
  QPoint.mk (Py.round (Py.float (inject_Z (QPoint.x p) / inject_Z g)) * g)
            (Py.round (Py.float (inject_Z (QPoint.y p) / inject_Z g)) * g).

(** Both coordinates are C [int]s. *)
Definition fits_point (p : QPoint.t) : bool :=
  CInt.fits (QPoint.x p) && CInt.fits (QPoint.y p).

Lemma _snap_to_grid_quantize w p :
  grid_size w ≠ 0 →
  _snap_to_grid w p
  = if fits_point (quantize (grid_size w) p) then inr (quantize (grid_size w) p)
    else inl OverflowError.
Proof.
  intros Hg. unfold _snap_to_grid, Py.truediv.
  by destruct (Z.eqb_spec (grid_size w) 0).
Qed.

Lemma quantize_aligned g p : aligned g (quantize g p).
Proof. split; simpl; apply Z_mod_mult. Qed.

(** A move is either not handled, or it starts the drag if need be and
    then puts the widget at the quantized candidate position, unless that
    is no point of C [int]s: then [OverflowError] leaves the handler and the
    widget stays where it is. *)
Lemma mouseMoveEvent_snap w event :
  snap_to_grid w = true → grid_size w ≠ 0 →
  let h := mouseMoveEvent w event in
  let p := quantize (grid_size w) (candidate w event) in
  let started := if is_dragging w then [] else [drag_started (oid w)] in
  h = unhandled w
  ∨ (drag_threshold w ≤ distance_from_press w event
     ∧ is_dragging (widget h) = true
     ∧ same_setup w (widget h)
     ∧ (fits_point p = true
        ∧ pos (widget h) = p
        ∧ signals h = started ++ [widget_moved (oid w) p]
        ∧ raised h = None
        ∨ fits_point p = false
          ∧ pos (widget h) = pos w
          ∧ signals h = started
          ∧ raised h = Some OverflowError)).
Proof.
  intros Hs Hg. unfold mouseMoveEvent. fold (distance_from_press w event).
  destruct (_ || _); [by left|].
  destruct (Z.ltb_spec (distance_from_press w event) (drag_threshold w)); [by left|].
  right. fold (candidate w event).
  destruct (is_dragging w) eqn:Hd; simpl;
    rewrite Hs, _snap_to_grid_quantize by done; cbn [set_is_dragging grid_size base];
    destruct (fits_point _) eqn:Hfit; simpl;
    (split; [done|]); (split; [done|]); (split; [by repeat split|]);
    [left|right|left|right]; repeat split; done.
Qed.

Lemma run_moves_snap w (moves : list QMouseEvent.t) :
  snap_to_grid w = true → grid_size w ≠ 0 →
  let r := run w (Move <$> moves) in
  same_setup w (final r)
  ∧ Forall (λ e, e = OverflowError) (errors r)
  ∧ (pos (final r) = pos w
     ∧ (is_dragging (final r) = is_dragging w
        ∨ is_dragging (final r) = true ∧ errors r ≠ [])
     ∨ aligned (grid_size w) (pos (final r)) ∧ is_dragging (final r) = true)
  ∧ (∀ s, s ∈ emitted r →
       (∃ o, s = drag_started o) ∨ ∃ o p, s = widget_moved o p ∧ aligned (grid_size w) p).
Proof.
  revert w. induction moves as [|event moves IH]; intros w Hs Hg.
  { simpl. split; [apply same_setup_refl|]. split; [done|]. split; [left; by split; [|left]|].
    by intros s ?%not_elem_of_nil. }
  rewrite fmap_cons. cbn [run handle]. cbn zeta.
  destruct (mouseMoveEvent_snap w event Hs Hg)
    as [->|(_ & Hdrag & Hsame & Hcase)].
  - cbn [unhandled widget signals raised]. simpl. apply IH; done.
  - set (h := mouseMoveEvent w event) in *.
    pose proof Hsame as (_ & _ & _ & Hs' & Hg' & _).
    destruct (IH (widget h)) as (Hsame' & Herr & Hcases & Hem); [congruence..|].
    cbn [final emitted errors].
    split; [by eapply same_setup_trans|].
    rewrite Hg', Hdrag in Hcases.
    assert (is_dragging (final (run (widget h) (Move <$> moves))) = true) as Hon.
    { destruct Hcases as [[_ [?|[? _]]]|[_ ?]]; done. }
    destruct Hcase as [(Hfit & Hpos & Hsig & Hr)|(Hfit & Hpos & Hsig & Hr)];
      rewrite Hr; cbn [option_list app].
    + split; [done|]. split.
      * right. destruct Hcases as [[-> _]|[? _]]; [|done].
        rewrite Hpos. split; [apply quantize_aligned|done].
      * intros s [Hin|Hin]%elem_of_app.
        -- rewrite Hsig in Hin. apply elem_of_app in Hin as [Hin|Hin].
           ++ left. destruct (is_dragging w); [by apply not_elem_of_nil in Hin|].
              apply list_elem_of_singleton in Hin. eauto.
           ++ right. apply list_elem_of_singleton in Hin.
              eexists _, _. split; [done|]. apply quantize_aligned.
        -- rewrite <- Hg'. by apply Hem.
    + split; [by constructor|]. split.
      * destruct Hcases as [[-> _]|[? _]]; [|by right].
        left. rewrite Hpos. split; [done|]. right. by split.
      * intros s [Hin|Hin]%elem_of_app.
        -- left. rewrite Hsig in Hin.
           destruct (is_dragging w); [by apply not_elem_of_nil in Hin|].
           apply list_elem_of_singleton in Hin. eauto.
        -- rewrite <- Hg'. by apply Hem.
Qed.

(** The release of a drag: the position is kept and announced when it is
    valid, and the widget goes back to [original_position] otherwise. *)
Lemma mouseReleaseEvent_dragging w event :
  is_dragging w = true → QMouseEvent.button event = LeftButton →
  let h := mouseReleaseEvent w event in
  raised h = None
  ∧ is_dragging (widget h) = false
  ∧ same_setup w (widget h)
  ∧ (if _is_valid_position w (pos w)
     then signals h = [drag_finished (oid w) (pos w)] ∧ pos (widget h) = pos w
     else signals h = [] ∧ pos (widget h) = original_position w).
Proof.
  intros Hd Hb. unfold mouseReleaseEvent. rewrite Hd, Hb. simpl.
  change (_is_valid_position (set_is_dragging w false) (pos (set_is_dragging w false)))
    with (_is_valid_position w (pos w)).
  destruct (_is_valid_position w (pos w)); simpl; repeat split; done.
Qed.

Lemma mouseReleaseEvent_idle w event :
  is_dragging w = false ∨ QMouseEvent.button event ≠ LeftButton →
  mouseReleaseEvent w event = unhandled w.
Proof.
  intros H. unfold mouseReleaseEvent.
  destruct H as [-> | H]; [done|].
  rewrite bool_decide_false by done. by rewrite andb_false_r.
Qed.

Lemma run_app w (ps ps' : list Pointer) :
  let r := run w ps in
  let r' := run (final r) ps' in
  run w (ps ++ ps')
  = {| final := final r'; emitted := emitted r ++ emitted r';
       errors := errors r ++ errors r' |}.
Proof.
  revert w. induction ps as [|p ps IH]; intros w; simpl.
  - by destruct (run w ps').
  - rewrite IH. simpl. by rewrite !app_assoc.
Qed.

(** *** The scenarios of the specification *)

Definition left_press (x y : Z) : Pointer :=
  Press (QMouseEvent.mk LeftButton [LeftButton] (QPoint.mk x y)).
Definition left_move (x y : Z) : Pointer :=
  Move (QMouseEvent.mk LeftButton [LeftButton] (QPoint.mk x y)).
Definition left_release (x y : Z) : Pointer :=
  Release (QMouseEvent.mk LeftButton [] (QPoint.mk x y)).

(** A draggable widget of 80 by 30 with snap to a grid of 20, added to the
    empty drop zone [z] at [position] or at the default place. *)
Definition added_to (z : DropZone.t) (oid : nat) (id : string)
    (position : option QPoint.t) : DraggableWidget.t :=
  let w := set_snap_to_grid (__init__ oid id 80 30) true 20 in
  match DropZone.widgets (DropZone.add_widget z (Draggable w) position).1 with
  | [Draggable w'] => w'
  | _ => w
  end.

(** The same for a drop zone that has been resized to 400 by 300. *)
Definition added (oid : nat) (id : string) (position : option QPoint.t) : DraggableWidget.t :=
  added_to (DropZone.resize DropZone.__init__ 400 300) oid id position.

Definition btn1 : DraggableWidget.t := added 1 "btn1" (Some (QPoint.mk 100 100)).

(** C5, as the code has it.  With snap to grid on and a grid size [g]
    other than 0, a move that is handled asks for [round(v / g) * g] on
    each axis, for [v] the coordinate of the candidate position; if that
    is a point of C [int]s the widget is put there, at a multiple of [g] on
    both axes, and otherwise [OverflowError] leaves the handler and the
    widget stays where it is.  An interaction of a press, moves and a
    release raises nothing else; every position announced by
    [widget_moved] is a multiple of [g] on both axes, and so is the one
    announced by [drag_finished] unless every move of the drag raised; at
    the end the widget is at such a position or where it was at the press.
    Dragging the widget of the scenario from (100, 100) by (17, -3) with
    [g = 20] raises nothing and ends at (120, 100), announced by
    [drag_finished]. *)
Theorem snap_quantizes_drag w press (moves : list QMouseEvent.t) release :
  QMouseEvent.button press = LeftButton →
  WidgetBase.is_draggable (base w) = true →
  is_dragging w = false →
  snap_to_grid w = true →
  grid_size w ≠ 0 →
  let g := grid_size w in
  let r := run w (Press press :: (Move <$> moves) ++ [Release release]) in
  Forall (λ e, e = OverflowError) (errors r)
  ∧ (∀ w' event, snap_to_grid w' = true → grid_size w' = g →
       let h := mouseMoveEvent w' event in
       let p := quantize g (candidate w' event) in
       h = unhandled w'
       ∨ fits_point p = true ∧ raised h = None
         ∧ pos (widget h) = p ∧ aligned g (pos (widget h))
       ∨ fits_point p = false ∧ raised h = Some OverflowError
         ∧ pos (widget h) = pos w')
  ∧ (∀ o p, widget_moved o p ∈ emitted r → aligned g p)
  ∧ (∀ o p, drag_finished o p ∈ emitted r →
       pos (final r) = p ∧ (aligned g p ∨ p = pos w ∧ errors r ≠ []))
  ∧ (aligned g (pos (final r)) ∨ pos (final r) = pos w)
  ∧ (let r1 := run btn1 [left_press 10 10; left_move 27 7; left_release 27 7] in
     pos btn1 = QPoint.mk 100 100
     ∧ errors r1 = []
     ∧ pos (final r1) = QPoint.mk 120 100
     ∧ emitted r1 = [widget_selected 1; drag_started 1;
                     widget_moved 1 (QPoint.mk 120 100);
                     drag_finished 1 (QPoint.mk 120 100)]).
Proof.
  intros Hb Hd Hidle Hs Hg g r.
  destruct (mousePressEvent_records w press Hb Hd)
    as (_ & Horig & Hpos & Hdrag & _ & Hs' & Hg' & _ & _ & _ & _ & _ & Hraise & Hsig).
  set (pressed := widget (mousePressEvent w press)) in *.
  rewrite Hs in Hs'. rewrite Hidle in Hdrag.
  destruct (run_moves_snap pressed moves) as (Hsame & Herr & Hcases & Hem);
    [congruence..|].
  set (rm := run pressed (Move <$> moves)) in *.
  rewrite Hg', Hpos, Hdrag in Hcases. fold g in Hcases. rewrite Hg' in Hem. fold g in Hem.
  assert (r = {| final := widget (mouseReleaseEvent (final rm) release);
                 emitted := signals (mousePressEvent w press)
                            ++ emitted rm ++ signals (mouseReleaseEvent (final rm) release);
                 errors := option_list (raised (mousePressEvent w press))
                           ++ errors rm
                           ++ option_list (raised (mouseReleaseEvent (final rm) release)) |})
    as ->.
  { subst r. cbn [run handle]. fold pressed. rewrite (run_app pressed). fold rm.
    cbn [run handle final emitted errors]. by rewrite !app_nil_r. }
  cbn [final emitted errors]. rewrite Hraise. cbn [option_list app].
  assert (∀ s, s ∈ signals (mousePressEvent w press) →
            ∃ o, s = widget_selected o) as Hpress.
  { intros s. rewrite Hsig. destruct (WidgetBase.is_selected (base w)).
    - by intros ?%not_elem_of_nil.
    - intros ->%list_elem_of_singleton. eauto. }
  destruct Hsame as (_ & Horig' & _).
  assert (∀ w' event, snap_to_grid w' = true → grid_size w' = g →
            let h := mouseMoveEvent w' event in
            let p := quantize g (candidate w' event) in
            h = unhandled w'
            ∨ fits_point p = true ∧ raised h = None
              ∧ pos (widget h) = p ∧ aligned g (pos (widget h))
            ∨ fits_point p = false ∧ raised h = Some OverflowError
              ∧ pos (widget h) = pos w') as Hq.
  { intros w' event Hs1 Hg1.
    destruct (mouseMoveEvent_snap w' event Hs1) as [?|(_ & _ & _ & Hcase)];
      [unfold g in Hg1; congruence|by left|].
    cbv zeta in Hcase. rewrite Hg1 in Hcase. cbv zeta. right.
    destruct Hcase as [(Hfit & Hp & _ & Hr)|(Hfit & Hp & _ & Hr)]; [left|right].
    - rewrite Hp. repeat split; try done; apply quantize_aligned.
    - done. }
  assert (∀ o p, widget_moved o p ∈ emitted rm → aligned g p) as Hmoved.
  { intros o p Hin. destruct (Hem _ Hin) as [[? ?]|(? & ? & ? & ?)]; [done|by simplify_eq]. }
  assert (∀ o p, drag_finished o p ∉ emitted rm) as Hnone.
  { intros o p Hin. by destruct (Hem _ Hin) as [[? ?]|(? & ? & ? & ?)]. }
  destruct (decide (is_dragging (final rm) = true ∧ QMouseEvent.button release = LeftButton))
    as [[Hdr Hbr]|Hno].
  - destruct (mouseReleaseEvent_dragging (final rm) release Hdr Hbr)
      as (-> & _ & _ & Hrel).
    cbn [option_list]. rewrite app_nil_r.
    split; [done|]. split; [exact Hq|].
    destruct (_is_valid_position (final rm) (pos (final rm))); destruct Hrel as [-> ->].
    + split; [|split; [|split]].
      * intros o p [Hin|[Hin|Hin]%elem_of_app]%elem_of_app.
        -- by destruct (Hpress _ Hin).
        -- by eapply Hmoved.
        -- by apply list_elem_of_singleton in Hin.
      * intros o p [Hin|[Hin|Hin]%elem_of_app]%elem_of_app.
        -- by destruct (Hpress _ Hin).
        -- by destruct (Hnone o p).
        -- apply list_elem_of_singleton in Hin. simplify_eq. split; [done|].
           destruct Hcases as [[Hp [Hoff|[_ Hraised]]]|[Hal _]]; [congruence| |by left].
           right. by split.
      * destruct Hcases as [[-> _]|[? _]]; [by right|by left].
      * by vm_compute.
    + rewrite app_nil_r. split; [|split; [|split; [right; congruence|]]].
      * intros o p [Hin|Hin]%elem_of_app.
        -- by destruct (Hpress _ Hin).
        -- by eapply Hmoved.
      * intros o p [Hin|Hin]%elem_of_app.
        -- by destruct (Hpress _ Hin).
        -- by destruct (Hnone o p).
      * by vm_compute.
  - rewrite mouseReleaseEvent_idle.
    2:{ destruct (is_dragging (final rm)); [right|by left]. intros ?. by apply Hno. }
    cbn [unhandled widget signals raised option_list]. rewrite !app_nil_r.
    split; [done|]. split; [exact Hq|].
    split; [|split; [|split]].
    + intros o p [Hin|Hin]%elem_of_app.
      * by destruct (Hpress _ Hin).
      * by eapply Hmoved.
    + intros o p [Hin|Hin]%elem_of_app.
      * by destruct (Hpress _ Hin).
      * by destruct (Hnone o p).
    + destruct Hcases as [[-> _]|[? _]]; [by right|by left].
    + by vm_compute.
Qed.

(** *** The release *)

Lemma mouseMoveEvent_setup w event : same_setup w (widget (mouseMoveEvent w event)).
Proof.
  unfold mouseMoveEvent.
  destruct (_ || _); [apply same_setup_refl|].
  destruct (_ <? _); [apply same_setup_refl|].
  destruct (is_dragging w); simpl;
    destruct (if snap_to_grid w then _ else _); simpl; by repeat split.
Qed.

Lemma run_moves_setup w (moves : list QMouseEvent.t) :
  same_setup w (final (run w (Move <$> moves))).
Proof.
  revert w. induction moves as [|event moves IH]; intros w; [apply same_setup_refl|].
  rewrite fmap_cons. cbn [run handle final].
  eapply same_setup_trans; [apply mouseMoveEvent_setup|apply IH].
Qed.

(** The rectangle of the widget at [p] lies within [r], edges included. *)
Definition inside (r : QRect.t) w (p : QPoint.t) : Prop :=
  QRect.x r ≤ QPoint.x p
  ∧ QPoint.x p + WidgetBase.width (base w) ≤ QRect.x r + QRect.width r
  ∧ QRect.y r ≤ QPoint.y p
  ∧ QPoint.y p + WidgetBase.height (base w) ≤ QRect.y r + QRect.height r.

Lemma _is_valid_position_inside w p r :
  WidgetBase.parent (base w) = Some r →
  0 < WidgetBase.width (base w) → 0 < WidgetBase.height (base w) →
  _is_valid_position w p = true ↔ inside r w p.
Proof.
  intros Hp Hw Hh. unfold _is_valid_position, inside. rewrite Hp.
  unfold QRect.contains, QRect.isNull, QRect.left, QRect.right, QRect.top, QRect.bottom.
  simpl.
  destruct (Z.eqb_spec (WidgetBase.width (base w)) 0); [lia|]. simpl. rewrite orb_false_r.
  destruct (Z.eqb_spec (QRect.width r) 0), (Z.eqb_spec (QRect.height r) 0); simpl;
    rewrite ?andb_true_iff, ?Z.leb_le; [split; [done|lia]|lia..].
Qed.

(** C6.  A press with the left button on a draggable widget that has a
    parent and a non-empty rectangle, then moves, then the release of the
    left button while the widget is being dragged: the release raises
    nothing and ends the drag; if the rectangle of the widget at its
    position lies within the rectangle of the parent, [drag_finished] is
    emitted with that position, which is kept; otherwise the widget goes
    back to the position it had at the press and no signal is emitted. *)
Theorem release_commits_or_reverts w press (moves : list QMouseEvent.t) release r :
  QMouseEvent.button press = LeftButton →
  WidgetBase.is_draggable (base w) = true →
  QMouseEvent.button release = LeftButton →
  WidgetBase.parent (base w) = Some r →
  0 < WidgetBase.width (base w) →
  0 < WidgetBase.height (base w) →
  let pressed := widget (mousePressEvent w press) in
  let before := final (run pressed (Move <$> moves)) in
  is_dragging before = true →
  let h := mouseReleaseEvent before release in
  raised h = None
  ∧ is_dragging (widget h) = false
  ∧ (inside r before (pos before) →
       signals h = [drag_finished (oid w) (pos before)] ∧ pos (widget h) = pos before)
  ∧ (¬ inside r before (pos before) →
       signals h = [] ∧ pos (widget h) = pos w).
Proof.
  intros Hb Hd Hbr Hparent Hw Hh pressed before Hdrag h.
  destruct (mousePressEvent_records w press Hb Hd)
    as (_ & Horig & _ & _ & _ & _ & _ & Hoid & Hpar & Hwidth & Hheight & _).
  fold pressed in Horig, Hoid, Hpar, Hwidth, Hheight.
  destruct (run_moves_setup pressed moves)
    as (_ & Horig' & _ & _ & _ & Hoid' & Hpar' & Hwidth' & Hheight' & _).
  fold before in Horig', Hoid', Hpar', Hwidth', Hheight'.
  destruct (mouseReleaseEvent_dragging before release Hdrag Hbr) as (Hr & Hd' & _ & Hrel).
  fold h in Hr, Hd', Hrel.
  pose proof (_is_valid_position_inside before (pos before) r) as Hvalid.
  rewrite Hpar', Hpar, Hwidth', Hwidth, Hheight', Hheight in Hvalid.
  specialize (Hvalid Hparent Hw Hh).
  split; [done|]. split; [done|].
  destruct (_is_valid_position before (pos before)); destruct Hrel as [Hsig Hpos].
  - split; [|intros Hn; exfalso; apply Hn; by apply Hvalid].
    intros _. rewrite Hsig, Hoid', Hoid. done.
  - split; [intros Hin%Hvalid; done|].
    intros _. by rewrite Hpos, Horig', Horig.
Qed.
End drag.

(** *** The drag controller on the scenarios *)

Lemma below_threshold_no_drag_witness :
  let w := DraggableWidget.__init__ 1 "btn1" 80 30 in
  let press := QMouseEvent.mk LeftButton [LeftButton] (QPoint.mk 10 10) in
  let moves := [QMouseEvent.mk LeftButton [LeftButton] (QPoint.mk 12 9);
                QMouseEvent.mk LeftButton [LeftButton] (QPoint.mk 8 12)] in
  let r := DraggableWidget.run w
             (DraggableWidget.Press press :: (DraggableWidget.Move <$> moves)) in
  DraggableWidget.emitted r = [widget_selected 1]
  ∧ DraggableWidget.pos (DraggableWidget.final r) = QPoint.mk 0 0
  ∧ ∀ o, drag_started o ∉ DraggableWidget.emitted r.
Proof.
  intros w press moves r.
  split; [reflexivity|]. split; [reflexivity|].
  refine (proj1 (proj2 (proj2 (proj2 (proj2
    (below_threshold_no_drag w press moves eq_refl eq_refl _)))))).
  repeat constructor.
Defined.

(** The claim of the specification fails where a drag ends outside the
    parent: the first widget of a new zone, which is 640 by 480, is put at
    (50, 30), the drag takes it to (640, 40), out of the zone, and the
    release puts it back at (50, 30), which is not on the grid of 20. *)
Lemma snap_revert_counterexample :
  let w := added_to DropZone.__init__ 1 "btn1" None in
  let r := DraggableWidget.run w [left_press 10 10; left_move 610 10; left_release 610 10] in
  DraggableWidget.snap_to_grid w = true
  ∧ DraggableWidget.grid_size w = 20
  ∧ WidgetBase.parent (DraggableWidget.base w) = Some (QRect.mk 0 0 640 480)
  ∧ DraggableWidget.pos w = QPoint.mk 50 30
  ∧ DraggableWidget.errors r = []
  ∧ DraggableWidget.emitted r
    = [widget_selected 1; drag_started 1; widget_moved 1 (QPoint.mk 640 40)]
  ∧ DraggableWidget.pos (DraggableWidget.final r) = QPoint.mk 50 30
  ∧ ¬ (QPoint.x (DraggableWidget.pos (DraggableWidget.final r)) mod 20 = 0
       ∧ QPoint.y (DraggableWidget.pos (DraggableWidget.final r)) mod 20 = 0).
Proof.
  intros w r. repeat (split; [by vm_compute|]).
  vm_compute. intros [H _]. discriminate H.
Qed.

Lemma snap_quantizes_drag_witness :
  let press := QMouseEvent.mk LeftButton [LeftButton] (QPoint.mk 10 10) in
  let moves := [QMouseEvent.mk LeftButton [LeftButton] (QPoint.mk 27 7)] in
  let release := QMouseEvent.mk LeftButton [] (QPoint.mk 27 7) in
  let r := DraggableWidget.run btn1
             (DraggableWidget.Press press :: (DraggableWidget.Move <$> moves)
                ++ [DraggableWidget.Release release]) in
  DraggableWidget.snap_to_grid btn1 = true
  ∧ DraggableWidget.grid_size btn1 ≠ 0
  ∧ DraggableWidget.errors r = []
  ∧ DraggableWidget.pos (DraggableWidget.final r) = QPoint.mk 120 100
  ∧ (aligned 20 (DraggableWidget.pos (DraggableWidget.final r))
     ∨ DraggableWidget.pos (DraggableWidget.final r) = DraggableWidget.pos btn1).
Proof.
  intros press moves release r.
  assert (DraggableWidget.grid_size btn1 ≠ 0) as Hg by (vm_compute; discriminate).
  split; [reflexivity|]. split; [exact Hg|].
  destruct (snap_quantizes_drag btn1 press moves release eq_refl eq_refl eq_refl eq_refl Hg)
    as (_ & _ & _ & _ & Hfinal & _).
  split; [by vm_compute|]. split; [by vm_compute|]. exact Hfinal.
Defined.

Lemma release_commits_or_reverts_witness :
  let w := added 1 "btn1" None in
  let press := QMouseEvent.mk LeftButton [LeftButton] (QPoint.mk 10 10) in
  let moves := [QMouseEvent.mk LeftButton [LeftButton] (QPoint.mk 410 10)] in
  let release := QMouseEvent.mk LeftButton [] (QPoint.mk 410 10) in
  let before :=
    DraggableWidget.final
      (DraggableWidget.run (DraggableWidget.widget (DraggableWidget.mousePressEvent w press))
         (DraggableWidget.Move <$> moves)) in
  let h := DraggableWidget.mouseReleaseEvent before release in
  DraggableWidget.is_dragging before = true
  ∧ DraggableWidget.pos before = QPoint.mk 440 40
  ∧ DraggableWidget.signals h = []
  ∧ DraggableWidget.pos (DraggableWidget.widget h) = DraggableWidget.pos w.
Proof.
  intros w press moves release before h.
  assert (DraggableWidget.is_dragging before = true) as Hd by (vm_compute; reflexivity).
  split; [exact Hd|]. split; [vm_compute; reflexivity|].
  refine (proj2 (proj2 (proj2
    (release_commits_or_reverts w press moves release (QRect.mk 0 0 400 300)
       eq_refl eq_refl eq_refl eq_refl _ _ Hd))) _).
  - reflexivity.
  - reflexivity.
  - vm_compute. intros (_ & H & _). apply H. reflexivity.
Defined.

(** ** The drop surface *)

Section drop_zone.
Import DropZone.
Implicit Types (z : DropZone.t) (widget : Widget).

(** The widget as [add_widget] leaves it in the zone. *)
Definition adopted z widget (p : QPoint.t) : Widget :=
  Widget.show (Widget.move (Widget.setParent widget (Some (rect z))) p).

Definition with_widgets z (ws : list Widget) : DropZone.t :=
  mk ws (selected_widgets z) (show_grid z) (grid_size z) (is_drop_target z)
     (layout_mode z) (width z) (height z).

Lemma add_widget_present z widget position :
  Widget.oid widget ∈ Widget.oid <$> widgets z →
  add_widget z widget position = (z, []).
Proof. intros Hin. unfold add_widget. by rewrite bool_decide_false by tauto. Qed.

Lemma add_widget_new z widget :
  Widget.oid widget ∉ Widget.oid <$> widgets z →
  let n := Z.of_nat (length (widgets z)) in
  add_widget z widget None
  = (with_widgets z
       (widgets z ++ [adopted z widget (QPoint.mk ((n + 1) * 50) ((n + 1) * 30))]),
     [layout_changed]).
Proof.
  intros Hnew n. unfold add_widget. rewrite bool_decide_true by done.
  rewrite length_app. simpl.
  by replace (Z.of_nat (length (widgets z) + 1)) with (n + 1) by lia.
Qed.

Lemma adopted_fields z widget p :
  Widget.pos (adopted z widget p) = p
  ∧ Widget.oid (adopted z widget p) = Widget.oid widget
  ∧ Widget.widget_id (adopted z widget p) = Widget.widget_id widget
  ∧ Widget.width (adopted z widget p) = Widget.width widget
  ∧ Widget.height (adopted z widget p) = Widget.height widget
  ∧ WidgetBase.parent (Widget.base (adopted z widget p)) = Some (rect z)
  ∧ WidgetBase.visible (Widget.base (adopted z widget p)) = true.
Proof. by destruct widget. Qed.

(** C7, as the code has it.  Adding a widget object that is in the zone
    already changes nothing, emits nothing and raises nothing.  Presence is
    a matter of the object, not of its id: a widget object that is not in
    the zone and comes without a position is appended, whether or not a
    widget of the zone has its id, and is shown with the zone as its parent
    at ((n + 1) * 50, (n + 1) * 30), for [n] the number of widgets in the
    zone before the call, and [layout_changed] is emitted. *)
Theorem add_widget_once z widget position :
  (Widget.oid widget ∈ Widget.oid <$> widgets z →
     add_widget z widget position = (z, []))
  ∧ (Widget.oid widget ∉ Widget.oid <$> widgets z →
     let n := Z.of_nat (length (widgets z)) in
     let placed := adopted z widget (QPoint.mk ((n + 1) * 50) ((n + 1) * 30)) in
     add_widget z widget None = (with_widgets z (widgets z ++ [placed]), [layout_changed])
     ∧ Widget.pos placed = QPoint.mk ((n + 1) * 50) ((n + 1) * 30)
     ∧ Widget.oid placed = Widget.oid widget
     ∧ Widget.widget_id placed = Widget.widget_id widget
     ∧ WidgetBase.parent (Widget.base placed) = Some (rect z)).
Proof.
  split; [apply add_widget_present|].
  intros Hnew n placed. split; [by apply add_widget_new|].
  destruct (adopted_fields z widget (QPoint.mk ((n + 1) * 50) ((n + 1) * 30)))
    as (? & ? & ? & _ & _ & ? & _).
  done.
Qed.

(** C9.  [set_grid_visible] and an assignment to [grid_size] leave the
    list of widgets as it is, and with it the position and the size of
    every widget of the zone; the selection, the layout mode and the
    geometry of the zone stay as well, and only the field that is set
    changes.  [set_snap_to_grid] on a widget leaves its position and size
    alone. *)
Theorem grid_configuration_frame z (visible : bool) (g : Z) :
  let z1 := set_grid_visible z visible in
  let z2 := set_grid_size z g in
  widgets z1 = widgets z
  ∧ widgets z2 = widgets z
  ∧ Widget.pos <$> widgets z1 = Widget.pos <$> widgets z
  ∧ Widget.pos <$> widgets z2 = Widget.pos <$> widgets z
  ∧ (λ w, (Widget.width w, Widget.height w)) <$> widgets z1
    = (λ w, (Widget.width w, Widget.height w)) <$> widgets z
  ∧ (λ w, (Widget.width w, Widget.height w)) <$> widgets z2
    = (λ w, (Widget.width w, Widget.height w)) <$> widgets z
  ∧ z1 = mk (widgets z) (selected_widgets z) visible (grid_size z)
            (is_drop_target z) (layout_mode z) (width z) (height z)
  ∧ z2 = mk (widgets z) (selected_widgets z) (show_grid z) g
            (is_drop_target z) (layout_mode z) (width z) (height z)
  ∧ ∀ d enabled size,
      DraggableWidget.pos (DraggableWidget.set_snap_to_grid d enabled size)
      = DraggableWidget.pos d
      ∧ DraggableWidget.base (DraggableWidget.set_snap_to_grid d enabled size)
        = DraggableWidget.base d.
Proof. by repeat split. Qed.
End drop_zone.

(** An empty zone has no widget, so [n = 0] at the call, and the widget
    lands at (50, 30), not at (0, 0); and a second widget object with the id
    of the first is not rejected: it is appended, and [layout_changed] is
    emitted. *)
Lemma add_widget_counterexample :
  let z := DropZone.__init__ in
  let first := Plain (WidgetBase.__init__ 1 "btn1" 80 30) in
  let second := Plain (WidgetBase.__init__ 2 "btn1" 80 30) in
  let n := Z.of_nat (length (DropZone.widgets z)) in
  let z1 := (DropZone.add_widget z first None).1 in
  n = 0
  ∧ Widget.pos <$> DropZone.widgets z1 = [QPoint.mk 50 30]
  ∧ (DropZone.add_widget z first None).2 = [layout_changed]
  ∧ QPoint.mk 50 30 ≠ QPoint.mk (n * 50) (n * 30)
  ∧ Widget.widget_id <$> DropZone.widgets z1 = ["btn1"]
  ∧ Widget.widget_id second = "btn1"
  ∧ (λ w, (Widget.oid w, Widget.widget_id w, Widget.pos w))
      <$> DropZone.widgets (DropZone.add_widget z1 second None).1
    = [(1%nat, "btn1", QPoint.mk 50 30); (2%nat, "btn1", QPoint.mk 100 60)]
  ∧ (DropZone.add_widget z1 second None).2 = [layout_changed].
Proof. repeat split. discriminate. Qed.

Lemma add_widget_once_witness :
  let a := Plain (WidgetBase.__init__ 1 "a" 80 30) in
  let b := Draggable (DraggableWidget.__init__ 2 "b" 80 30) in
  let z := (DropZone.add_widget DropZone.__init__ a None).1 in
  DropZone.add_widget z a (Some (QPoint.mk 200 200)) = (z, [])
  ∧ Widget.pos <$> DropZone.widgets (DropZone.add_widget z b None).1
    = [QPoint.mk 50 30; QPoint.mk 100 60]
  ∧ (DropZone.add_widget z b None).2 = [layout_changed].
Proof.
  intros a b z.
  destruct (add_widget_once z a (Some (QPoint.mk 200 200))) as (Hpresent & _).
  destruct (add_widget_once z b None) as (_ & Hnew).
  split.
  - apply Hpresent. apply list_elem_of_singleton. reflexivity.
  - destruct Hnew as (Hadd & _).
    + intros Hin. apply list_elem_of_singleton in Hin. discriminate Hin.
    + rewrite Hadd. split; reflexivity.
Defined.

(** ** Python floats

    [Py.float] rounds to the nearest number with a mantissa of 53 bits
    ([float_mantissa], [round_near]), which bounds the relative error of
    every float operation by 2^-53 ([float_error]). *)

Section float_facts.
Local Open Scope Q_scope.

Lemma round_near (q : Q) : Qabs (inject_Z (Py.round q) - q) <= 1 # 2.
Proof.
  unfold Py.round.
  pose proof (Qfloor_le q) as Hlo. pose proof (Qlt_floor q) as Hhi.
  rewrite inject_Z_plus in Hhi. change (inject_Z 1) with 1 in Hhi.
  apply Qabs_Qle_condition.
  destruct (q - inject_Z (Qfloor q) ?= 1 # 2) eqn:Hc.
  - apply Qeq_alt in Hc.
    destruct (Z.even (Qfloor q)); [|rewrite inject_Z_plus; change (inject_Z 1) with 1];
      split; lra.
  - apply Qlt_alt in Hc. split; lra.
  - apply Qgt_alt in Hc. rewrite inject_Z_plus. change (inject_Z 1) with 1. split; lra.
Qed.

Lemma two_power_pos (e : Z) : 0 < 2 ^ e.
Proof. by apply Qpower_0_lt. Qed.

Lemma ilog2_lower (q : Q) : 0 < q → 2 ^ Py.ilog2 q <= q.
Proof.
  intros Hq. unfold Py.ilog2.
  set (k := (Z.log2 (Qnum q) - Z.log2 (Z.pos (Qden q)))%Z).
  destruct (Qle_bool (2 ^ k) q) eqn:Hk; [by apply Qle_bool_iff|].
  destruct q as [n d]. cbn [Qnum Qden] in k.
  assert (0 < n)%Z as Hn by (unfold Qlt in Hq; simpl in Hq; lia).
  pose proof (Z.log2_spec n Hn) as [Hn1 _].
  pose proof (Z.log2_spec (Z.pos d) (Pos2Z.is_pos d)) as [_ Hd2].
  replace (k - 1)%Z with (Z.log2 n - Z.succ (Z.log2 (Z.pos d)))%Z by (unfold k; lia).
  rewrite Qpower_minus by done.
  change 2 with (inject_Z 2).
  rewrite <- !Zpower_Qpower by (try apply Z.le_le_succ_r; apply Z.log2_nonneg).
  apply Qle_shift_div_r.
  { replace 0 with (inject_Z 0) by done. rewrite <- Zlt_Qlt. lia. }
  unfold Qle, Qmult, inject_Z. cbn [Qnum Qden].
  rewrite Pos.mul_1_r, !Z.mul_1_r.
  set (A := (2 ^ Z.log2 n)%Z) in *. set (B := (2 ^ Z.succ (Z.log2 (Z.pos d)))%Z) in *.
  transitivity (n * Z.pos d)%Z; [|nia].
  apply Z.mul_le_mono_nonneg_r; lia.
Qed.

Definition ulp53 : Q := 1 # 2 ^ 53.

Lemma float_error (q : Q) : Qabs (Py.float q - q) <= Qabs q * ulp53.
Proof.
  unfold Py.float. destruct (Qeq_bool q 0) eqn:H0.
  { apply Qeq_bool_iff in H0. rewrite H0. by vm_compute. }
  apply Qeq_bool_neq in H0.
  set (e := (Py.ilog2 (Qabs q) - 52)%Z).
  pose proof (two_power_pos e) as HP.
  assert (0 < Qabs q) as Hq.
  { destruct (Q_dec q 0) as [[H|H]|H]; [|by rewrite Qabs_pos by lra|done].
    rewrite Qabs_neg by lra. lra. }
  pose proof (ilog2_lower _ Hq) as Hlow.
  replace (Py.ilog2 (Qabs q)) with (e + 52)%Z in Hlow by lia.
  rewrite Qpower_plus in Hlow by done.
  pose proof (round_near (q / 2 ^ e)) as Hr.
  set (x := q / 2 ^ e) in *.
  assert (q == x * 2 ^ e) as Hx by (unfold x; field; lra).
  assert (Qabs (inject_Z (Py.round x) * 2 ^ e - q) == Qabs (inject_Z (Py.round x) - x) * 2 ^ e) as ->.
  { rewrite Hx at 1. rewrite <- (Qabs_pos (2 ^ e)) at 3 by lra.
    rewrite <- Qabs_Qmult. apply Qabs_wd. ring. }
  assert (2 ^ 52 == inject_Z (2 ^ 52)) as H52 by done.
  unfold ulp53.
  assert (Qabs (inject_Z (Py.round x) - x) * 2 ^ e <= (1 # 2) * 2 ^ e) as H1.
  { apply Qmult_le_compat_r; lra. }
  assert ((1 # 2) * 2 ^ e == 2 ^ e * 2 ^ 52 * (1 # 2 ^ 53)) as H2.
  { assert (2 ^ 52 * (1 # 2 ^ 53) == 1 # 2) as H by done. rewrite <- Qmult_assoc, H. ring. }
  rewrite H2 in H1. eapply Qle_trans; [exact H1|].
  apply Qmult_le_compat_r; [|done].
  exact Hlow.
Qed.

Lemma ilog2_upper (q : Q) : 0 < q → q < 2 ^ (Py.ilog2 q + 1).
Proof.
  intros Hq. unfold Py.ilog2.
  set (k := (Z.log2 (Qnum q) - Z.log2 (Z.pos (Qden q)))%Z).
  destruct (Qle_bool (2 ^ k) q) eqn:Hk.
  2:{ replace (k - 1 + 1)%Z with k by lia. apply Qnot_le_lt. intros H.
      apply Qle_bool_iff in H. congruence. }
  destruct q as [n d]. cbn [Qnum Qden] in k.
  assert (0 < n)%Z as Hn by (unfold Qlt in Hq; simpl in Hq; lia).
  pose proof (Z.log2_spec n Hn) as [_ Hn2].
  pose proof (Z.log2_spec (Z.pos d) (Pos2Z.is_pos d)) as [Hd1 _].
  replace (k + 1)%Z with (Z.succ (Z.log2 n) - Z.log2 (Z.pos d))%Z by (unfold k; lia).
  rewrite Qpower_minus by done.
  change 2 with (inject_Z 2).
  rewrite <- !Zpower_Qpower by (try apply Z.le_le_succ_r; apply Z.log2_nonneg).
  apply Qlt_shift_div_l.
  { replace 0 with (inject_Z 0) by done. rewrite <- Zlt_Qlt.
    apply Z.pow_pos_nonneg; [lia|apply Z.log2_nonneg]. }
  unfold Qlt, Qmult, inject_Z. cbn [Qnum Qden].
  rewrite Pos.mul_1_r, !Z.mul_1_r.
  set (A := (2 ^ Z.succ (Z.log2 n))%Z) in *. set (B := (2 ^ Z.log2 (Z.pos d))%Z) in *.
  apply Z.le_lt_trans with (n * Z.pos d)%Z; [|nia].
  apply Z.mul_le_mono_nonneg_l; lia.
Qed.

(** A float other than 0 is a mantissa of 53 bits times a power of 2. *)
Lemma float_mantissa (q : Q) :
  ¬ q == 0 →
  ∃ (m e : Z), Py.float q == inject_Z m * 2 ^ e ∧ (2 ^ 52 <= Z.abs m <= 2 ^ 53)%Z.
Proof.
  intros H0. unfold Py.float.
  destruct (Qeq_bool q 0) eqn:Hb; [by apply Qeq_bool_iff in Hb|].
  set (e := (Py.ilog2 (Qabs q) - 52)%Z).
  exists (Py.round (q / 2 ^ e)), e. split; [done|].
  assert (0 < Qabs q) as Hq.
  { destruct (Q_dec q 0) as [[H|H]|H]; [|by rewrite Qabs_pos by lra|done].
    rewrite Qabs_neg by lra. lra. }
  assert (0 < 2 ^ e) as HP by (by apply Qpower_0_lt).
  pose proof (ilog2_lower _ Hq) as Hlow. pose proof (ilog2_upper _ Hq) as Hup.
  replace (Py.ilog2 (Qabs q)) with (e + 52)%Z in Hlow by lia.
  replace (Py.ilog2 (Qabs q) + 1)%Z with (e + 53)%Z in Hup by lia.
  rewrite Qpower_plus in Hlow, Hup by done.
  set (x := q / 2 ^ e).
  assert (Qabs x == Qabs q / 2 ^ e) as Hx.
  { unfold x, Qdiv. rewrite Qabs_Qmult. rewrite (Qabs_pos (/ 2 ^ e)); [done|].
    apply Qlt_le_weak. by apply Qinv_lt_0_compat. }
  assert (inject_Z (2 ^ 52) <= Qabs x) as H1.
  { rewrite Hx. apply Qle_shift_div_l; [done|].
    change (inject_Z (2 ^ 52)) with (2 ^ 52). by rewrite Qmult_comm. }
  assert (Qabs x < inject_Z (2 ^ 53)) as H2.
  { rewrite Hx. apply Qlt_shift_div_r; [done|].
    change (inject_Z (2 ^ 53)) with (2 ^ 53). by rewrite Qmult_comm. }
  clearbody x. clear Hx Hlow Hup.
  unfold Py.round.
  pose proof (Qfloor_le x) as Hlo. pose proof (Qlt_floor x) as Hhi.
  rewrite inject_Z_plus in Hhi. change (inject_Z 1) with 1 in Hhi.
  set (f := Qfloor x) in *.
  assert (∀ a b : Z, inject_Z a < inject_Z b + 1 → (a <= b)%Z) as Hle.
  { intros a b Hab. change 1 with (inject_Z 1) in Hab.
    rewrite <- inject_Z_plus, <- Zlt_Qlt in Hab. lia. }
  assert (∀ a b : Z, inject_Z a < inject_Z b → (a < b)%Z) as Hlt.
  { intros a b Hab. by rewrite Zlt_Qlt. }
  destruct (Qlt_le_dec x 0) as [Hneg|Hpos].
  - rewrite Qabs_neg in H1, H2 by lra.
    assert (- 2 ^ 53 <= f)%Z as Hf1.
    { apply Hle. rewrite inject_Z_opp. lra. }
    assert (f <= - 2 ^ 52)%Z as Hf2.
    { apply Hle. rewrite inject_Z_opp. lra. }
    destruct (x - inject_Z f ?= 1 # 2) eqn:Hc.
    + apply Qeq_alt in Hc.
      assert (f < - 2 ^ 52)%Z by (apply Hlt; rewrite inject_Z_opp; lra).
      destruct (Z.even f); lia.
    + lia.
    + apply Qgt_alt in Hc.
      assert (f < - 2 ^ 52)%Z by (apply Hlt; rewrite inject_Z_opp; lra).
      lia.
  - rewrite Qabs_pos in H1, H2 by lra.
    assert (2 ^ 52 <= f)%Z as Hf1 by (apply Hle; lra).
    assert (f < 2 ^ 53)%Z as Hf2 by (apply Hlt; lra).
    destruct (x - inject_Z f ?= 1 # 2); [destruct (Z.even f)|..]; lia.
Qed.
End float_facts.

(** Two values of binary64 arithmetic: 1/3 and 1/10 as floats. *)
Example float_third : Qred (Py.float (1 # 3)) = 6004799503160661 # 18014398509481984.
Proof. by vm_compute. Qed.

Example float_tenth : Qred (Py.float (1 # 10)) = 3602879701896397 # 36028797018963968.
Proof. by vm_compute. Qed.

Section int_facts.
Local Open Scope Q_scope.



End int_facts.

(** ** The layout engine *)

Section sort_facts_ascending.
Context {A : Type} (key : A → Z).




End sort_facts_ascending.

Section aggregates.
Import DynamicLayoutManager.






Lemma foldl_max_spec (a : Z) (l : list Z) :
  foldl Z.max a l ∈ a :: l ∧ Forall (λ b, b ≤ foldl Z.max a l) (a :: l).
Proof.
  revert a. induction l as [|b l IH]; intros a; simpl.
  - split; [left|]. by repeat constructor.
  - destruct (IH (Z.max a b)) as [Hin Hall].
    apply Forall_cons in Hall as [Hm Hall]. split.
    + apply elem_of_cons in Hin as [Hin|Hin]; [|by do 2 right].
      rewrite Hin. destruct (Z.max_spec a b) as [[_ ->]|[_ ->]]; [right|]; left.
    + repeat constructor; [lia..|done].
Qed.


Lemma py_max_spec (l : list Z) :
  l ≠ [] → py_max l ∈ l ∧ Forall (λ b, b ≤ py_max l) l.
Proof. destruct l as [|a l]; [done|]. intros _. apply foldl_max_spec. Qed.



End aggregates.

Section distribute_loop.
Import DynamicLayoutManager.
Local Open Scope Q_scope.






(** The error of the loop: while the floats stay below [M] in magnitude,
    every float operation is off by at most [η], and a round of the loop,
    which has two of them on top of the rounded spacing, adds at most
    [3 * η] to the distance between [current_x] and its exact value. *)
Section error.
Variables (M η : Q).
Hypothesis Hη : η == M * ulp53.
Hypothesis Hsmall : 3 * η <= 1.
Hypothesis HM : 0 <= η.





End error.

(** *** The exact positions *)





End distribute_loop.

Section distribute_ranges.
Import DynamicLayoutManager.


Lemma destination_place w p : Widget.destination (Widget.place w p) = p.
Proof. by destruct w. Qed.








Local Open Scope Q_scope.










End distribute_ranges.

Section distribute_horizontal.
Import DynamicLayoutManager.



Local Open Scope Q_scope.








End distribute_horizontal.

(** *** The layout engine on a concrete group *)

Definition plain (oid : nat) (x y width height : Z) : Widget :=
  Plain (WidgetBase.move (WidgetBase.__init__ oid "w" width height) (QPoint.mk x y)).



(** * Further properties of the code

    What the code does beyond the claims of the specification: its edge
    cases, the invariants it keeps, and how its operations compose. *)

(** ** The event bus, continued *)

Section filter_facts.
Context {A : Type} (P : A → Prop) `{!∀ a, Decision (P a)}.

Lemma filter_all (l : list A) : (∀ a, a ∈ l → P a) → filter P l = l.
Proof.
  induction l as [|x l IH]; intros Hl; [done|].
  rewrite filter_cons, decide_True by (apply Hl; left).
  f_equal. apply IH. intros a Ha. apply Hl. by right.
Qed.

Lemma filter_none (l : list A) : (∀ a, a ∈ l → ¬ P a) → filter P l = [].
Proof.
  induction l as [|x l IH]; intros Hl; [done|].
  rewrite filter_cons, decide_False by (apply Hl; left).
  apply IH. intros a Ha. apply Hl. by right.
Qed.
End filter_facts.

Lemma filter_ext_in {A : Type} (P Q : A → Prop) `{!∀ a, Decision (P a)}
    `{!∀ a, Decision (Q a)} (l : list A) :
  (∀ a, a ∈ l → P a ↔ Q a) → filter P l = filter Q l.
Proof.
  induction l as [|x l IH]; intros Hl; [done|].
  rewrite !filter_cons, IH by (intros a Ha; apply Hl; by right).
  destruct (decide (P x)) as [HP|HP], (decide (Q x)) as [HQ|HQ]; try done.
  - destruct HQ. apply Hl; [left|done].
  - destruct HP. apply Hl; [left|done].
Qed.

Section sort_filter.
Context {A : Type} (key : A → Z) (P : A → Prop) `{!∀ a, Decision (P a)}.

Lemma descending_filter l : descending key l → descending key (filter P l).
Proof.
  unfold descending. induction 1 as [|x l Hl IH Hx]; [constructor|].
  rewrite filter_cons. destruct (decide (P x)); [|done].
  constructor; [done|].
  apply Forall_forall. intros a [_ Ha]%list_elem_of_filter.
  rewrite Forall_forall in Hx. auto.
Qed.

(** Sorting and filtering commute, the sort being stable. *)
Lemma sort_reverse_filter_pred l :
  filter P (Py.sort_reverse key l) = Py.sort_reverse key (filter P l).
Proof.
  apply descending_unique with (key := key).
  - apply descending_filter, sort_reverse_descending.
  - apply sort_reverse_descending.
  - intros k. rewrite sort_reverse_filter.
    rewrite !list_filter_filter.
    rewrite (list_filter_iff _ (λ a, P a ∧ key a = k)) by (intros; tauto).
    rewrite <- (list_filter_filter P), sort_reverse_filter.
    rewrite list_filter_filter. apply list_filter_iff. intros; tauto.
Qed.
End sort_filter.

Section event_bus_more.
Context {World : Type}.
Implicit Types (m : EventManager.t World) (h : EventHandler.t World).
Implicit Types (hs : list (EventHandler.t World)) (fx : list Effect).
Implicit Types (cb : Callback World).

Lemma handlers_of_remove_event_handler m name cb :
  EventManager.handlers_of (EventManager.remove_event_handler m name cb) name
  = filter (λ h, handler_id h ≠ cb_id cb) (EventManager.handlers_of m name).
Proof.
  unfold EventManager.remove_event_handler, EventManager.handlers_of.
  destruct (EventManager._event_handlers m !! name) as [hs|] eqn:Hm; simpl.
  - unfold handler_id.
    destruct (filter _ hs) as [|h' hs'] eqn:Hf; simpl.
    + by rewrite lookup_delete_eq.
    + by rewrite lookup_insert_eq.
  - by rewrite Hm.
Qed.

Lemma lookup_remove_event_handler_ne m name cb other :
  other ≠ name →
  EventManager._event_handlers (EventManager.remove_event_handler m name cb) !! other
  = EventManager._event_handlers m !! other.
Proof.
  intros Hne. unfold EventManager.remove_event_handler.
  destruct (EventManager._event_handlers m !! name) as [hs|] eqn:Hm; simpl; [|done].
  destruct (filter _ hs); simpl.
  - by rewrite lookup_delete_ne.
  - by rewrite lookup_insert_ne.
Qed.

Lemma lookup_remove_event_handler m name cb :
  EventManager._event_handlers (EventManager.remove_event_handler m name cb) !! name = None
  ↔ Forall (λ h, handler_id h = cb_id cb) (EventManager.handlers_of m name).
Proof.
  unfold EventManager.remove_event_handler, EventManager.handlers_of.
  destruct (EventManager._event_handlers m !! name) as [hs|] eqn:Hm; simpl.
  - pose proof (list_elem_of_filter
                  (λ h : EventHandler.t World, cb_id (EventHandler.callback h) ≠ cb_id cb) hs)
      as Hfilter.
    destruct (filter _ hs) as [|h' hs'] eqn:Hf; simpl.
    + rewrite lookup_delete_eq. split; [intros _|done].
      apply Forall_forall. intros h Hh. unfold handler_id.
      destruct (decide (cb_id (EventHandler.callback h) = cb_id cb)) as [|Hne]; [done|].
      exfalso. eapply not_elem_of_nil, Hfilter. by split.
    + rewrite lookup_insert_eq. split; [done|]. intros Hall.
      destruct (proj1 (Hfilter h')) as [Hne Hin]; [left|].
      rewrite Forall_forall in Hall. by specialize (Hall _ Hin).
  - rewrite Hm. split; [by constructor|done].
Qed.

(** X1. remove_event_handler(name, f) drops every handler of the event name
    whose callback is f and keeps the others in their order; the key of the
    event is deleted exactly when no handler is left; the other events, the
    global handlers and the history are untouched, and a later emit_event(name)
    never calls f as a handler of the event. *)
Theorem remove_event_handler_unregisters m name cb :
  let m' := EventManager.remove_event_handler m name cb in
  EventManager.handlers_of m' name
  = filter (λ h, handler_id h ≠ cb_id cb) (EventManager.handlers_of m name)
  ∧ (EventManager._event_handlers m' !! name = None
     ↔ Forall (λ h, handler_id h = cb_id cb) (EventManager.handlers_of m name))
  ∧ (∀ other, other ≠ name →
       EventManager._event_handlers m' !! other = EventManager._event_handlers m !! other)
  ∧ EventManager._global_handlers m' = EventManager._global_handlers m
  ∧ EventManager._event_history m' = EventManager._event_history m
  ∧ ∀ events w src data pr now,
      Forall (λ c, c ≠ cb_id cb)
        (calls Specific
           (EventManager.effects (EventManager.emit_event m' events w name src data pr now))).
Proof.
  intros m'. split; [apply handlers_of_remove_event_handler|].
  split; [apply lookup_remove_event_handler|].
  split; [intros; by apply lookup_remove_event_handler_ne|].
  split.
  { unfold m', EventManager.remove_event_handler.
    by destruct (EventManager._event_handlers m !! name). }
  split.
  { unfold m', EventManager.remove_event_handler.
    by destruct (EventManager._event_handlers m !! name). }
  intros events w src data pr now.
  destruct (emit_event_calls_prefix m' events w name src data pr now) as [rest Hrest].
  unfold m' in Hrest. rewrite handlers_of_remove_event_handler in Hrest.
  apply Forall_forall. intros c Hc Heq.
  assert (c ∈ handler_id <$> filter (λ h, handler_id h ≠ cb_id cb)
            (EventManager.handlers_of m name)) as Hin.
  { rewrite Hrest. apply elem_of_app. by left. }
  apply list_elem_of_fmap in Hin as (h & -> & [Hne _]%list_elem_of_filter). done.
Qed.
End event_bus_more.

Section event_context.
Context {World : Type}.
Implicit Types (m : EventManager.t World) (h : EventHandler.t World).
Implicit Types (hs : list (EventHandler.t World)) (fx : list Effect).
Implicit Types (cb : Callback World) (c : EventContext.t World).

(** The arguments of one call of [register_event]. *)
Definition Registration : Type := string * Callback World * EventPriority.t * bool.

(** The body of a [with] block that registers handlers through the
    context, one after the other. *)
Definition register_in (cm : EventContext.t World * EventManager.t World)
    (reg : Registration) : EventContext.t World * EventManager.t World :=
  let '(name, cb, p, once) := reg in
  EventContext.register_event cm.1 cm.2 name cb p once.

Definition enter (cm : EventContext.t World * EventManager.t World)
    (regs : list Registration) : EventContext.t World * EventManager.t World :=
  foldl register_in cm regs.

(** The pairs of event name and callable that the registrations name. *)
Definition registered (regs : list Registration) : list (string * nat) :=
  (λ '(name, cb, _, _), (name, cb_id cb)) <$> regs.

Definition news (name : string) (regs : list Registration) : list (EventHandler.t World) :=
  omap (λ '(n, cb, p, once),
          if decide (n = name) then Some (EventHandler.__init__ cb p once) else None) regs.

Lemma handlers_of_register_event_ne m name cb p once other :
  other ≠ name →
  EventManager.handlers_of (EventManager.register_event m name cb p once) other
  = EventManager.handlers_of m other.
Proof.
  intros Hne. unfold EventManager.handlers_of, EventManager.register_event. simpl.
  by rewrite lookup_insert_ne.
Qed.

Lemma enter_spec c m regs :
  (∀ name, descending priority_value (EventManager.handlers_of m name)) →
  let e := enter (c, m) regs in
  EventContext.handlers e.1
  = EventContext.handlers c ++ ((λ '(name, cb, _, _), (name, cb)) <$> regs)
  ∧ ∀ name, EventManager.handlers_of e.2 name
            = EventManager.sort_handlers (EventManager.handlers_of m name ++ news name regs).
Proof.
  intros Hsorted. induction regs as [|[[[n cb] p] once] regs IH] using rev_ind.
  - simpl. split; [by rewrite app_nil_r|]. intros name. rewrite app_nil_r.
    symmetry. apply sort_reverse_sorted, Hsorted.
  - unfold enter in *. rewrite foldl_snoc. simpl in IH.
    destruct (foldl register_in (c, m) regs) as [c' m'] eqn:He. simpl in *.
    destruct IH as [IHc IHm]. split.
    + by rewrite IHc, fmap_app, app_assoc.
    + intros name. unfold news. rewrite omap_app. simpl.
      destruct (decide (n = name)) as [->|Hne].
      * rewrite handlers_of_register_event, IHm. rewrite app_assoc.
        apply sort_reverse_snoc.
      * rewrite app_nil_r, handlers_of_register_event_ne by done. apply IHm.
Qed.

Lemma handlers_of_remove_event_handler_ne m name cb other :
  other ≠ name →
  EventManager.handlers_of (EventManager.remove_event_handler m name cb) other
  = EventManager.handlers_of m other.
Proof.
  intros Hne. unfold EventManager.handlers_of.
  by rewrite lookup_remove_event_handler_ne.
Qed.

Lemma clear_spec (pairs : list (string * Callback World)) m name :
  EventManager.handlers_of
    (foldl (λ m '(event_name, handler),
              EventManager.remove_event_handler m event_name handler) m pairs) name
  = filter (λ h, (name, handler_id h) ∉ (λ '(n, cb), (n, cb_id cb)) <$> pairs)
      (EventManager.handlers_of m name).
Proof.
  revert m. induction pairs as [|[n cb] pairs IH]; intros m; simpl.
  - symmetry. apply filter_all. intros h _. apply not_elem_of_nil.
  - rewrite IH. destruct (decide (n = name)) as [->|Hne].
    + rewrite handlers_of_remove_event_handler, list_filter_filter.
      apply list_filter_iff. intros h. rewrite not_elem_of_cons. split.
      * intros [? ?]. split; [congruence|done].
      * intros [? ?]. split; [done|congruence].
    + rewrite handlers_of_remove_event_handler_ne by done.
      apply list_filter_iff. intros h. rewrite not_elem_of_cons. split.
      * intros ?. split; [congruence|done].
      * by intros [? ?].
Qed.

Lemma registered_pairs (regs : list Registration) :
  (λ '(n, cb), (n, cb_id cb)) <$> ((λ '(name, cb, _, _), (name, cb)) <$> regs)
  = registered regs.
Proof.
  unfold registered. rewrite <- list_fmap_compose. apply list_fmap_ext.
  by intros _ [[[n cb] p] once] _.
Qed.

Lemma news_registered name regs h :
  h ∈ news name regs → (name, handler_id h) ∈ registered regs.
Proof.
  unfold news, registered. intros ([[[n cb] p] once] & Hin & Hh)%list_elem_of_omap.
  destruct (decide (n = name)) as [->|]; [|done]. simplify_eq.
  apply list_elem_of_fmap. by exists (name, cb, p, once).
Qed.

(** X2. Leaving an EventContext (clear_context) empties its list and removes,
    for every pair of event and callable it registered, all handlers of that
    event with that callable, also the ones registered on the manager directly
    before; the other handlers stay in their order, no later emit_event calls a
    callable of the context as a handler of its event, and a manager that had no
    handler for such a pair gets back exactly the handler lists it had. Assumes
    the handler lists of the manager are in descending priority, as
    register_event leaves them. *)
Theorem context_exit_unregisters m cname regs :
  (∀ name, descending priority_value (EventManager.handlers_of m name)) →
  let entered := enter (EventContext.__init__ cname, m) regs in
  let left := EventContext.__exit__ entered.1 entered.2 in
  EventContext.handlers left.1 = []
  ∧ (∀ name,
       EventManager.handlers_of left.2 name
       = filter (λ h, (name, handler_id h) ∉ registered regs)
           (EventManager.handlers_of m name))
  ∧ (∀ name cb p once events w src data pr now,
       (name, cb, p, once) ∈ regs →
       Forall (λ id, id ≠ cb_id cb)
         (calls Specific
            (EventManager.effects
               (EventManager.emit_event left.2 events w name src data pr now))))
  ∧ ((∀ name h, h ∈ EventManager.handlers_of m name →
                (name, handler_id h) ∉ registered regs) →
     ∀ name, EventManager.handlers_of left.2 name = EventManager.handlers_of m name).
Proof.
  intros Hsorted entered left.
  destruct (enter_spec (EventContext.__init__ cname) m regs Hsorted) as [Hc Hm].
  fold entered in Hc, Hm. simpl in Hc.
  assert (∀ name,
    EventManager.handlers_of left.2 name
    = filter (λ h, (name, handler_id h) ∉ registered regs)
        (EventManager.handlers_of m name)) as Hleft.
  { intros name. unfold left, EventContext.__exit__, EventContext.clear_context. simpl.
    rewrite clear_spec, Hc, registered_pairs, Hm.
    unfold EventManager.sort_handlers.
    rewrite (sort_reverse_filter_pred (λ h, EventPriority.value (EventHandler.priority h))).
    rewrite filter_app.
    replace (filter _ (news name regs)) with (@nil (EventHandler.t World)).
    2:{ symmetry. apply filter_none. intros h Hin Hn.
        apply Hn. by apply news_registered. }
    rewrite app_nil_r. apply sort_reverse_sorted.
    apply descending_filter. apply Hsorted. }
  split; [done|]. split; [exact Hleft|]. split.
  - intros name cb p once events w src data pr now Hin.
    destruct (emit_event_calls_prefix left.2 events w name src data pr now) as [rest Hrest].
    rewrite Hleft in Hrest.
    apply Forall_forall. intros c' Hc' ->.
    assert (cb_id cb ∈ handler_id <$> filter (λ h, (name, handler_id h) ∉ registered regs)
              (EventManager.handlers_of m name)) as Hin'.
    { rewrite Hrest. apply elem_of_app. by left. }
    apply list_elem_of_fmap in Hin' as (h & Hid & [Hne _]%list_elem_of_filter).
    apply Hne. rewrite <- Hid. unfold registered. apply list_elem_of_fmap.
    by exists (name, cb, p, once).
  - intros Hfresh name. rewrite Hleft. apply filter_all.
    intros h Hh. by apply Hfresh.
Qed.
End event_context.

Lemma context_exit_unregisters_witness :
  let outside := quiet_handler 1 in
  let inside := quiet_handler 2 in
  let m := EventManager.register_event
             (EventManager.register_event EventManager.__init__ "drag_started" outside
                EventPriority.NORMAL false)
             "drag_started" inside EventPriority.LOW false in
  let entered := enter (EventContext.__init__ "dialog", m)
                   [("drag_started", inside, EventPriority.HIGH, false);
                    ("widget_moved", inside, EventPriority.NORMAL, true)] in
  let left := EventContext.__exit__ entered.1 entered.2 in
  handler_id <$> EventManager.handlers_of entered.2 "drag_started" = [2; 1; 2]%nat
  ∧ handler_id <$> EventManager.handlers_of left.2 "drag_started" = [1]%nat
  ∧ EventManager.handlers_of left.2 "widget_moved" = [].
Proof.
  intros outside inside m entered left.
  split; [reflexivity|].
  assert (∀ name, descending priority_value (EventManager.handlers_of m name)) as Hsorted.
  { intros name. unfold EventManager.handlers_of, m. simpl.
    destruct (decide (name = "drag_started")) as [->|Hne].
    - rewrite lookup_insert_eq. simpl. unfold descending. repeat constructor; simpl.
      all: vm_compute; discriminate.
    - rewrite !lookup_insert_ne by done. rewrite lookup_empty. constructor. }
  destruct (context_exit_unregisters m "dialog"
              [("drag_started", inside, EventPriority.HIGH, false);
               ("widget_moved", inside, EventPriority.NORMAL, true)] Hsorted)
    as (_ & Hleft & _).
  fold entered left in Hleft. rewrite !Hleft. split; reflexivity.
Defined.

Section once.
Context {World : Type}.
Implicit Types (m : EventManager.t World) (h : EventHandler.t World).
Implicit Types (hs : list (EventHandler.t World)) (fx : list Effect).
Implicit Types (cb : Callback World).

(** A loop stops in front of a handler that is disabled. *)
Lemma run_handlers_disabled from prefix hs w event (i : nat) h :
  hs !! i = Some h → EventHandler.enabled h = false →
  calls from (EventManager.run_handlers from prefix hs w event).2
    `prefix_of` (handler_id <$> take i hs).
Proof.
  revert i w event. induction hs as [|h0 hs IH]; intros i w event Hi Hoff; [done|].
  destruct i as [|i]; simpl in Hi.
  - simplify_eq. simpl. rewrite Hoff. simpl. apply prefix_nil.
  - cbn [take fmap list_fmap].
    destruct (EventHandler.enabled h0) eqn:He; [|simpl; rewrite He; apply prefix_nil].
    destruct (Event.cancelled event) eqn:Hc.
    { rewrite run_handlers_cancelled by done. apply prefix_nil. }
    destruct (run_handlers_step from prefix h0 hs w event He Hc) as (h' & out & -> & _).
    cbn [snd]. rewrite calls_invoked, calls_app, calls_printed. cbn [app].
    apply prefix_cons. by eapply IH.
Qed.

(** What a loop does to the handlers: it keeps the list, and a handler
    whose counter has moved was called and returned, which disables it if
    it is a [once] handler. *)
Lemma run_handlers_handlers from prefix hs w event (i : nat) h :
  hs !! i = Some h →
  ∃ h', (EventManager.run_handlers from prefix hs w event).1.1.1 !! i = Some h'
        ∧ EventHandler.callback h' = EventHandler.callback h
        ∧ EventHandler.priority h' = EventHandler.priority h
        ∧ EventHandler.once h' = EventHandler.once h
        ∧ (EventHandler.call_count h' = EventHandler.call_count h
           ∧ EventHandler.enabled h' = EventHandler.enabled h
           ∨ EventHandler.call_count h' = S (EventHandler.call_count h)
             ∧ EventHandler.enabled h = true
             ∧ EventHandler.enabled h' = negb (EventHandler.once h)).
Proof.
  revert i w event. induction hs as [|h0 hs IH]; intros i w event Hi; [done|].
  cbn [EventManager.run_handlers].
  destruct (negb (EventHandler.enabled h0) || Event.cancelled event) eqn:Hstop.
  { cbn [fst]. exists h. rewrite Hi. repeat split; by left. }
  apply orb_false_iff in Hstop as [He Hc]. apply negb_false_iff in He.
  unfold EventHandler.__call__. rewrite He. cbn [negb].
  destruct (cb_run (EventHandler.callback h0) w event) as [[w' event'] out].
  destruct out as [|msg].
  - destruct (EventManager.run_handlers from prefix hs w' event')
      as [[[rest' w''] event''] fx] eqn:Hrest.
    cbn [fst]. destruct i as [|i]; simpl in Hi.
    + simplify_eq. eexists. split; [done|]. simpl. repeat split; try done.
      right. rewrite He. by destruct (EventHandler.once h).
    + specialize (IH i w' event' Hi). rewrite Hrest in IH. exact IH.
  - destruct (EventManager.run_handlers from prefix hs w' event')
      as [[[rest' w''] event''] fx] eqn:Hrest.
    cbn [fst]. destruct i as [|i]; simpl in Hi.
    + simplify_eq. eexists. split; [done|]. repeat split; by left.
    + specialize (IH i w' event' Hi). rewrite Hrest in IH. exact IH.
Qed.

Lemma emit_event_handlers m events w name src data pr now (i : nat) h :
  EventManager.handlers_of m name !! i = Some h →
  ∃ h', EventManager.handlers_of
          (EventManager.manager (EventManager.emit_event m events w name src data pr now))
          name !! i = Some h'
        ∧ EventHandler.callback h' = EventHandler.callback h
        ∧ EventHandler.priority h' = EventHandler.priority h
        ∧ EventHandler.once h' = EventHandler.once h
        ∧ (EventHandler.call_count h' = EventHandler.call_count h
           ∧ EventHandler.enabled h' = EventHandler.enabled h
           ∨ EventHandler.call_count h' = S (EventHandler.call_count h)
             ∧ EventHandler.enabled h = true
             ∧ EventHandler.enabled h' = negb (EventHandler.once h)).
Proof.
  intros Hi. unfold EventManager.emit_event.
  destruct (EventManager._enabled m); simpl.
  2:{ exists h. rewrite Hi. repeat split; by left. }
  destruct (EventManager.emit_signal _ w _) as [[w1 ev1] fx0]. simpl.
  destruct (EventManager.run_handlers Global _ _ w1 ev1) as [[[gs w2] ev2] fx1]. simpl.
  unfold EventManager.handlers_of in Hi.
  destruct (EventManager._event_handlers m !! name) as [hs|] eqn:Hm; simpl in Hi; [|done].
  destruct (Event.cancelled ev2); simpl.
  { unfold EventManager.handlers_of. simpl. rewrite Hm. simpl.
    exists h. rewrite Hi. repeat split; by left. }
  pose proof (run_handlers_handlers Specific (EventManager.handler_error name)
                hs w2 ev2 i h Hi) as IH.
  destruct (EventManager.run_handlers Specific _ hs w2 ev2) as [[[hs' w3] ev3] fx2].
  simpl in *. unfold EventManager.handlers_of. simpl. by rewrite lookup_insert_eq.
Qed.

Lemma emit_event_handlers_ne m events w name' src data pr now (name : string) :
  name ≠ name' →
  EventManager.handlers_of
    (EventManager.manager (EventManager.emit_event m events w name' src data pr now)) name
  = EventManager.handlers_of m name.
Proof.
  intros Hne. unfold EventManager.emit_event.
  destruct (EventManager._enabled m); simpl; [|done].
  destruct (EventManager.emit_signal _ w _) as [[w1 ev1] fx0]. simpl.
  destruct (EventManager.run_handlers Global _ _ w1 ev1) as [[[gs w2] ev2] fx1]. simpl.
  destruct (EventManager._event_handlers m !! name') as [hs|] eqn:Hm; simpl; [|done].
  destruct (Event.cancelled ev2); simpl; [done|].
  destruct (EventManager.run_handlers Specific _ hs w2 ev2) as [[[hs' w3] ev3] fx2]. simpl.
  unfold EventManager.handlers_of. simpl. by rewrite lookup_insert_ne.
Qed.

(** The handler at index [i] of the event is disabled, and the handlers
    before it are those of the callables [ids]. *)
Definition spent m (name : string) (i : nat) (ids : list nat) : Prop :=
  ∃ h, EventManager.handlers_of m name !! i = Some h
       ∧ EventHandler.enabled h = false
       ∧ handler_id <$> take i (EventManager.handlers_of m name) = ids.

(** An emission, of whatever event, leaves a spent handler as it is. *)
Lemma emit_event_spent m events w name' src data pr now name i ids :
  spent m name i ids →
  spent (EventManager.manager (EventManager.emit_event m events w name' src data pr now))
    name i ids.
Proof.
  intros (h & Hi & Hoff & Hids). destruct (decide (name = name')) as [<-|Hne].
  - destruct (emit_event_handlers m events w name src data pr now i h Hi)
      as (h' & Hi' & _ & _ & _ & Hcases).
    exists h'. split; [done|]. split.
    { destruct Hcases as [[_ ->]|(_ & Hon & _)]; [done|congruence]. }
    rewrite <- Hids. apply list_eq. intros j. rewrite !list_lookup_fmap.
    destruct (decide (j < i)%nat) as [Hlt|Hge].
    + rewrite !lookup_take_lt by done.
      destruct (EventManager.handlers_of m name !! j) as [hj|] eqn:Hj.
      * destruct (emit_event_handlers m events w name src data pr now j hj Hj)
          as (hj' & -> & Hcb & _).
        simpl. unfold handler_id. by rewrite Hcb.
      * apply lookup_ge_None in Hj. apply lookup_lt_Some in Hi. lia.
    + by rewrite !lookup_take_ge by lia.
  - exists h. by rewrite emit_event_handlers_ne.
Qed.

Lemma emit_all_spent m events w (es : list Emission) name i ids :
  spent m name i ids → spent (emit_all m events w es).1.1.1 name i ids.
Proof.
  revert m events w. induction es as [|e es IH]; intros m events w Hspent; [done|].
  cbn [emit_all].
  specialize (IH _ (EventManager.store
                      (EventManager.emit_event m events w (em_name e) (em_source e)
                         (em_data e) (em_priority e) (em_now e)))
                 (EventManager.world
                      (EventManager.emit_event m events w (em_name e) (em_source e)
                         (em_data e) (em_priority e) (em_now e)))
                 (emit_event_spent m events w (em_name e) (em_source e) (em_data e)
                    (em_priority e) (em_now e) name i ids Hspent)).
  by destruct (emit_all _ _ _ es) as [[[m' events'] w'] refs].
Qed.

(** The loop over the handlers of the event stops at a spent handler. *)
Lemma spent_calls m events w name src data pr now i ids :
  spent m name i ids →
  calls Specific
    (EventManager.effects (EventManager.emit_event m events w name src data pr now))
  `prefix_of` ids.
Proof.
  intros (h & Hi & Hoff & <-).
  destruct (EventManager._enabled m) eqn:He.
  - destruct (emit_event_enabled m events w name src data pr now He) as (-> & _).
    rewrite !calls_app, emit_signal_calls, run_handlers_calls_other by done. simpl.
    unfold EventManager.handlers_of in Hi |- *.
    destruct (EventManager._event_handlers m !! name) as [hs1|]; simpl in *; [|done].
    destruct (Event.cancelled _); [apply prefix_nil|].
    by eapply run_handlers_disabled.
  - unfold EventManager.emit_event. rewrite He. apply prefix_nil.
Qed.

(** X3. If emit_event has called a handler registered with once=True (its
    call_count changed), the count grew by exactly one and the handler is
    disabled but still in the list. While the manager is then used for
    emit_event calls only, of this or other events and in any number (no handler
    is registered or removed, and no callable calls back into the manager),
    every emit_event of that event stops at this handler: the handlers of the
    event that it calls are a prefix of those listed before it, so the handlers
    after it are not called. *)
Theorem once_handler_ends_dispatch m events w name src data pr now (i : nat) h h' :
  let r := EventManager.emit_event m events w name src data pr now in
  let hs' := EventManager.handlers_of (EventManager.manager r) name in
  EventManager.handlers_of m name !! i = Some h →
  hs' !! i = Some h' →
  EventHandler.once h = true →
  EventHandler.call_count h' ≠ EventHandler.call_count h →
  EventHandler.call_count h' = S (EventHandler.call_count h)
  ∧ EventHandler.callback h' = EventHandler.callback h
  ∧ EventHandler.enabled h' = false
  ∧ ∀ (between : list Emission) events2 w2 src2 data2 pr2 now2,
      let later := emit_all (EventManager.manager r) events2 w2 between in
      calls Specific
        (EventManager.effects
           (EventManager.emit_event later.1.1.1 later.1.1.2 later.1.2 name
              src2 data2 pr2 now2))
      `prefix_of` (handler_id <$> take i hs').
Proof.
  intros r hs' Hi Hi' Honce Hcount.
  destruct (emit_event_handlers m events w name src data pr now i h Hi)
    as (h'' & Hi'' & Hcb & _ & _ & Hcases).
  fold r hs' in Hi''. rewrite Hi' in Hi''. injection Hi'' as <-.
  destruct Hcases as [[? _]|(Hc & _ & Hoff)]; [done|].
  rewrite Honce in Hoff. simpl in Hoff.
  split; [done|]. split; [done|]. split; [done|].
  intros between events2 w2 src2 data2 pr2 now2 later.
  apply (spent_calls _ _ _ _ _ _ _ _ i). apply emit_all_spent. by exists h'.
Qed.
End once.

Lemma once_handler_ends_dispatch_witness :
  let m := register_all EventManager.__init__ "widget_dropped"
             [(quiet_handler 1, EventPriority.HIGH, true);
              (quiet_handler 2, EventPriority.NORMAL, false)] in
  let r := EventManager.emit_event m [] tt "widget_dropped" None None EventPriority.NORMAL 0 in
  let r2 := EventManager.emit_event (EventManager.manager r) (EventManager.store r) tt
              "widget_dropped" None None EventPriority.NORMAL 1 in
  let r3 := EventManager.emit_event (EventManager.manager r2) (EventManager.store r2) tt
              "widget_dropped" None None EventPriority.NORMAL 2 in
  calls Specific (EventManager.effects r) = [1; 2]%nat
  ∧ calls Specific (EventManager.effects r2) = []
  ∧ calls Specific (EventManager.effects r3) = [].
Proof.
  intros m r r2 r3. split; [reflexivity|].
  assert (EventManager.handlers_of m "widget_dropped" !! 0%nat
          = Some (EventHandler.__init__ (quiet_handler 1) EventPriority.HIGH true)) as Hi
    by reflexivity.
  assert (EventManager.handlers_of (EventManager.manager r) "widget_dropped" !! 0%nat
          = Some (EventHandler.mk (quiet_handler 1) EventPriority.HIGH true 1 false)) as Hi'
    by reflexivity.
  destruct (once_handler_ends_dispatch m [] tt "widget_dropped" None None
              EventPriority.NORMAL 0 0 _ _ Hi Hi' eq_refl) as (_ & _ & _ & Hlater).
  { simpl. lia. }
  split; apply prefix_nil_inv.
  - exact (Hlater [] (EventManager.store r) tt None None EventPriority.NORMAL 1).
  - exact (Hlater [{| em_name := "widget_dropped"; em_source := None; em_data := None;
                      em_priority := EventPriority.NORMAL; em_now := 1 |}]
             (EventManager.store r) tt None None EventPriority.NORMAL 2).
Defined.

Section isolation.
Context {World : Type}.
Implicit Types (m : EventManager.t World) (h : EventHandler.t World).
Implicit Types (hs : list (EventHandler.t World)) (fx : list Effect).
Implicit Types (cb : Callback World).







End isolation.



Section emission.
Context {World : Type}.
Implicit Types (m : EventManager.t World) (h : EventHandler.t World).
Implicit Types (hs : list (EventHandler.t World)) (fx : list Effect).
Implicit Types (cb : Callback World).








(** *** Queries of the history *)

(** X6. get_event_history filters by event type only for a non-empty type and
    cuts only for a limit other than 0: limit=0 returns the whole (filtered)
    history, as no limit does; a positive limit n returns the last n entries,
    and a negative limit n drops the first |n| entries. *)
Theorem get_event_history_limit m events (ty : string) (n : Z) :
  let typed := filter (λ e, Event.event_type <$> events !! e = Some ty)
                 (EventManager._event_history m) in
  let all := EventManager._event_history m in
  (ty ≠ EmptyString →
     EventManager.get_event_history m events (Some ty) None = typed
     ∧ EventManager.get_event_history m events (Some ty) (Some 0) = typed
     ∧ (0 < n →
          EventManager.get_event_history m events (Some ty) (Some n)
          = drop (length typed - Z.to_nat n) typed)
     ∧ (n < 0 →
          EventManager.get_event_history m events (Some ty) (Some n)
          = drop (Z.to_nat (- n)) typed))
  ∧ EventManager.get_event_history m events None None = all
  ∧ EventManager.get_event_history m events (Some EmptyString) None = all
  ∧ EventManager.get_event_history m events None (Some 0) = all
  ∧ (0 < n →
       EventManager.get_event_history m events None (Some n)
       = drop (length all - Z.to_nat n) all).
Proof.
  intros typed all.
  assert (∀ (l : list nat), 0 < n →
            (if n =? 0 then l else Py.slice_from (- n) l)
            = drop (length l - Z.to_nat n) l) as Hpos.
  { intros l Hn. destruct (Z.eqb_spec n 0); [lia|].
    unfold Py.slice_from. destruct (Z.ltb_spec (- n) 0); [|lia].
    f_equal. lia. }
  split; [|by repeat split; try apply Hpos].
  intros Hty. unfold EventManager.get_event_history.
  destruct ty as [|a ty]; [done|].
  split; [done|]. split; [done|]. split; [apply Hpos|].
  intros Hn. destruct (Z.eqb_spec n 0); [lia|].
  unfold Py.slice_from. by destruct (Z.ltb_spec (- n) 0); [lia|].
Qed.
End emission.


Lemma get_event_history_limit_witness :
  let m := EventManager.mk (World := unit) ∅ [] [0; 1; 2; 3]%nat 1000 true [] in
  let events := [Event.__init__ "a" None None EventPriority.NORMAL 0;
                 Event.__init__ "b" None None EventPriority.NORMAL 1;
                 Event.__init__ "a" None None EventPriority.NORMAL 2;
                 Event.__init__ "a" None None EventPriority.NORMAL 3] in
  EventManager.get_event_history m events (Some "a") (Some 2) = [2; 3]%nat
  ∧ EventManager.get_event_history m events (Some "a") (Some 0) = [0; 2; 3]%nat
  ∧ EventManager.get_event_history m events (Some "a") (Some (-1)) = [2; 3]%nat.
Proof.
  intros m events.
  destruct (get_event_history_limit m events "a" 2) as [H _].
  destruct H as (_ & H0 & Hpos & _); [discriminate|].
  destruct (get_event_history_limit m events "a" (-1)) as [H _].
  destruct H as (_ & _ & _ & Hneg); [discriminate|].
  split; [rewrite Hpos by lia; reflexivity|].
  split; [rewrite H0; reflexivity|].
  rewrite Hneg by lia. reflexivity.
Defined.

Section counts.
Context {World : Type}.
Implicit Types (m : EventManager.t World) (h : EventHandler.t World).
Implicit Types (hs : list (EventHandler.t World)) (fx : list Effect).
Implicit Types (cb : Callback World).
Implicit Types (handlers : gmap string (list (EventHandler.t World))).

Lemma length_insert_reverse {A : Type} (key : A → Z) x (l : list A) :
  length (Py.insert_reverse key x l) = S (length l).
Proof.
  induction l as [|y l IH]; simpl; [done|].
  destruct (key x <? key y); simpl; by rewrite ?IH.
Qed.

Lemma length_sort_reverse {A : Type} (key : A → Z) (l : list A) :
  length (Py.sort_reverse key l) = length l.
Proof.
  induction l as [|x l IH]; simpl; [done|]. by rewrite length_insert_reverse, IH.
Qed.

(** The sum of [get_handler_count_all] over the event names. *)
Definition total handlers : nat :=
  map_fold (λ (_ : string) hs (n : nat), (length hs + n)%nat) 0%nat handlers.

Lemma total_delete handlers name :
  (total (delete name handlers) + length (default [] (handlers !! name)))%nat
  = total handlers.
Proof.
  unfold total. destruct (handlers !! name) as [hs|] eqn:Hm; simpl.
  - rewrite (map_fold_delete_L _ _ name hs handlers); [lia| |done].
    intros. lia.
  - rewrite delete_id by done. lia.
Qed.

Lemma total_insert handlers name hs :
  (total (<[name := hs]> handlers) + length (default [] (handlers !! name)))%nat
  = (total handlers + length hs)%nat.
Proof.
  rewrite <- (total_delete handlers name).
  rewrite <- (total_delete (<[name := hs]> handlers) name).
  rewrite delete_insert_eq, lookup_insert_eq. simpl. lia.
Qed.

(** X7. For a non-empty event name, get_handler_count(name) grows by one with
    each register_event, counts the handlers of other callables after
    remove_event_handler, and is 0 after remove_all_handlers;
    get_handler_count() grows by one with each registration of a specific or
    global handler, falls by the number of handlers that remove_event_handler or
    remove_all_handlers take out, and is 0 after clear_all_handlers. *)
Theorem handler_count_accounts m name cb p once :
  name ≠ EmptyString →
  EventManager.get_handler_count (EventManager.register_event m name cb p once) name
  = S (EventManager.get_handler_count m name)
  ∧ EventManager.get_handler_count_all (EventManager.register_event m name cb p once)
    = S (EventManager.get_handler_count_all m)
  ∧ EventManager.get_handler_count_all (EventManager.register_global_handler m cb p)
    = S (EventManager.get_handler_count_all m)
  ∧ (EventManager.get_handler_count_all (EventManager.remove_event_handler m name cb)
     + length (filter (λ h, handler_id h = cb_id cb) (EventManager.handlers_of m name)))%nat
    = EventManager.get_handler_count_all m
  ∧ EventManager.get_handler_count (EventManager.remove_event_handler m name cb) name
    = length (filter (λ h, handler_id h ≠ cb_id cb) (EventManager.handlers_of m name))
  ∧ (EventManager.get_handler_count_all (EventManager.remove_all_handlers m name)
     + EventManager.get_handler_count m name)%nat
    = EventManager.get_handler_count_all m
  ∧ EventManager.get_handler_count (EventManager.remove_all_handlers m name) name = 0%nat
  ∧ EventManager.get_handler_count_all (EventManager.clear_all_handlers m) = 0%nat.
Proof.
  intros Hname.
  assert (∀ m', EventManager.get_handler_count m' name
                = length (EventManager.handlers_of m' name)) as Hcount.
  { intros m'. by destruct name. }
  split.
  { rewrite !Hcount. rewrite handlers_of_register_event.
    unfold EventManager.sort_handlers. rewrite length_sort_reverse, length_app. simpl. lia. }
  split.
  { unfold EventManager.get_handler_count_all, EventManager.register_event. simpl.
    fold (total (<[name:=EventManager.sort_handlers
                     (EventManager.handlers_of m name
                      ++ [EventHandler.__init__ cb p once])]>
                   (EventManager._event_handlers m))).
    fold (total (EventManager._event_handlers m)).
    pose proof (total_insert (EventManager._event_handlers m) name
                  (EventManager.sort_handlers
                     (EventManager.handlers_of m name
                      ++ [EventHandler.__init__ cb p once]))) as H.
    unfold EventManager.sort_handlers in H at 2.
    rewrite length_sort_reverse, length_app in H. simpl in H.
    unfold EventManager.handlers_of in H at 2. lia. }
  split.
  { unfold EventManager.get_handler_count_all, EventManager.register_global_handler. simpl.
    unfold EventManager.sort_handlers. rewrite length_sort_reverse, length_app. simpl. lia. }
  split.
  { unfold EventManager.get_handler_count_all, EventManager.remove_event_handler,
      EventManager.handlers_of.
    destruct (EventManager._event_handlers m !! name) as [hs|] eqn:Hm; simpl; [|lia].
    fold (total (EventManager._event_handlers m)).
    assert (length hs
            = (length (filter (λ h, cb_id (EventHandler.callback h) ≠ cb_id cb) hs)
               + length (filter (λ h, handler_id h = cb_id cb) hs))%nat) as Hsplit.
    { clear Hm. unfold handler_id. induction hs as [|h hs IH]; [done|].
      rewrite !filter_cons.
      destruct (decide (cb_id (EventHandler.callback h) = cb_id cb)).
      - rewrite decide_False by tauto. simpl. lia.
      - rewrite decide_True by done. simpl. lia. }
    destruct (filter (λ h, cb_id (EventHandler.callback h) ≠ cb_id cb) hs)
      as [|h' hs'] eqn:Hf.
    - fold (total (delete name (EventManager._event_handlers m))).
      pose proof (total_delete (EventManager._event_handlers m) name) as H.
      rewrite Hm in H. simpl in *. lia.
    - fold (total (<[name := h' :: hs']> (EventManager._event_handlers m))).
      pose proof (total_insert (EventManager._event_handlers m) name (h' :: hs')) as H.
      rewrite Hm in H. simpl in *. lia. }
  split.
  { rewrite Hcount. by rewrite handlers_of_remove_event_handler. }
  split.
  { rewrite Hcount.
    unfold EventManager.get_handler_count_all, EventManager.remove_all_handlers,
      EventManager.handlers_of. simpl.
    fold (total (delete name (EventManager._event_handlers m))).
    fold (total (EventManager._event_handlers m)).
    pose proof (total_delete (EventManager._event_handlers m) name). lia. }
  split.
  { rewrite Hcount.
    unfold EventManager.handlers_of, EventManager.remove_all_handlers. simpl.
    by rewrite lookup_delete_eq. }
  unfold EventManager.get_handler_count_all, EventManager.clear_all_handlers. simpl.
  by rewrite map_fold_empty.
Qed.
End counts.

Lemma handler_count_accounts_witness :
  let m := EventManager.register_global_handler
             (register_all EventManager.__init__ "widget_moved"
                [(quiet_handler 1, EventPriority.NORMAL, false);
                 (quiet_handler 2, EventPriority.HIGH, false)])
             (quiet_handler 3) EventPriority.LOW in
  EventManager.get_handler_count m "widget_moved" = 2%nat
  ∧ EventManager.get_handler_count_all m = 3%nat
  ∧ EventManager.get_handler_count
      (EventManager.register_event m "widget_moved" (quiet_handler 4)
         EventPriority.NORMAL false) "widget_moved" = 3%nat
  ∧ EventManager.get_handler_count_all
      (EventManager.remove_event_handler m "widget_moved" (quiet_handler 1)) = 2%nat
  ∧ EventManager.get_handler_count_all (EventManager.remove_all_handlers m "widget_moved")
    = 1%nat.
Proof.
  intros m.
  destruct (handler_count_accounts m "widget_moved" (quiet_handler 4)
              EventPriority.NORMAL false) as (Hregistered & _); [discriminate|].
  split; [reflexivity|]. split; [by vm_compute|].
  split; [exact Hregistered|]. split; by vm_compute.
Defined.

(** ** The drag controller, continued *)

Section snap_nearest.

(** [round(x / g)] is an integer nearest to the exact quotient: the float
    division is off by a relative 2^-53, which a 32-bit [x] cannot turn
    into another multiple of [g]. *)
Lemma round_truediv_nearest (x g : Z) :
  g ≠ 0 → Z.abs x ≤ 2 ^ 31 →
  2 * Z.abs (Py.round (Py.float (inject_Z x / inject_Z g)) * g - x) ≤ Z.abs g.
Proof.
  intros Hg Hx.
  set (q := (inject_Z x / inject_Z g)%Q).
  set (k := Py.round (Py.float q)).
  pose proof (round_near (Py.float q)) as Hr. fold k in Hr.
  pose proof (float_error q) as Hf.
  assert (¬ (inject_Z g == 0)%Q) as Hg'.
  { change 0%Q with (inject_Z 0). rewrite inject_Z_injective. done. }
  assert (inject_Z (k * g - x) == (inject_Z k - q) * inject_Z g)%Q as Heq.
  { unfold Z.sub. rewrite inject_Z_plus, inject_Z_opp, inject_Z_mult.
    unfold q. field. done. }
  assert (Qabs q * Qabs (inject_Z g) == Qabs (inject_Z x))%Q as Hqx.
  { rewrite <- Qabs_Qmult. apply Qabs_wd. unfold q. field. done. }
  assert (Qabs (inject_Z k - q) <= (1 # 2) + Qabs q * ulp53)%Q as Hd.
  { assert (inject_Z k - q == (inject_Z k - Py.float q) + (Py.float q - q))%Q as ->
      by ring.
    eapply Qle_trans; [apply Qabs_triangle|].
    apply Qplus_le_compat; done. }
  assert (Qabs (inject_Z (k * g - x))
          <= (1 # 2) * Qabs (inject_Z g) + Qabs (inject_Z x) * ulp53)%Q as Hb.
  { rewrite Heq, Qabs_Qmult.
    eapply Qle_trans.
    { apply Qmult_le_compat_r; [exact Hd|apply Qabs_nonneg]. }
    rewrite <- Hqx. apply Qle_lteq. right. ring. }
  assert (Qabs (inject_Z x) * ulp53 < 1 # 2)%Q as Hsmall.
  { change (Qabs (inject_Z x)) with (inject_Z (Z.abs x)).
    assert (inject_Z (Z.abs x) <= inject_Z (2 ^ 31))%Q as H by (by rewrite <- Zle_Qle).
    change (inject_Z (2 ^ 31)) with (2147483648 # 1)%Q in H.
    unfold ulp53. change (1 # 2 ^ 53)%Q with (1 # 9007199254740992)%Q.
    lra. }
  change (Qabs (inject_Z (k * g - x))) with (inject_Z (Z.abs (k * g - x))) in Hb.
  change (Qabs (inject_Z g)) with (inject_Z (Z.abs g)) in Hb.
  assert (inject_Z (2 * Z.abs (k * g - x)) < inject_Z (Z.abs g + 1))%Q as Hlt.
  { rewrite inject_Z_mult, inject_Z_plus.
    change (inject_Z 2) with 2%Q. change (inject_Z 1) with 1%Q. lra. }
  rewrite <- Zlt_Qlt in Hlt. lia.
Qed.

Lemma nearest_multiple_fixed (k g x : Z) :
  g ≠ 0 → x mod g = 0 → 2 * Z.abs (k * g - x) ≤ Z.abs g → k * g = x.
Proof.
  intros Hg Hmod Hnear.
  pose proof (Z_div_mod_eq_full x g) as Hx. rewrite Hmod, Z.add_0_r in Hx.
  set (j := x / g) in *. rewrite Hx in Hnear |- *.
  assert (k = j) as -> by nia. lia.
Qed.

Lemma fits_abs (v : Z) : CInt.fits v = true → Z.abs v ≤ 2 ^ 31.
Proof. unfold CInt.fits. rewrite andb_true_iff, !Z.leb_le. lia. Qed.

Lemma abs_fits (v : Z) : Z.abs v ≤ 2 ^ 31 - 1 → CInt.fits v = true.
Proof. intros H. unfold CInt.fits. rewrite andb_true_iff, !Z.leb_le. lia. Qed.

(** X8. For a grid size g other than 0 and a QPoint (coordinates that are C
    ints), DraggableWidget._snap_to_grid and DropZone._snap_to_grid behave
    alike: they compute, per axis, a multiple of g at most |g|/2 away from the
    coordinate, the coordinate itself if it is a multiple of g; if both values
    are C ints they return that point, and otherwise QPoint(x, y) raises
    OverflowError. No OverflowError is raised when the point is on the grid or
    |coordinate| + |g| <= 2^31 - 1 on both axes. *)
Theorem snap_to_grid_nearest (w : DraggableWidget.t) (z : DropZone.t) (g : Z) (p : QPoint.t) :
  g ≠ 0 →
  DraggableWidget.grid_size w = g →
  DropZone.grid_size z = g →
  fits_point p = true →
  ∃ q, aligned g q
       ∧ 2 * Z.abs (QPoint.x q - QPoint.x p) ≤ Z.abs g
       ∧ 2 * Z.abs (QPoint.y q - QPoint.y p) ≤ Z.abs g
       ∧ (aligned g p → q = p)
       ∧ DraggableWidget._snap_to_grid w p
         = (if fits_point q then inr q else inl OverflowError)
       ∧ DropZone._snap_to_grid z p = DraggableWidget._snap_to_grid w p
       ∧ (aligned g p
          ∨ Z.abs (QPoint.x p) + Z.abs g ≤ 2 ^ 31 - 1
            ∧ Z.abs (QPoint.y p) + Z.abs g ≤ 2 ^ 31 - 1 →
          fits_point q = true).
Proof.
  intros Hg Hw Hz Hp. exists (quantize g p).
  pose proof Hp as [Hx%fits_abs Hy%fits_abs]%andb_true_iff.
  pose proof (round_truediv_nearest (QPoint.x p) g Hg Hx) as Hnx.
  pose proof (round_truediv_nearest (QPoint.y p) g Hg Hy) as Hny.
  assert (aligned g p → quantize g p = p) as Hfix.
  { intros [Hax Hay]. destruct p as [x y]. unfold quantize. simpl in *.
    f_equal; by apply nearest_multiple_fixed. }
  assert (DraggableWidget._snap_to_grid w p
          = if fits_point (quantize g p) then inr (quantize g p) else inl OverflowError)
    as Hsnap.
  { rewrite <- Hw. apply _snap_to_grid_quantize. by rewrite Hw. }
  split; [apply quantize_aligned|]. split; [exact Hnx|]. split; [exact Hny|].
  split; [exact Hfix|]. split; [exact Hsnap|]. split.
  { rewrite Hsnap. unfold DropZone._snap_to_grid, Py.truediv. rewrite Hz.
    by destruct (Z.eqb_spec g 0). }
  intros [Hal|[Hbx Hby]].
  - by rewrite (Hfix Hal).
  - unfold fits_point. apply andb_true_iff.
    split; apply abs_fits; cbn [quantize QPoint.x QPoint.y] in *; lia.
Qed.
End snap_nearest.

Lemma snap_to_grid_nearest_witness :
  let w := DraggableWidget.set_snap_to_grid (DraggableWidget.__init__ 1 "btn1" 80 30) true 20 in
  let w4 := DraggableWidget.set_snap_to_grid (DraggableWidget.__init__ 1 "btn1" 80 30) true 4 in
  DraggableWidget._snap_to_grid w (QPoint.mk 117 (-31)) = inr (QPoint.mk 120 (-40))
  ∧ DropZone._snap_to_grid DropZone.__init__ (QPoint.mk 117 (-31))
    = inr (QPoint.mk 120 (-40))
  ∧ DraggableWidget._snap_to_grid w (QPoint.mk 10 30) = inr (QPoint.mk 0 40)
  ∧ DraggableWidget._snap_to_grid w4 (QPoint.mk 2147483647 0) = inl OverflowError
  ∧ DropZone._snap_to_grid (DropZone.set_grid_size DropZone.__init__ 4)
      (QPoint.mk 2147483647 0)
    = inl OverflowError.
Proof.
  intros w w4.
  destruct (snap_to_grid_nearest w DropZone.__init__ 20 (QPoint.mk 117 (-31)))
    as (q & _ & _ & _ & _ & Hw & Hz & _); [done|reflexivity|reflexivity|reflexivity|].
  destruct (snap_to_grid_nearest w4 (DropZone.set_grid_size DropZone.__init__ 4) 4
              (QPoint.mk 2147483647 0))
    as (q4 & _ & _ & _ & _ & Hw4 & Hz4 & _); [done|reflexivity|reflexivity|reflexivity|].
  split; [by vm_compute|]. split; [rewrite Hz; by vm_compute|].
  split; [by vm_compute|]. split; [by vm_compute|].
  rewrite Hz4. by vm_compute.
Defined.

Section wrap_facts.

Lemma wrap_mod (a : Z) : CInt.wrap a `mod` 2 ^ 32 = a `mod` 2 ^ 32.
Proof.
  unfold CInt.wrap.
  rewrite <- (Z.add_0_r (a `mod` 2 ^ 32)).
  replace 0 with ((2 ^ 31 - 2 ^ 31) `mod` 2 ^ 32) at 2 by reflexivity.
  rewrite Zminus_mod_idemp_l.
  replace (a + 2 ^ 31 - 2 ^ 31) with a by lia.
  by rewrite Z.add_0_r.
Qed.

Lemma wrap_congruent (a b : Z) : a `mod` 2 ^ 32 = b `mod` 2 ^ 32 → CInt.wrap a = CInt.wrap b.
Proof.
  intros H. unfold CInt.wrap. f_equal.
  rewrite (Z.add_mod a), (Z.add_mod b), H by done. done.
Qed.

Lemma wrap_fits (a : Z) : CInt.fits a = true → CInt.wrap a = a.
Proof.
  unfold CInt.fits, CInt.wrap. rewrite andb_true_iff, !Z.leb_le. intros [Hl Hu].
  rewrite Z.mod_small; lia.
Qed.

Lemma fits_wrap (a : Z) : CInt.fits (CInt.wrap a) = true.
Proof.
  unfold CInt.fits, CInt.wrap. rewrite andb_true_iff, !Z.leb_le.
  pose proof (Z.mod_pos_bound (a + 2 ^ 31) (2 ^ 32)). lia.
Qed.

(** Equations between wrapped sums: both sides are congruent modulo 2^32. *)
Lemma wrap_add_l (a b : Z) : CInt.wrap (CInt.wrap a + b) = CInt.wrap (a + b).
Proof. apply wrap_congruent. by rewrite Z.add_mod, wrap_mod, <- Z.add_mod. Qed.

Lemma wrap_add_r (a b : Z) : CInt.wrap (a + CInt.wrap b) = CInt.wrap (a + b).
Proof. by rewrite Z.add_comm, wrap_add_l, Z.add_comm. Qed.

Lemma wrap_sub_l (a b : Z) : CInt.wrap (CInt.wrap a - b) = CInt.wrap (a - b).
Proof. apply (wrap_add_l a (- b)). Qed.

Lemma wrap_sub_r (a b : Z) : CInt.wrap (a - CInt.wrap b) = CInt.wrap (a - b).
Proof.
  apply wrap_congruent. by rewrite Zminus_mod, wrap_mod, <- Zminus_mod.
Qed.
End wrap_facts.

Section drag_more.
Import DraggableWidget.
Implicit Types (w : DraggableWidget.t) (event : QMouseEvent.t).

Ltac unwrap :=
  rewrite ?wrap_add_l, ?wrap_add_r, ?wrap_sub_l, ?wrap_sub_r.

(** The pointer at [P], in the coordinates of the parent, with the left
    button held, as the widget gets to see it: Qt reports the position in
    the coordinates of the widget where it is at that time. *)
Definition pointer_at w (P : QPoint.t) : QMouseEvent.t :=
  QMouseEvent.mk LeftButton [LeftButton] (QPoint.sub P (pos w)).

(** The point of the parent under [drag_start_position]. *)
Definition grabbed w : QPoint.t := WidgetBase.mapToParent (base w) (drag_start_position w).

(** A move beyond the threshold without snapping. *)
Lemma mouseMoveEvent_far w event :
  WidgetBase.is_draggable (base w) = true →
  snap_to_grid w = false →
  LeftButton ∈ QMouseEvent.buttons event →
  drag_threshold w ≤ distance_from_press w event →
  mouseMoveEvent w event
  = {| widget := move (set_is_dragging w true) (candidate w event);
       signals := (if is_dragging w then [] else [drag_started (oid w)])
                  ++ [widget_moved (oid w) (candidate w event)];
       raised := None |}.
Proof.
  intros Hd Hs Hleft Hfar. unfold mouseMoveEvent.
  fold (distance_from_press w event). fold (candidate w event).
  rewrite bool_decide_true, Hd by done. cbn [negb orb].
  destruct (Z.ltb_spec (distance_from_press w event) (drag_threshold w)); [lia|].
  destruct w as [b start dragging orig thr snap g anim]. cbn in Hs. subst snap.
  by destruct dragging.
Qed.

(** X9. For a draggable widget without snapping and a pointer position that is a
    QPoint of the parent: a left press makes the point under the pointer the
    grabbed point; a move with the left button held does nothing while the
    pointer is less than drag_threshold (Manhattan length) from the grabbed
    point, and otherwise moves the widget by the offset, so that the grabbed
    point is under the pointer again, emitting drag_started (unless a drag is
    on) and widget_moved: the widget follows the pointer in steps of at least
    the threshold. All sums and differences are Qt's, on C ints with
    wrap-around: any handled move puts the widget at pos + (event.pos -
    drag_start_position) computed that way, and raises nothing. *)
Theorem drag_follows_in_steps w (P : QPoint.t) :
  WidgetBase.is_draggable (base w) = true →
  snap_to_grid w = false →
  fits_point P = true →
  let step := QPoint.sub P (grabbed w) in
  let h := mouseMoveEvent w (pointer_at w P) in
  grabbed (widget (mousePressEvent w (pointer_at w P))) = P
  ∧ (QPoint.manhattanLength step < drag_threshold w → h = unhandled w)
  ∧ (drag_threshold w ≤ QPoint.manhattanLength step →
       pos (widget h) = QPoint.add (pos w) step
       ∧ grabbed (widget h) = P
       ∧ is_dragging (widget h) = true
       ∧ raised h = None
       ∧ signals h
         = (if is_dragging w then [] else [drag_started (oid w)])
           ++ [widget_moved (oid w) (QPoint.add (pos w) step)])
  ∧ ∀ event,
      LeftButton ∈ QMouseEvent.buttons event →
      drag_threshold w ≤ distance_from_press w event →
      let h := mouseMoveEvent w event in
      raised h = None
      ∧ pos (widget h)
        = QPoint.add (pos w) (QPoint.sub (QMouseEvent.pos event) (drag_start_position w)).
Proof.
  intros Hd Hs HP step h.
  apply andb_true_iff in HP as [HPx%wrap_fits HPy%wrap_fits].
  assert (QPoint.sub (QPoint.sub P (pos w)) (drag_start_position w) = step) as Hstep.
  { unfold step, grabbed, WidgetBase.mapToParent, QPoint.sub, QPoint.add, pos.
    cbn [QPoint.x QPoint.y]. unwrap. f_equal; f_equal; lia. }
  assert (distance_from_press w (pointer_at w P) = QPoint.manhattanLength step) as Hdist.
  { unfold distance_from_press, pointer_at. cbn [QMouseEvent.pos]. by rewrite Hstep. }
  assert (∀ q, WidgetBase.mapToParent (base w) q = QPoint.add (pos w) q) as Hmap.
  { intros q. unfold WidgetBase.mapToParent, QPoint.add, pos. f_equal; f_equal; lia. }
  assert (candidate w (pointer_at w P) = QPoint.add (pos w) step) as Hcand.
  { unfold candidate, pointer_at. cbn [QMouseEvent.pos]. by rewrite Hstep, Hmap. }
  split.
  { unfold mousePressEvent, pointer_at. cbn [QMouseEvent.button QMouseEvent.pos].
    rewrite bool_decide_true, Hd by done. cbn [andb].
    unfold WidgetBase.mousePressEvent, WidgetBase.set_selected.
    destruct P as [x y]. cbn [QPoint.x QPoint.y] in HPx, HPy.
    destruct (bool_decide _); cbn; unfold grabbed, WidgetBase.mapToParent, QPoint.add,
      QPoint.sub, pos; cbn; unwrap;
      (replace (x - QPoint.x (WidgetBase.pos (base w)) + QPoint.x (WidgetBase.pos (base w)))
         with x by lia);
      (replace (y - QPoint.y (WidgetBase.pos (base w)) + QPoint.y (WidgetBase.pos (base w)))
         with y by lia);
      by rewrite HPx, HPy. }
  split.
  { intros Hlt. apply mouseMoveEvent_below_threshold. by rewrite Hdist. }
  split.
  { intros Hge. unfold h.
    rewrite mouseMoveEvent_far; [|done|done|by left|by rewrite Hdist].
    rewrite Hcand. cbn [widget signals raised].
    split; [done|]. split; [|done].
    unfold grabbed, WidgetBase.mapToParent, step, grabbed, WidgetBase.mapToParent,
      QPoint.add, QPoint.sub, pos. cbn. unwrap.
    destruct P as [x y]. cbn [QPoint.x QPoint.y] in *. f_equal.
    - rewrite Z.add_assoc, wrap_add_r. etransitivity; [|exact HPx]. f_equal. lia.
    - rewrite Z.add_assoc, wrap_add_r. etransitivity; [|exact HPy]. f_equal. lia. }
  intros event Hleft Hfar h'. unfold h'.
  rewrite mouseMoveEvent_far by done. cbn [widget signals raised].
  split; [done|]. unfold candidate. by rewrite Hmap.
Qed.

(** X10. With snap to grid on and grid_size 0, a move of a draggable widget
    beyond the threshold raises ZeroDivisionError after is_dragging is set and
    drag_started is emitted (if no drag was on), and before the widget moves or
    widget_moved is emitted; the next left release ends the drag without an
    exception, emitting drag_finished with the unchanged position if that is
    valid, and putting the widget back at original_position otherwise. *)
Theorem zero_grid_drag_raises w event :
  WidgetBase.is_draggable (base w) = true →
  LeftButton ∈ QMouseEvent.buttons event →
  drag_threshold w ≤ distance_from_press w event →
  snap_to_grid w = true →
  grid_size w = 0 →
  let h := mouseMoveEvent w event in
  raised h = Some ZeroDivisionError
  ∧ pos (widget h) = pos w
  ∧ is_dragging (widget h) = true
  ∧ signals h = (if is_dragging w then [] else [drag_started (oid w)])
  ∧ ∀ release,
      QMouseEvent.button release = LeftButton →
      let h' := mouseReleaseEvent (widget h) release in
      is_dragging (widget h') = false
      ∧ raised h' = None
      ∧ (if _is_valid_position w (pos w)
         then signals h' = [drag_finished (oid w) (pos w)] ∧ pos (widget h') = pos w
         else signals h' = [] ∧ pos (widget h') = original_position w).
Proof.
  intros Hd Hb Hdist Hs Hg h.
  assert (h = {| widget := set_is_dragging w true;
                 signals := if is_dragging w then [] else [drag_started (oid w)];
                 raised := Some ZeroDivisionError |}) as ->.
  { unfold h, mouseMoveEvent. fold (distance_from_press w event).
    rewrite bool_decide_true, Hd by done. simpl.
    destruct (Z.ltb_spec (distance_from_press w event) (drag_threshold w)); [lia|].
    destruct (is_dragging w) eqn:Hdrag; simpl; rewrite Hs; unfold _snap_to_grid, Py.truediv;
      simpl; rewrite Hg; simpl; [|done].
    by destruct w; simpl in *; subst. }
  cbn [widget signals raised]. split; [done|]. split; [done|]. split; [done|]. split; [done|].
  intros release Hr.
  destruct (mouseReleaseEvent_dragging (set_is_dragging w true) release eq_refl Hr)
    as (Hraised & Hdrag & _ & Hrel).
  split; [done|]. split; [done|]. exact Hrel.
Qed.

(** *** The order of the drag signals *)

Definition is_started (s : Signal) : bool :=
  match s with drag_started _ => true | _ => false end.
Definition is_finished (s : Signal) : bool :=
  match s with drag_finished _ _ => true | _ => false end.

Definition occurrences (f : Signal → bool) (log : list Signal) : nat :=
  length (filter (λ s, f s = true) log).

Lemma occurrences_app f (log log' : list Signal) :
  occurrences f (log ++ log') = (occurrences f log + occurrences f log')%nat.
Proof. unfold occurrences. by rewrite filter_app, length_app. Qed.

Definition dragging w : nat := if is_dragging w then 1%nat else 0%nat.

Lemma handle_drag_signals w (p : Pointer) :
  let h := handle w p in
  (occurrences is_finished (signals h) + dragging (widget h)
   ≤ occurrences is_started (signals h) + dragging w)%nat
  ∧ (occurrences is_started (signals h) + dragging w ≤ 1)%nat.
Proof.
  destruct p as [event|event|event]; simpl.
  - unfold mousePressEvent, WidgetBase.mousePressEvent, WidgetBase.set_selected, dragging.
    destruct (bool_decide (QMouseEvent.button event = LeftButton)
              && WidgetBase.is_draggable (base w));
      simpl; destruct (bool_decide _); simpl;
      destruct (is_dragging w); simpl; try destruct (WidgetBase.is_selected _); simpl;
      unfold occurrences; simpl; lia.
  - unfold mouseMoveEvent, dragging.
    destruct (_ || _).
    { simpl. destruct (is_dragging w); unfold occurrences; simpl; lia. }
    destruct (_ <? _).
    { simpl. destruct (is_dragging w); unfold occurrences; simpl; lia. }
    destruct (is_dragging w) eqn:Hd; simpl;
      destruct (if snap_to_grid w then _ else _); simpl; unfold occurrences; simpl;
      rewrite ?Hd; lia.
  - unfold mouseReleaseEvent, dragging.
    destruct (is_dragging w) eqn:Hd; simpl; [|unfold occurrences; simpl; rewrite ?Hd; lia].
    destruct (bool_decide _); simpl; [|unfold occurrences; simpl; rewrite Hd; lia].
    destruct (_is_valid_position _ _); simpl; unfold occurrences; simpl; lia.
Qed.

(** X11. Over any sequence of press, move and release events on a widget, the
    number of drag_finished signals plus a drag still on at the end is at most
    the number of drag_started signals plus a drag that was on at the start:
    drag_finished is only emitted for a drag that was started. *)
Theorem drag_finished_follows_started w (ps : list Pointer) :
  let r := run w ps in
  (occurrences is_finished (emitted r) + dragging (final r)
   ≤ occurrences is_started (emitted r) + dragging w)%nat.
Proof.
  revert w. induction ps as [|p ps IH]; intros w; simpl; [lia|].
  rewrite !occurrences_app.
  pose proof (handle_drag_signals w p) as [H _]. simpl in H.
  specialize (IH (widget (handle w p))). simpl in IH. lia.
Qed.
End drag_more.

(** *** The drag controller, continued, on the scenarios *)

(** The second widget is at (2147483000, 0): a move by (1000, 0) takes it
    to x = -2147483296, since Qt adds in C [int]s. *)
Lemma drag_follows_in_steps_witness :
  let press := QMouseEvent.mk LeftButton [LeftButton] (QPoint.mk 10 10) in
  let w := DraggableWidget.widget
             (DraggableWidget.mousePressEvent
                (DraggableWidget.move (DraggableWidget.__init__ 1 "btn1" 80 30)
                   (QPoint.mk 100 100))
                press) in
  let h := DraggableWidget.mouseMoveEvent w (pointer_at w (QPoint.mk 117 107)) in
  let far := DraggableWidget.widget
               (DraggableWidget.mousePressEvent
                  (DraggableWidget.move (DraggableWidget.__init__ 2 "btn2" 80 30)
                     (QPoint.mk 2147483000 0))
                  press) in
  let h' := DraggableWidget.mouseMoveEvent far
              (QMouseEvent.mk LeftButton [LeftButton] (QPoint.mk 1010 10)) in
  grabbed w = QPoint.mk 110 110
  ∧ DraggableWidget.pos (DraggableWidget.widget h) = QPoint.mk 107 97
  ∧ grabbed (DraggableWidget.widget h) = QPoint.mk 117 107
  ∧ DraggableWidget.mouseMoveEvent w (pointer_at w (QPoint.mk 112 109)) = unhandled w
  ∧ DraggableWidget.pos (DraggableWidget.widget h') = QPoint.mk (-2147483296) 0.
Proof.
  intros press w h far h'.
  destruct (drag_follows_in_steps w (QPoint.mk 117 107) eq_refl eq_refl eq_refl)
    as (_ & _ & Hfar & _).
  destruct (drag_follows_in_steps w (QPoint.mk 112 109) eq_refl eq_refl eq_refl)
    as (_ & Hnear & _).
  destruct (drag_follows_in_steps far (QPoint.mk 0 0) eq_refl eq_refl eq_refl)
    as (_ & _ & _ & Hany).
  split; [reflexivity|].
  destruct Hfar as (Hpos & Hgrab & _); [vm_compute; discriminate|].
  split; [exact Hpos|]. split; [exact Hgrab|].
  split; [apply Hnear; reflexivity|].
  destruct (Hany (QMouseEvent.mk LeftButton [LeftButton] (QPoint.mk 1010 10)))
    as [_ Hwrapped]; [by left|vm_compute; discriminate|].
  exact Hwrapped.
Defined.

Lemma zero_grid_drag_raises_witness :
  let w := DraggableWidget.widget
             (DraggableWidget.mousePressEvent
                (DraggableWidget.set_snap_to_grid
                   (DraggableWidget.__init__ 1 "btn1" 80 30) true 0)
                (QMouseEvent.mk LeftButton [LeftButton] (QPoint.mk 10 10))) in
  let h := DraggableWidget.mouseMoveEvent w
             (QMouseEvent.mk LeftButton [LeftButton] (QPoint.mk 27 7)) in
  DraggableWidget.raised h = Some ZeroDivisionError
  ∧ DraggableWidget.pos (DraggableWidget.widget h) = QPoint.mk 0 0
  ∧ DraggableWidget.signals h = [drag_started 1].
Proof.
  intros w h.
  destruct (zero_grid_drag_raises w
              (QMouseEvent.mk LeftButton [LeftButton] (QPoint.mk 27 7)))
    as (Hraised & Hpos & _ & Hsignals & _).
  - reflexivity.
  - apply list_elem_of_singleton. reflexivity.
  - vm_compute. discriminate.
  - reflexivity.
  - reflexivity.
  - split; [exact Hraised|]. split; [exact Hpos | exact Hsignals].
Defined.

(** ** The drop surface, continued *)

Section removal.
Import DropZone.
Implicit Types (z : DropZone.t) (widget w : Widget) (ws : list Widget).

Lemma remove_object_filter ws (o : nat) :
  NoDup (Widget.oid <$> ws) →
  remove_object o ws = filter (λ w, Widget.oid w ≠ o) ws.
Proof.
  induction ws as [|w ws IH]; intros Hnd; [done|].
  rewrite fmap_cons in Hnd. apply NoDup_cons in Hnd as [Hw Hnd].
  simpl. rewrite filter_cons. destruct (decide (Widget.oid w = o)) as [<-|Hne].
  - rewrite decide_False by tauto. symmetry. apply filter_all.
    intros w' Hw' Heq. apply Hw. rewrite <- Heq. by apply list_elem_of_fmap_2.
  - rewrite decide_True by done. f_equal. by apply IH.
Qed.

Lemma remove_filter (l : list nat) (o : nat) :
  NoDup l → Py.remove o l = filter (λ o', o' ≠ o) l.
Proof.
  induction l as [|a l IH]; intros Hnd; [done|].
  apply NoDup_cons in Hnd as [Ha Hnd].
  simpl. rewrite filter_cons. destruct (decide (a = o)) as [->|Hne].
  - rewrite decide_False by tauto. symmetry. apply filter_all. intros o' Ho' ->. done.
  - rewrite decide_True by done. f_equal. by apply IH.
Qed.

(** In a zone that holds every object once and every id once, the id names
    the object. *)
Lemma same_id_same_oid ws w w' :
  NoDup (Widget.widget_id <$> ws) → w ∈ ws → w' ∈ ws →
  Widget.widget_id w = Widget.widget_id w' → w = w'.
Proof.
  intros Hnd Hw Hw' Heq.
  apply list_elem_of_lookup in Hw as [i Hi]. apply list_elem_of_lookup in Hw' as [j Hj].
  assert (i = j) as ->.
  { eapply NoDup_lookup; [exact Hnd| |]; rewrite list_lookup_fmap.
    - by rewrite Hi.
    - rewrite Hj. simpl. by rewrite Heq. }
  congruence.
Qed.

(** X12. In a zone that holds every widget object once, with distinct widget ids
    and no duplicate in the selection, remove_widget(id) leaves exactly the
    widgets with another id, in their order, takes the removed widget out of the
    selection and emits widget_removed(id) and layout_changed; when no widget
    has the id, the zone is unchanged and nothing is emitted. Grid, drop and
    layout settings are never changed. *)
Theorem remove_widget_removes z (widget_id : string) :
  NoDup (Widget.oid <$> widgets z) →
  NoDup (Widget.widget_id <$> widgets z) →
  NoDup (selected_widgets z) →
  let r := remove_widget z widget_id in
  widgets r.1 = filter (λ w, Widget.widget_id w ≠ widget_id) (widgets z)
  ∧ (∀ w, w ∈ widgets z → Widget.widget_id w = widget_id →
       selected_widgets r.1 = filter (λ o, o ≠ Widget.oid w) (selected_widgets z)
       ∧ r.2 = [widget_removed widget_id; layout_changed])
  ∧ (Forall (λ w, Widget.widget_id w ≠ widget_id) (widgets z) → r = (z, []))
  ∧ (show_grid r.1, grid_size r.1, is_drop_target r.1, layout_mode r.1, width r.1, height r.1)
    = (show_grid z, grid_size z, is_drop_target z, layout_mode z, width z, height z).
Proof.
  intros Hoid Hid Hsel r. unfold r, remove_widget.
  destruct (list_find _ (widgets z)) as [[i w]|] eqn:Hfind.
  - apply list_find_Some in Hfind as (Hi & Hw & Hfirst). simpl.
    assert (w ∈ widgets z) as Hin by (by eapply list_elem_of_lookup_2).
    assert (∀ w', w' ∈ widgets z → Widget.widget_id w' = widget_id → w' = w) as Huniq.
    { intros w' Hw' Heq. eapply same_id_same_oid; try done. congruence. }
    split.
    { rewrite remove_object_filter by done. apply filter_ext_in.
      intros w' Hw'. split.
      - intros Hne Heq. apply Hne. by rewrite (Huniq w' Hw' Heq).
      - intros Hne Heq. apply Hne. subst widget_id.
        assert (w' = w) as ->; [|done].
        apply list_elem_of_lookup in Hw' as [j Hj].
        assert (i = j) as ->; [|congruence].
        eapply NoDup_lookup; [exact Hoid| |]; rewrite list_lookup_fmap.
        + by rewrite Hi.
        + rewrite Hj. simpl. by rewrite Heq. }
    split.
    { intros w' Hw' Heq. rewrite (Huniq w' Hw' Heq). split; [|done].
      case_bool_decide as Hs; [by apply remove_filter|].
      symmetry. apply filter_all. intros o Ho ->. done. }
    split; [|done].
    intros Hall. rewrite Forall_forall in Hall. by destruct (Hall w Hin).
  - apply list_find_None in Hfind. simpl.
    split; [symmetry; apply filter_all; by apply Forall_forall|].
    split; [|done].
    intros w Hw Heq. rewrite Forall_forall in Hfind. by destruct (Hfind w Hw).
Qed.

(** X13. Adding a widget that is new to the zone (as an object and by its id,
    and not listed as selected) and then removing it by its id gives back the
    zone exactly as it was before, and the removal emits widget_removed and
    layout_changed. *)
Theorem add_then_remove_restores z widget (position : option QPoint.t) :
  Widget.oid widget ∉ Widget.oid <$> widgets z →
  Widget.widget_id widget ∉ Widget.widget_id <$> widgets z →
  Widget.oid widget ∉ selected_widgets z →
  remove_widget (add_widget z widget position).1 (Widget.widget_id widget)
  = (z, [widget_removed (Widget.widget_id widget); layout_changed]).
Proof.
  intros Hoid Hid Hsel. unfold add_widget. rewrite bool_decide_true by done.
  set (placed := Widget.show _). cbn [fst].
  assert (Widget.oid placed = Widget.oid widget ∧ Widget.widget_id placed = Widget.widget_id widget)
    as [Ho Hi].
  { unfold placed. destruct position as [p|]; [destruct (truthy (Some p))|];
      by destruct widget. }
  unfold remove_widget. cbn [widgets selected_widgets].
  assert (list_find (λ w, Widget.widget_id w = Widget.widget_id widget) (widgets z ++ [placed])
          = Some (length (widgets z), placed)) as ->.
  { apply list_find_Some. split; [by rewrite lookup_app_r, Nat.sub_diag|].
    split; [done|]. intros j w Hj Hlt Heq.
    rewrite lookup_app_l in Hj by done. apply Hid. rewrite <- Heq.
    apply list_elem_of_fmap_2. by eapply list_elem_of_lookup_2. }
  rewrite Ho, bool_decide_false by done. f_equal. clearbody placed.
  destruct z as [ws sel sg g dt lm wd ht]. simpl in *. f_equal.
  clear -Hoid Ho. induction ws as [|w ws IH]; simpl.
  - by rewrite decide_True.
  - rewrite fmap_cons, not_elem_of_cons in Hoid. destruct Hoid as [Hne Hoid].
    rewrite decide_False by done. f_equal. by apply IH.
Qed.
End removal.

Lemma remove_widget_removes_witness :
  let a := Plain (WidgetBase.__init__ 1 "a" 80 30) in
  let b := Draggable (DraggableWidget.__init__ 2 "b" 80 30) in
  let z := (DropZone.add_widget (DropZone.add_widget DropZone.__init__ a None).1 b None).1 in
  Widget.widget_id <$> DropZone.widgets (DropZone.remove_widget z "a").1 = ["b"]
  ∧ DropZone.remove_widget z "c" = (z, []).
Proof.
  intros a b z.
  assert (NoDup (Widget.oid <$> DropZone.widgets z)) as Hoid.
  { apply NoDup_cons_2; [|apply NoDup_singleton].
    intros H%list_elem_of_singleton. discriminate H. }
  assert (NoDup (Widget.widget_id <$> DropZone.widgets z)) as Hid.
  { apply NoDup_cons_2; [|apply NoDup_singleton].
    intros H%list_elem_of_singleton. discriminate H. }
  destruct (remove_widget_removes z "a" Hoid Hid (NoDup_nil_2)) as (Hws & _).
  destruct (remove_widget_removes z "c" Hoid Hid (NoDup_nil_2)) as (_ & _ & Hnone & _).
  split; [rewrite Hws; reflexivity|].
  apply Hnone. repeat constructor; discriminate.
Defined.

Lemma add_then_remove_restores_witness :
  let a := Plain (WidgetBase.__init__ 1 "a" 80 30) in
  let b := Draggable (DraggableWidget.__init__ 2 "b" 80 30) in
  let z := (DropZone.add_widget DropZone.__init__ a None).1 in
  DropZone.remove_widget (DropZone.add_widget z b (Some (QPoint.mk 200 100))).1 "b"
  = (z, [widget_removed "b"; layout_changed]).
Proof.
  intros a b z.
  apply (add_then_remove_restores z b (Some (QPoint.mk 200 100))).
  - intros H%list_elem_of_singleton. discriminate H.
  - intros H%list_elem_of_singleton. discriminate H.
  - apply not_elem_of_nil.
Defined.

Section selection.
Import DropZone.
Implicit Types (z : DropZone.t) (widget w : Widget) (ws : list Widget) (o : nat).

(** [w.set_selected(True)], for its effect on the widget. *)
Definition select w : Widget := (Widget.set_selected w true).1.

Lemma oid_deselect w : Widget.oid (deselect w) = Widget.oid w.
Proof.
  unfold deselect, Widget.set_selected, WidgetBase.set_selected.
  destruct w as [b|d]; simpl; case_bool_decide; done.
Qed.

Lemma oid_select w : Widget.oid (select w) = Widget.oid w.
Proof.
  unfold select, Widget.set_selected, WidgetBase.set_selected.
  destruct w as [b|d]; simpl; case_bool_decide; done.
Qed.

Lemma is_selected_deselect w : Widget.is_selected (deselect w) = false.
Proof.
  unfold deselect, Widget.set_selected, WidgetBase.set_selected, Widget.is_selected.
  destruct w as [b|d]; simpl; case_bool_decide as H; simpl; try done;
    by destruct (WidgetBase.is_selected _).
Qed.

Lemma is_selected_select w : Widget.is_selected (select w) = true.
Proof.
  unfold select, Widget.set_selected, WidgetBase.set_selected, Widget.is_selected.
  destruct w as [b|d]; simpl; case_bool_decide as H; simpl; try done;
    by destruct (WidgetBase.is_selected _).
Qed.

Lemma deselect_unselected w : Widget.is_selected w = false → deselect w = w.
Proof.
  unfold deselect, Widget.set_selected, WidgetBase.set_selected, Widget.is_selected.
  intros Hs. destruct w as [b|d]; simpl in *; rewrite Hs;
    rewrite bool_decide_false by tauto; simpl; [done|by destruct d].
Qed.

Lemma deselect_deselect w : deselect (deselect w) = deselect w.
Proof. apply deselect_unselected, is_selected_deselect. Qed.

Lemma deselect_select w : deselect (select w) = deselect w.
Proof.
  unfold deselect, select, Widget.set_selected, WidgetBase.set_selected.
  destruct w as [b|d].
  - destruct b as [? ? ? ? ? ? ? [] ? ? ? ?]; reflexivity.
  - destruct d as [b ? ? ? ? ? ? ?]. destruct b as [? ? ? ? ? ? ? [] ? ? ? ?]; reflexivity.
Qed.

Lemma set_selected_signals w (selected : bool) :
  Widget.set_selected w selected
  = (if selected then select w else deselect w,
     if selected && negb (Widget.is_selected w) then [widget_selected (Widget.oid w)] else []).
Proof.
  unfold deselect, select, Widget.set_selected, WidgetBase.set_selected, Widget.is_selected.
  destruct w as [b|d].
  - destruct b as [? ? ? ? ? ? ? [] ? ? ? ?], selected; reflexivity.
  - destruct d as [b ? ? ? ? ? ? ?].
    destruct b as [? ? ? ? ? ? ? [] ? ? ? ?], selected; reflexivity.
Qed.

(** *** Method calls on the objects of a zone *)

Lemma oid_update o (f : Widget → Widget) ws :
  (∀ w, Widget.oid (f w) = Widget.oid w) →
  Widget.oid <$> update o f ws = Widget.oid <$> ws.
Proof.
  intros Hf. unfold update. rewrite <- list_fmap_compose. apply list_fmap_ext.
  intros i w _. simpl. case_bool_decide; [apply Hf|done].
Qed.

Lemma update_absent o (f : Widget → Widget) ws :
  o ∉ Widget.oid <$> ws → update o f ws = ws.
Proof.
  intros Ho. unfold update. rewrite <- (list_fmap_id ws) at 2.
  apply list_fmap_ext. intros i w Hi. simpl.
  rewrite bool_decide_false; [done|]. intros <-. apply Ho.
  apply list_elem_of_fmap_2. by eapply list_elem_of_lookup_2.
Qed.

(** Deselecting the objects of a list of references, where [cond] holds. *)
Lemma deselect_where (cond : nat → bool) (l : list nat) ws :
  foldl (λ ws o, if cond o then update o deselect ws else ws) ws l
  = (λ w, if bool_decide (Widget.oid w ∈ l) && cond (Widget.oid w) then deselect w else w)
      <$> ws.
Proof.
  revert ws. induction l as [|a l IH]; intros ws; simpl.
  - rewrite <- (list_fmap_id ws) at 1. apply list_fmap_ext. intros i w _. done.
  - rewrite IH. destruct (cond a) eqn:Hc.
    + unfold update. rewrite <- list_fmap_compose. apply list_fmap_ext. intros i w _.
      unfold compose. cbn beta.
      assert (Widget.oid (if bool_decide (Widget.oid w = a) then deselect w else w)
              = Widget.oid w) as -> by (case_bool_decide; [apply oid_deselect|done]).
      destruct (decide (Widget.oid w = a)) as [Ha|Ha].
      * rewrite (bool_decide_true (Widget.oid w = a)) by done.
        rewrite (bool_decide_true (Widget.oid w ∈ a :: l)) by (rewrite Ha; left).
        rewrite Ha, Hc. simpl. rewrite andb_true_r.
        case_bool_decide; [apply deselect_deselect|done].
      * rewrite (bool_decide_false (Widget.oid w = a)) by done.
        destruct (cond (Widget.oid w)); rewrite ?andb_false_r, ?andb_true_r; [|done].
        rewrite (bool_decide_ext (Widget.oid w ∈ l) (Widget.oid w ∈ a :: l)); [done|].
        rewrite elem_of_cons. split; [tauto|]. intros [?|?]; done.
    + apply list_fmap_ext. intros i w _. cbn beta.
      destruct (cond (Widget.oid w)) eqn:Hw; rewrite ?andb_false_r, ?andb_true_r; [|done].
      rewrite (bool_decide_ext (Widget.oid w ∈ l) (Widget.oid w ∈ a :: l)); [done|].
      rewrite elem_of_cons. split; [tauto|]. intros [Heq|?]; [congruence|done].
Qed.

Lemma deselect_listed (l : list nat) ws :
  foldl (λ ws o, update o deselect ws) ws l
  = (λ w, if bool_decide (Widget.oid w ∈ l) then deselect w else w) <$> ws.
Proof.
  rewrite (deselect_where (λ _, true) l ws).
  apply list_fmap_ext. intros i w _. simpl. by rewrite andb_true_r.
Qed.

(** *** The selection *)

(** The zone holds every widget object once, lists a selected widget once,
    and lists the widgets of the zone whose selection flag is set, and no
    others. *)
Definition consistent z : Prop :=
  NoDup (Widget.oid <$> widgets z)
  ∧ NoDup (selected_widgets z)
  ∧ ∀ o, o ∈ selected_widgets z
         ↔ ∃ w, w ∈ widgets z ∧ Widget.oid w = o ∧ Widget.is_selected w = true.

Lemma list_find_oid ws w :
  NoDup (Widget.oid <$> ws) → w ∈ ws →
  ∃ i, list_find (λ w', Widget.oid w' = Widget.oid w) ws = Some (i, w).
Proof.
  intros Hnd [i Hi]%list_elem_of_lookup. exists i.
  apply list_find_Some. split; [done|]. split; [done|].
  intros j w' Hj Hlt Heq.
  assert (i = j); [|lia].
  eapply NoDup_lookup; [exact Hnd| |]; rewrite list_lookup_fmap.
  - by rewrite Hi.
  - rewrite Hj. simpl. by rewrite Heq.
Qed.

Lemma elem_of_update o (f : Widget → Widget) ws w' :
  w' ∈ update o f ws
  ↔ ∃ w, w ∈ ws ∧ w' = if bool_decide (Widget.oid w = o) then f w else w.
Proof.
  unfold update. rewrite list_elem_of_fmap. split; intros (w & ? & ?); by exists w.
Qed.

(** A method that selects the widget and announces it if it was not
    selected: [set_selected(True)] and the [mousePressEvent]s. *)
Definition selecting (method : Widget → Widget * list Signal) : Prop :=
  ∀ w, Widget.oid (method w).1 = Widget.oid w
       ∧ Widget.is_selected (method w).1 = true
       ∧ (method w).2
         = if Widget.is_selected w then [] else [widget_selected (Widget.oid w)].

Lemma selecting_set_selected : selecting (λ w, Widget.set_selected w true).
Proof.
  intros w. rewrite set_selected_signals. simpl.
  split; [apply oid_select|]. split; [apply is_selected_select|].
  by destruct (Widget.is_selected w).
Qed.

Lemma selecting_mousePressEvent event :
  selecting (λ w, Widget.mousePressEvent w event).
Proof.
  intros [b|d]; unfold Widget.mousePressEvent, Widget.is_selected, Widget.oid.
  - unfold WidgetBase.mousePressEvent, WidgetBase.set_selected. simpl.
    destruct (WidgetBase.is_selected b) eqn:Hs; simpl; by rewrite ?Hs.
  - unfold DraggableWidget.mousePressEvent, WidgetBase.mousePressEvent,
      WidgetBase.set_selected.
    destruct (_ && _); simpl;
      destruct (WidgetBase.is_selected (DraggableWidget.base d)) eqn:Hs;
      simpl; by rewrite ?Hs.
Qed.

(** The zone with other widgets and another selection. *)
Definition with_selection z ws (sel : list nat) : DropZone.t :=
  mk ws sel (show_grid z) (grid_size z) (is_drop_target z) (layout_mode z)
     (width z) (height z).

Lemma call_selecting z w method (ctrl : bool) :
  NoDup (Widget.oid <$> widgets z) → w ∈ widgets z → selecting method →
  let o := Widget.oid w in
  let ws := update o (λ _, (method w).1) (widgets z) in
  call z o method ctrl
  = if Widget.is_selected w then (with_selection z ws (selected_widgets z), [])
    else
      (if ctrl then
         with_selection z ws
           (if bool_decide (o ∈ selected_widgets z) then selected_widgets z
            else selected_widgets z ++ [o])
       else
         with_selection z
           ((λ w', if bool_decide (Widget.oid w' ∈ selected_widgets z)
                      && bool_decide (Widget.oid w' ≠ o)
                   then deselect w' else w') <$> ws)
           [o],
       [widget_selected o]).
Proof.
  intros Hnd Hw Hm. cbv zeta. unfold call.
  destruct (list_find_oid _ _ Hnd Hw) as [i ->].
  destruct (Hm w) as (_ & _ & Hsig).
  destruct (method w) as [w' sigs] eqn:Hmw. simpl in Hsig. subst sigs.
  set (o := Widget.oid w). set (ws := update o (λ _, w') (widgets z)).
  destruct (Widget.is_selected w); [done|]. simpl.
  unfold _on_widget_selected. simpl. destruct ctrl; simpl.
  - case_bool_decide as Hin; case_bool_decide as Hin'; done.
  - f_equal. unfold with_selection. f_equal.
    apply (deselect_where (λ o', bool_decide (o' ≠ o))).
Qed.
End selection.

Section selection_invariant.
Import DropZone.
Implicit Types (z : DropZone.t) (widget w : Widget) (ws : list Widget) (o : nat).

Lemma call_selecting_consistent z w method (ctrl : bool) :
  consistent z → w ∈ widgets z → selecting method →
  let o := Widget.oid w in
  let r := call z o method ctrl in
  consistent r.1
  ∧ Widget.oid <$> widgets r.1 = Widget.oid <$> widgets z
  ∧ (Widget.is_selected w = true → selected_widgets r.1 = selected_widgets z ∧ r.2 = [])
  ∧ (Widget.is_selected w = false →
       r.2 = [widget_selected o]
       ∧ selected_widgets r.1 = if ctrl then selected_widgets z ++ [o] else [o]).
Proof.
  intros (Hoids & Hsel & Hflags) Hw Hm. cbv zeta.
  pose proof (call_selecting z w method ctrl Hoids Hw Hm) as Hr.
  cbv zeta in Hr.
  destruct (Hm w) as (Ho' & Hs' & _).
  remember (Widget.oid w) as o eqn:Ho.
  set (r := call z o method ctrl) in *.
  set (w' := (method w).1) in *. clearbody w'.
  set (ws := update o (λ _, w') (widgets z)) in *.
  assert (Widget.oid <$> ws = Widget.oid <$> widgets z) as Hws.
  { unfold ws, update. rewrite <- list_fmap_compose. apply list_fmap_ext.
    intros i x _. simpl.
    destruct (decide (Widget.oid x = o)) as [Hc|Hc];
      [rewrite bool_decide_true by done|rewrite bool_decide_false by done];
      [congruence|done]. }
  assert (∀ x, x ∈ ws ↔ x = w' ∨ (x ∈ widgets z ∧ Widget.oid x ≠ o)) as Hin.
  { intros x. unfold ws. rewrite elem_of_update. split.
    - intros (y & Hy & ->).
      destruct (decide (Widget.oid y = o)) as [Hc|Hc];
        [rewrite bool_decide_true by done|rewrite bool_decide_false by done];
        [by left|by right].
    - intros [->|[Hx Hne]].
      + exists w. split; [done|]. by rewrite bool_decide_true.
      + exists x. split; [done|]. by rewrite bool_decide_false. }
  destruct (Widget.is_selected w) eqn:Hsw.
  - rewrite Hr. unfold consistent. simpl. split; [|by repeat split].
    split; [by rewrite Hws|]. split; [done|].
    intros o'. rewrite Hflags. split.
    + intros (x & Hx & <- & Hxs). destruct (decide (Widget.oid x = o)) as [Heq|Hne].
      * exists w'. split; [apply Hin; by left|]. split; [congruence|done].
      * exists x. split; [apply Hin; by right|done].
    + intros (x & [->|[Hx Hne]]%Hin & <- & Hxs).
      * exists w. split; [done|]. split; [congruence|done].
      * by exists x.
  - rewrite Hr. unfold consistent. destruct ctrl; simpl.
    + assert (o ∉ selected_widgets z) as Hnot.
      { intros (x & Hx & Hxo & Hxs)%Hflags.
        assert (x = w) as ->; [|congruence].
        apply list_elem_of_lookup in Hx as [i Hi]. apply list_elem_of_lookup in Hw as [j Hj].
        assert (i = j) as ->; [|congruence].
        eapply NoDup_lookup; [exact Hoids| |]; rewrite list_lookup_fmap.
        - by rewrite Hi.
        - rewrite Hj. simpl. congruence. }
      rewrite bool_decide_false by done.
      split; [|by repeat split].
      split; [by rewrite Hws|]. split.
      { apply NoDup_app. split; [done|]. split; [|apply NoDup_singleton].
        intros o' Ho1 ->%list_elem_of_singleton. done. }
      intros o'. rewrite elem_of_app, list_elem_of_singleton, Hflags. split.
      * intros [(x & Hx & <- & Hxs)| ->].
        -- exists x. split; [|done]. apply Hin. right. split; [done|].
           intros Heq. apply Hnot, Hflags. by exists x.
        -- exists w'. split; [apply Hin; by left|done].
      * intros (x & [->|[Hx Hne]]%Hin & <- & Hxs); [by right|].
        left. by exists x.
    + match goal with
      | |- context [?f <$> ws] =>
          assert (Widget.oid <$> (f <$> ws) = Widget.oid <$> widgets z) as Hws'
      end.
      { rewrite <- Hws, <- list_fmap_compose. apply list_fmap_ext. intros i x _. simpl.
        destruct (_ && _); [apply oid_deselect|done]. }
      split; [|by repeat split].
      split; [by rewrite Hws'|].
      split; [apply NoDup_singleton|].
      intros o'. rewrite list_elem_of_singleton. split.
      * intros ->. exists w'. split; [|done].
        apply list_elem_of_fmap. exists w'. split; [|apply Hin; by left].
        rewrite (bool_decide_false (Widget.oid w' ≠ o)) by (intros H; by apply H).
        by rewrite andb_false_r.
      * intros (x & (y & -> & Hy)%list_elem_of_fmap & <- & Hxs).
        apply Hin in Hy as [->|[Hy Hne]].
        { destruct (_ && _); [by rewrite oid_deselect|done]. }
        exfalso. rewrite (bool_decide_true (Widget.oid y ≠ o)) in Hxs by done.
        rewrite andb_true_r in Hxs.
        destruct (decide (Widget.oid y ∈ selected_widgets z)) as [Hl|Hl].
        -- rewrite bool_decide_true in Hxs by done.
           by rewrite is_selected_deselect in Hxs.
        -- apply Hl, Hflags. exists y. rewrite bool_decide_false in Hxs by done. done.
Qed.

(** X14. In a zone with a consistent selection (every widget object once,
    selected_widgets without duplicates and listing exactly the widgets of the
    zone whose is_selected flag is set), a mouse press on a widget of the zone
    keeps the selection consistent and the widgets in place in the list: on a
    selected widget it changes nothing and emits nothing; on an unselected one
    it emits widget_selected once and makes it the whole selection, or appends
    it to the selection when Ctrl is held. *)
Theorem click_selects z w event (ctrl : bool) :
  consistent z → w ∈ widgets z →
  let o := Widget.oid w in
  let r := call z o (λ w, Widget.mousePressEvent w event) ctrl in
  consistent r.1
  ∧ Widget.oid <$> widgets r.1 = Widget.oid <$> widgets z
  ∧ (Widget.is_selected w = true → selected_widgets r.1 = selected_widgets z ∧ r.2 = [])
  ∧ (Widget.is_selected w = false →
       r.2 = [widget_selected o]
       ∧ selected_widgets r.1 = if ctrl then selected_widgets z ++ [o] else [o]).
Proof.
  intros Hz Hw. apply call_selecting_consistent; [done..|apply selecting_mousePressEvent].
Qed.
End selection_invariant.

Section selection_operations.
Import DropZone.
Implicit Types (z : DropZone.t) (widget w : Widget) (ws : list Widget) (o : nat).

Lemma NoDup_filter_fmap ws (P : Widget → Prop) `{!∀ w, Decision (P w)} :
  NoDup (Widget.oid <$> ws) → NoDup (Widget.oid <$> filter P ws).
Proof.
  induction ws as [|w ws IH]; [done|].
  rewrite fmap_cons, NoDup_cons. intros [Hw Hnd]. rewrite filter_cons.
  destruct (decide (P w)); [|by apply IH].
  rewrite fmap_cons. apply NoDup_cons. split; [|by apply IH].
  intros (x & Hx & [_ Hin]%list_elem_of_filter)%list_elem_of_fmap.
  apply Hw. rewrite Hx. by apply list_elem_of_fmap_2.
Qed.

Lemma oid_unique ws w w' :
  NoDup (Widget.oid <$> ws) → w ∈ ws → w' ∈ ws → Widget.oid w = Widget.oid w' → w = w'.
Proof.
  intros Hnd [i Hi]%list_elem_of_lookup [j Hj]%list_elem_of_lookup Heq.
  assert (i = j) as ->; [|congruence].
  eapply NoDup_lookup; [exact Hnd| |]; rewrite list_lookup_fmap.
  - by rewrite Hi.
  - rewrite Hj. simpl. by rewrite Heq.
Qed.

Lemma remove_widget_found z (widget_id : string) :
  NoDup (Widget.oid <$> widgets z) → NoDup (selected_widgets z) →
  remove_widget z widget_id = (z, [])
  ∧ Forall (λ w, Widget.widget_id w ≠ widget_id) (widgets z)
  ∨ ∃ w, w ∈ widgets z ∧ Widget.widget_id w = widget_id
         ∧ remove_widget z widget_id
           = (with_selection z (filter (λ x, Widget.oid x ≠ Widget.oid w) (widgets z))
                (filter (λ o, o ≠ Widget.oid w) (selected_widgets z)),
              [widget_removed widget_id; layout_changed]).
Proof.
  intros Hoid Hsel. unfold remove_widget.
  destruct (list_find _ (widgets z)) as [[i w]|] eqn:Hfind.
  - right. apply list_find_Some in Hfind as (Hi & Hw & _). exists w.
    split; [by eapply list_elem_of_lookup_2|]. split; [done|].
    rewrite remove_object_filter by done. unfold with_selection. do 2 f_equal.
    case_bool_decide; [by apply remove_filter|].
    symmetry. apply filter_all. by intros o Ho ->.
  - left. split; [done|]. by apply list_find_None in Hfind.
Qed.

Lemma consistent_remove z w :
  consistent z →
  consistent (with_selection z (filter (λ x, Widget.oid x ≠ Widget.oid w) (widgets z))
                (filter (λ o, o ≠ Widget.oid w) (selected_widgets z))).
Proof.
  intros (Hoids & Hsel & Hflags). unfold consistent. simpl.
  split; [by apply NoDup_filter_fmap|]. split; [by apply NoDup_filter|].
  intros o. rewrite list_elem_of_filter, Hflags. split.
  - intros [Hne (x & Hx & <- & Hs)]. exists x. split; [|done].
    by apply list_elem_of_filter.
  - intros (x & [Hne Hx]%list_elem_of_filter & <- & Hs). split; [done|]. by exists x.
Qed.

(** X15. The consistency of the selection (every widget object once,
    selected_widgets without duplicates and listing exactly the widgets of the
    zone whose is_selected flag is set) is kept by add_widget of an unselected
    widget, by remove_widget, by clear_selection, after which nothing is listed
    and no flag is set, and by a mouse press on a widget of the zone with or
    without Ctrl. *)
Theorem selection_stays_consistent z :
  consistent z →
  (∀ widget position,
     Widget.is_selected widget = false → consistent (add_widget z widget position).1)
  ∧ (∀ widget_id, consistent (remove_widget z widget_id).1)
  ∧ consistent (clear_selection z)
  ∧ selected_widgets (clear_selection z) = []
  ∧ (∀ w, w ∈ widgets (clear_selection z) → Widget.is_selected w = false)
  ∧ (∀ w event ctrl,
       w ∈ widgets z →
       consistent (call z (Widget.oid w) (λ w, Widget.mousePressEvent w event) ctrl).1).
Proof.
  intros Hz. pose proof Hz as (Hoids & Hsel & Hflags).
  split; [|split; [|split; [|split; [|split]]]].
  - intros widget position Hs. unfold add_widget. case_bool_decide as Hnew; [|done].
    set (placed := Widget.show _).
    assert (Widget.oid placed = Widget.oid widget
            ∧ Widget.is_selected placed = false) as [Ho Hp].
    { unfold placed. destruct position as [p|]; [destruct (truthy (Some p))|];
        by destruct widget. }
    clearbody placed. unfold consistent. simpl.
    split.
    { rewrite fmap_app. simpl. apply NoDup_app. split; [done|].
      split; [|apply NoDup_singleton].
      intros o Ho1 ->%list_elem_of_singleton. apply Hnew. by rewrite <- Ho. }
    split; [done|]. intros o. rewrite Hflags. split.
    + intros (x & Hx & ?). exists x. split; [|done]. apply elem_of_app. by left.
    + intros (x & [Hx| ->%list_elem_of_singleton]%elem_of_app & <- & Hxs);
        [by exists x|congruence].
  - intros widget_id.
    destruct (remove_widget_found z widget_id Hoids Hsel) as [[-> _]|(w & _ & _ & ->)];
      [done|]. by apply consistent_remove.
  - unfold clear_selection, consistent. simpl. rewrite deselect_listed.
    split.
    { rewrite <- list_fmap_compose.
      erewrite list_fmap_ext; [exact Hoids|]. intros i x _. simpl.
      case_bool_decide; [apply oid_deselect|done]. }
    split; [apply NoDup_nil_2|].
    intros o. split; [by intros ?%elem_of_nil|].
    intros (x & (y & -> & Hy)%list_elem_of_fmap & <- & Hs). exfalso.
    case_bool_decide as Hl.
    + by rewrite is_selected_deselect in Hs.
    + apply Hl, Hflags. by exists y.
  - done.
  - intros w. unfold clear_selection. simpl. rewrite deselect_listed.
    intros (y & -> & Hy)%list_elem_of_fmap. case_bool_decide as Hl.
    + apply is_selected_deselect.
    + destruct (Widget.is_selected y) eqn:Hs; [|done].
      exfalso. apply Hl, Hflags. by exists y.
  - intros w event ctrl Hw.
    by destruct (call_selecting_consistent z w _ ctrl Hz Hw
                   (selecting_mousePressEvent event)) as [? _].
Qed.
End selection_operations.

Section select_all.
Import DropZone.
Implicit Types (z : DropZone.t) (widget w : Widget) (ws : list Widget) (o : nat).

(** One round of the loop of [select_all]. *)
Definition select_step (ctrl : bool) (zl : DropZone.t * list Signal) (oid : nat)
    : DropZone.t * list Signal :=
  let '(z, log) := zl in
  let '(z, signals) := call z oid (λ w, Widget.set_selected w true) ctrl in
  (mk (widgets z) (selected_widgets z ++ [oid]) (show_grid z) (grid_size z)
      (is_drop_target z) (layout_mode z) (width z) (height z),
   log ++ signals).

Lemma select_all_fold z ctrl :
  select_all z ctrl
  = foldl (select_step ctrl) (clear_selection z, [])
      (Widget.oid <$> widgets (clear_selection z)).
Proof.
  unfold select_all. generalize (Widget.oid <$> widgets (clear_selection z)).
  generalize (clear_selection z, @nil Signal).
  intros zl l. revert zl. induction l as [|o l IH]; intros zl; [done|].
  simpl. rewrite IH. by destruct zl.
Qed.

(** The widgets but for their selection flags. *)
Definition unselected ws : list Widget := deselect <$> ws.

Lemma select_step_unselected z log o w ctrl :
  NoDup (Widget.oid <$> widgets z) → w ∈ widgets z → Widget.oid w = o →
  Widget.is_selected w = false →
  let r := select_step ctrl (z, log) o in
  r.2 = log ++ [widget_selected o]
  ∧ unselected (widgets r.1) = unselected (widgets z)
  ∧ Widget.oid <$> widgets r.1 = Widget.oid <$> widgets z
  ∧ selected_widgets r.1
    = (if ctrl then
         if bool_decide (o ∈ selected_widgets z) then selected_widgets z
         else selected_widgets z ++ [o]
       else [o]) ++ [o]
  ∧ ∀ x, x ∈ widgets r.1 →
         Widget.is_selected x = true
         ↔ Widget.oid x = o
           ∨ ∃ y, y ∈ widgets z ∧ Widget.oid y = Widget.oid x
                  ∧ Widget.is_selected y = true
                  ∧ (ctrl = true ∨ Widget.oid y ∉ selected_widgets z).
Proof.
  intros Hnd Hw Ho Hs. cbv zeta. unfold select_step.
  pose proof (call_selecting z w _ ctrl Hnd Hw selecting_set_selected) as Hc.
  cbv zeta in Hc. rewrite Ho, Hs in Hc. rewrite Hc. clear Hc.
  cbn beta. change ((Widget.set_selected w true).1) with (select w).
  set (ws := update o (λ _, select w) (widgets z)).
  assert (∀ x, x ∈ ws ↔ x = select w ∨ (x ∈ widgets z ∧ Widget.oid x ≠ o)) as Hin.
  { intros x. unfold ws. rewrite elem_of_update. split.
    - intros (y & Hy & ->).
      destruct (decide (Widget.oid y = o)) as [Hc|Hc];
        [rewrite bool_decide_true by done|rewrite bool_decide_false by done];
        [by left|by right].
    - intros [->|[Hx Hne]].
      + exists w. split; [done|]. by rewrite bool_decide_true.
      + exists x. split; [done|]. by rewrite bool_decide_false. }
  assert (unselected ws = unselected (widgets z)) as Hun.
  { unfold unselected, ws, update. rewrite <- list_fmap_compose. apply list_fmap_ext.
    intros i x Hx. simpl.
    destruct (decide (Widget.oid x = o)) as [Hc|Hc];
      [rewrite bool_decide_true by done|by rewrite bool_decide_false by done].
    rewrite deselect_select. f_equal. eapply oid_unique; try done.
    - by eapply list_elem_of_lookup_2.
    - congruence. }
  assert (Widget.oid <$> ws = Widget.oid <$> widgets z) as Hoid.
  { unfold ws, update. rewrite <- list_fmap_compose. apply list_fmap_ext.
    intros i x Hx. simpl.
    destruct (decide (Widget.oid x = o)) as [Hc|Hc];
      [rewrite bool_decide_true by done|by rewrite bool_decide_false by done].
    rewrite oid_select. congruence. }
  destruct ctrl; cbn [fst snd widgets selected_widgets with_selection].
  - split; [done|]. split; [done|]. split; [done|]. split; [done|].
    intros x [->|[Hx Hne]]%Hin.
    + rewrite is_selected_select, oid_select. split; [intros _; left; congruence|done].
    + split.
      * intros Hxs. right. exists x. repeat split; try done. by left.
      * intros [?|(y & Hy & Hyo & Hys & _)]; [done|].
        by rewrite (oid_unique (widgets z) x y Hnd Hx Hy (eq_sym Hyo)).
  - split; [done|]. split.
    { rewrite <- Hun. unfold unselected. rewrite <- list_fmap_compose.
      apply list_fmap_ext. intros i x _. simpl.
      destruct (_ && _); [apply deselect_deselect|done]. }
    split.
    { rewrite <- Hoid, <- list_fmap_compose. apply list_fmap_ext. intros i x _. simpl.
      destruct (_ && _); [apply oid_deselect|done]. }
    split; [done|].
    intros x (y & -> & [->|[Hy Hne]]%Hin)%list_elem_of_fmap.
    + rewrite oid_select, Ho.
      rewrite (bool_decide_false (o ≠ o)) by (intros H; by apply H).
      rewrite andb_false_r, is_selected_select, oid_select.
      split; [intros _; by left|done].
    + rewrite (bool_decide_true (Widget.oid y ≠ o)) by done. rewrite andb_true_r.
      destruct (decide (Widget.oid y ∈ selected_widgets z)) as [Hl|Hl].
      * rewrite bool_decide_true by done. rewrite is_selected_deselect, oid_deselect.
        split; [done|]. intros [?|(y' & Hy' & Hyo & Hys & [?|Hnl])]; [done..|].
        rewrite Hyo in Hnl. done.
      * rewrite bool_decide_false by done. split.
        -- intros Hys. right. exists y. repeat split; try done. by right.
        -- intros [?|(y' & Hy' & Hyo & Hys & _)]; [done|].
           by rewrite (oid_unique (widgets z) y y' Hnd Hy Hy' (eq_sym Hyo)).
Qed.
Lemma select_all_single (os : list nat) z log :
  NoDup (Widget.oid <$> widgets z) →
  NoDup os →
  (∀ o, o ∈ os → o ∈ Widget.oid <$> widgets z) →
  (∀ x, x ∈ widgets z → Widget.is_selected x = true → Widget.oid x ∈ selected_widgets z) →
  (∀ o, o ∈ os → o ∉ selected_widgets z) →
  let r := foldl (select_step false) (z, log) os in
  r.2 = log ++ (widget_selected <$> os)
  ∧ unselected (widgets r.1) = unselected (widgets z)
  ∧ Widget.oid <$> widgets r.1 = Widget.oid <$> widgets z
  ∧ ∀ l, last os = Some l →
         selected_widgets r.1 = [l; l]
         ∧ ∀ x, x ∈ widgets r.1 → Widget.is_selected x = true ↔ Widget.oid x = l.
Proof.
  revert z log. induction os as [|o os IH]; intros z log Hnd Hos Hin Hlisted Hfresh.
  { simpl. rewrite app_nil_r. by repeat split. }
  apply NoDup_cons in Hos as [Ho Hos].
  destruct (proj1 (list_elem_of_fmap _ _ _) (Hin o ltac:(left))) as (w & Hwo & Hw).
  assert (Widget.is_selected w = false) as Hs.
  { destruct (Widget.is_selected w) eqn:Hs; [|done].
    destruct (Hfresh o); [left|]. rewrite Hwo. by apply Hlisted. }
  destruct (select_step_unselected z log o w false Hnd Hw (eq_sym Hwo) Hs)
    as (Hlog & Hun & Hoid & Hsel & Hflags).
  cbn [foldl]. destruct (select_step false (z, log) o) as [z1 log1]. cbn [fst snd] in *.
  assert (∀ x, x ∈ widgets z1 → Widget.is_selected x = true ↔ Widget.oid x = o) as Hflags1.
  { intros x Hx. rewrite (Hflags x Hx). split; [|by left].
    intros [?|(y & Hy & _ & Hys & [?|Hnl])]; [done..|].
    destruct Hnl. by apply Hlisted. }
  destruct (IH z1 log1) as (Hlog' & Hun' & Hoid' & Hlast); try done.
  - by rewrite Hoid.
  - intros o' Ho'. rewrite Hoid. apply Hin. by right.
  - intros x Hx Hxs. rewrite Hsel. apply Hflags1 in Hxs; [|done]. rewrite Hxs. left.
  - intros o' Ho'. rewrite Hsel. intros [->|[->|[]%elem_of_nil]%elem_of_cons]%elem_of_cons;
      done.
  - split; [rewrite Hlog', Hlog, <- app_assoc; done|].
    split; [congruence|]. split; [congruence|].
    intros l Hl. destruct os as [|o' os'].
    + simpl in Hl. injection Hl as <-. simpl. split; [done|]. exact Hflags1.
    + apply Hlast. by rewrite last_cons_cons in Hl.
Qed.

Lemma select_all_multi (os : list nat) z log :
  NoDup (Widget.oid <$> widgets z) →
  NoDup os →
  (∀ o, o ∈ os → o ∈ Widget.oid <$> widgets z) →
  (∀ x, x ∈ widgets z →
        Widget.is_selected x = true ↔ Widget.oid x ∈ selected_widgets z) →
  (∀ o, o ∈ os → o ∉ selected_widgets z) →
  let r := foldl (select_step true) (z, log) os in
  r.2 = log ++ (widget_selected <$> os)
  ∧ unselected (widgets r.1) = unselected (widgets z)
  ∧ Widget.oid <$> widgets r.1 = Widget.oid <$> widgets z
  ∧ selected_widgets r.1 = selected_widgets z ++ (os ≫= λ o, [o; o])
  ∧ ∀ x, x ∈ widgets r.1 →
         Widget.is_selected x = true ↔ Widget.oid x ∈ selected_widgets r.1.
Proof.
  revert z log. induction os as [|o os IH]; intros z log Hnd Hos Hin Hlisted Hfresh.
  { simpl. rewrite !app_nil_r. do 4 (split; [done|]). exact Hlisted. }
  apply NoDup_cons in Hos as [Ho Hos].
  destruct (proj1 (list_elem_of_fmap _ _ _) (Hin o ltac:(left))) as (w & Hwo & Hw).
  assert (Widget.is_selected w = false) as Hs.
  { destruct (Widget.is_selected w) eqn:Hs; [|done].
    destruct (Hfresh o); [left|]. rewrite Hwo. by apply Hlisted. }
  destruct (select_step_unselected z log o w true Hnd Hw (eq_sym Hwo) Hs)
    as (Hlog & Hun & Hoid & Hsel & Hflags).
  rewrite bool_decide_false in Hsel by (apply Hfresh; left).
  cbn [foldl]. destruct (select_step true (z, log) o) as [z1 log1]. cbn [fst snd] in *.
  assert (∀ x, x ∈ widgets z1 →
            Widget.is_selected x = true ↔ Widget.oid x ∈ selected_widgets z1) as Hflags1.
  { intros x Hx. rewrite (Hflags x Hx), Hsel, !elem_of_app, list_elem_of_singleton. split.
    - intros [?|(y & Hy & Hyo & Hys & _)]; [by right|].
      left. left. rewrite <- Hyo. by apply Hlisted.
    - intros [[Hl| ->]| ->]; [|by left..].
      right. assert (Widget.oid x ∈ Widget.oid <$> widgets z) as Hx'.
      { rewrite <- Hoid. by apply list_elem_of_fmap_2. }
      apply list_elem_of_fmap in Hx' as (y & Hyo & Hy). exists y.
      split; [done|]. split; [done|]. split; [|by left].
      apply Hlisted; [done|]. by rewrite <- Hyo. }
  destruct (IH z1 log1) as (Hlog' & Hun' & Hoid' & Hsel' & Hflags'); try done.
  - by rewrite Hoid.
  - intros o' Ho'. rewrite Hoid. apply Hin. by right.
  - intros o' Ho'. rewrite Hsel, !elem_of_app, list_elem_of_singleton.
    intros [[Hl| ->]| ->]; [|done..]. by apply (Hfresh o'); [right|].
  - split; [rewrite Hlog', Hlog, <- app_assoc; done|].
    split; [congruence|]. split; [congruence|]. split; [|done].
    rewrite Hsel', Hsel. simpl. by rewrite <- !app_assoc.
Qed.

(** X16. select_all, in a zone that holds every widget object once and lists
    every widget whose flag is set: with Ctrl held, every widget ends selected
    and selected_widgets lists every widget twice; without Ctrl, only the last
    widget of the zone ends selected and selected_widgets holds it twice. In
    both cases widget_selected is emitted once per widget in zone order and
    nothing but selection flags changes on the widgets. *)
Theorem select_all_lists_twice z :
  NoDup (Widget.oid <$> widgets z) →
  (∀ w, w ∈ widgets z → Widget.is_selected w = true → Widget.oid w ∈ selected_widgets z) →
  let os := Widget.oid <$> widgets z in
  let held := select_all z true in
  let free := select_all z false in
  (selected_widgets held.1 = os ≫= (λ o, [o; o])
   ∧ Forall (λ w, Widget.is_selected w = true) (widgets held.1)
   ∧ held.2 = widget_selected <$> os
   ∧ unselected (widgets held.1) = unselected (widgets z))
  ∧ (free.2 = widget_selected <$> os
     ∧ unselected (widgets free.1) = unselected (widgets z)
     ∧ ∀ l, last os = Some l →
            selected_widgets free.1 = [l; l]
            ∧ ∀ w, w ∈ widgets free.1 → Widget.is_selected w = true ↔ Widget.oid w = l).
Proof.
  intros Hnd Hlisted os held free.
  set (z0 := clear_selection z).
  assert (widgets z0
          = (λ w, if bool_decide (Widget.oid w ∈ selected_widgets z) then deselect w else w)
              <$> widgets z) as Hws by apply deselect_listed.
  assert (Widget.oid <$> widgets z0 = os) as Hoid.
  { rewrite Hws, <- list_fmap_compose. apply list_fmap_ext. intros i x _. simpl.
    by destruct (bool_decide _); [apply oid_deselect|]. }
  assert (unselected (widgets z0) = unselected (widgets z)) as Hun.
  { unfold unselected. rewrite Hws, <- list_fmap_compose. apply list_fmap_ext.
    intros i x _. simpl. by destruct (bool_decide _); [apply deselect_deselect|]. }
  assert (∀ x, x ∈ widgets z0 → Widget.is_selected x = false) as Hclear.
  { intros x. rewrite Hws. intros (y & -> & Hy)%list_elem_of_fmap.
    destruct (decide (Widget.oid y ∈ selected_widgets z)) as [Hl|Hl].
    - rewrite bool_decide_true by done. apply is_selected_deselect.
    - rewrite bool_decide_false by done.
      destruct (Widget.is_selected y) eqn:Hs; [|done]. destruct Hl. by apply Hlisted. }
  assert (NoDup (Widget.oid <$> widgets z0)) as Hnd0 by (by rewrite Hoid).
  split.
  - unfold held. rewrite select_all_fold. fold z0. rewrite Hoid.
    destruct (select_all_multi os z0 [] Hnd0) as (Hlog & Hun' & Hoid' & Hsel & Hflags).
    + done.
    + intros o Ho. by rewrite Hoid.
    + intros x Hx. rewrite (Hclear x Hx). split; [done|]. by intros ?%elem_of_nil.
    + intros o _. apply not_elem_of_nil.
    + split; [done|]. split; [|split; [done|congruence]].
      apply Forall_forall. intros x Hx. apply Hflags; [done|]. rewrite Hsel. simpl.
      apply list_elem_of_bind. exists (Widget.oid x). split; [left|].
      fold os. rewrite <- Hoid, <- Hoid'. by apply list_elem_of_fmap_2.
  - unfold free. rewrite select_all_fold. fold z0. rewrite Hoid.
    destruct (select_all_single os z0 [] Hnd0) as (Hlog & Hun' & Hoid' & Hlast).
    + done.
    + intros o Ho. by rewrite Hoid.
    + intros x Hx Hs. by rewrite (Hclear x Hx) in Hs.
    + intros o _. apply not_elem_of_nil.
    + split; [done|]. split; [congruence|]. exact Hlast.
Qed.
End select_all.

Lemma select_all_lists_twice_witness :
  let a := Plain (WidgetBase.__init__ 1 "a" 80 30) in
  let b := Draggable (DraggableWidget.__init__ 2 "b" 80 30) in
  let c := Plain (WidgetBase.__init__ 3 "c" 80 30) in
  let z := (DropZone.add_widget
              (DropZone.add_widget (DropZone.add_widget DropZone.__init__ a None).1 b None).1
              c None).1 in
  DropZone.selected_widgets (DropZone.select_all z true).1 = [1; 1; 2; 2; 3; 3]%nat
  ∧ DropZone.selected_widgets (DropZone.select_all z false).1 = [3; 3]%nat
  ∧ Widget.is_selected <$> DropZone.widgets (DropZone.select_all z false).1
    = [false; false; true].
Proof.
  intros a b c z.
  assert (NoDup (Widget.oid <$> DropZone.widgets z)) as Hnd.
  { change (NoDup [1; 2; 3]%nat).
    repeat (apply NoDup_cons_2; [rewrite ?not_elem_of_cons; repeat split;
                                 try discriminate; apply not_elem_of_nil|]).
    apply NoDup_nil_2. }
  destruct (select_all_lists_twice z Hnd) as [(Hheld & _) (_ & _ & Hfree)].
  { intros w Hw Hs. exfalso. revert Hs.
    repeat (apply elem_of_cons in Hw as [->|Hw]; [discriminate|]).
    by apply elem_of_nil in Hw. }
  split; [exact Hheld|].
  destruct (Hfree 3%nat eq_refl) as [Hsel _].
  split; [exact Hsel|reflexivity].
Defined.

Section delete_selected.
Import DropZone.
Implicit Types (z : DropZone.t) (widget w : Widget) (ws : list Widget) (o : nat).

(** One round of the loop of [delete_selected]. *)
Definition delete_step (zl : DropZone.t * list Signal) (oid : nat)
    : DropZone.t * list Signal :=
  let '(z, log) := zl in
  match list_find (λ w, Widget.oid w = oid) (widgets z) with
  | Some (_, widget) =>
      if Widget.is_deletable widget then
        let '(z, signals) := remove_widget z (Widget.widget_id widget) in
        (z, log ++ signals)
      else (z, log)
  | None => (z, log)
  end.

Lemma delete_selected_fold z :
  delete_selected z = foldl delete_step (z, []) (selected_widgets z).
Proof.
  unfold delete_selected. generalize (selected_widgets z). generalize (z, @nil Signal).
  intros zl l. revert zl. induction l as [|o l IH]; intros zl; [done|].
  simpl. rewrite IH. by destruct zl.
Qed.

(** The widget of the zone that a reference names. *)
Definition widget_of ws o : option Widget :=
  snd <$> list_find (λ w, Widget.oid w = o) ws.

(** The signals of the removal of the widget named by [o], if it may be
    deleted. *)
Definition removal ws o : list Signal :=
  match widget_of ws o with
  | Some w =>
      if Widget.is_deletable w
      then [widget_removed (Widget.widget_id w); layout_changed] else []
  | None => []
  end.

Lemma widget_of_Some ws o w :
  NoDup (Widget.oid <$> ws) →
  widget_of ws o = Some w ↔ w ∈ ws ∧ Widget.oid w = o.
Proof.
  intros Hnd. unfold widget_of. split.
  - destruct (list_find _ ws) as [[i x]|] eqn:Hf; [|done]. simpl. intros [= ->].
    apply list_find_Some in Hf as (Hi & Hx & _). split; [|done].
    by eapply list_elem_of_lookup_2.
  - intros [Hw <-]. destruct (list_find_oid ws w Hnd Hw) as [i ->]. done.
Qed.

Lemma widget_of_None ws o : widget_of ws o = None ↔ o ∉ Widget.oid <$> ws.
Proof.
  unfold widget_of. destruct (list_find _ ws) as [[i x]|] eqn:Hf; simpl.
  - apply list_find_Some in Hf as (Hi & Hx & _). split; [done|]. intros Hn. destruct Hn.
    rewrite <- Hx. apply list_elem_of_fmap_2. by eapply list_elem_of_lookup_2.
  - apply list_find_None in Hf. split; [intros _|done].
    intros (x & -> & Hx)%list_elem_of_fmap. rewrite Forall_forall in Hf. by apply (Hf x).
Qed.

Lemma widget_of_filter ws o o' :
  NoDup (Widget.oid <$> ws) → o' ≠ o →
  widget_of (filter (λ x, Widget.oid x ≠ o) ws) o' = widget_of ws o'.
Proof.
  intros Hnd Hne.
  assert (NoDup (Widget.oid <$> filter (λ x, Widget.oid x ≠ o) ws)) as Hnd'
    by (by apply NoDup_filter_fmap).
  destruct (widget_of ws o') as [w|] eqn:Hw.
  - apply widget_of_Some in Hw as [Hw Ho]; [|done]. apply widget_of_Some; [done|].
    split; [|done]. apply list_elem_of_filter. split; [congruence|done].
  - apply widget_of_None in Hw. apply widget_of_None.
    intros (x & -> & [_ Hx]%list_elem_of_filter)%list_elem_of_fmap.
    apply Hw. by apply list_elem_of_fmap_2.
Qed.

Lemma NoDup_filter_ids ws (P : Widget → Prop) `{!∀ w, Decision (P w)} :
  NoDup (Widget.widget_id <$> ws) → NoDup (Widget.widget_id <$> filter P ws).
Proof.
  induction ws as [|w ws IH]; [done|].
  rewrite fmap_cons, NoDup_cons. intros [Hw Hnd]. rewrite filter_cons.
  destruct (decide (P w)); [|by apply IH].
  rewrite fmap_cons. apply NoDup_cons. split; [|by apply IH].
  intros (x & Hx & [_ Hin]%list_elem_of_filter)%list_elem_of_fmap.
  apply Hw. rewrite Hx. by apply list_elem_of_fmap_2.
Qed.

Lemma bind_ext_in {A B : Type} (f g : A → list B) (l : list A) :
  (∀ a, a ∈ l → f a = g a) → l ≫= f = l ≫= g.
Proof.
  induction l as [|a l IH]; intros Hl; [done|].
  cbn [mbind list_bind]. rewrite (Hl a) by left. f_equal.
  apply IH. intros b Hb. apply Hl. by right.
Qed.

Lemma delete_fold (l : list nat) z log :
  consistent z → NoDup (Widget.widget_id <$> widgets z) → NoDup l →
  let r := foldl delete_step (z, log) l in
  widgets r.1
  = filter (λ w, ¬ (Widget.oid w ∈ l ∧ Widget.is_deletable w = true)) (widgets z)
  ∧ selected_widgets r.1
    = filter (λ o, ¬ (o ∈ l ∧ Exists (λ w, Widget.oid w = o
                                          ∧ Widget.is_deletable w = true) (widgets z)))
        (selected_widgets z)
  ∧ consistent r.1
  ∧ r.2 = log ++ (l ≫= removal (widgets z)).
Proof.
  revert z log. induction l as [|o l IH]; intros z log Hz Hids Hl.
  { simpl. rewrite app_nil_r. split; [|split; [|done]].
    - symmetry. apply filter_all. by intros w _ [?%elem_of_nil _].
    - symmetry. apply filter_all. by intros o _ [?%elem_of_nil _]. }
  apply NoDup_cons in Hl as [Ho Hl]. pose proof Hz as (Hoids & Hsel & Hflags).
  cbn [foldl mbind list_bind].
  destruct (list_find (λ w, Widget.oid w = o) (widgets z)) as [[i w]|] eqn:Hfind.
  - pose proof Hfind as (Hi & Hwo & _)%list_find_Some.
    assert (w ∈ widgets z) as Hw by (by eapply list_elem_of_lookup_2).
    destruct (Widget.is_deletable w) eqn:Hdel.
    + destruct (remove_widget_found z (Widget.widget_id w) Hoids Hsel)
        as [[_ Hnone]|(w' & Hw' & Hid & Hrm)].
      { rewrite Forall_forall in Hnone. by destruct (Hnone w Hw). }
      assert (w' = w) as -> by (by eapply same_id_same_oid).
      set (z1 := with_selection z (filter (λ x, Widget.oid x ≠ Widget.oid w) (widgets z))
                   (filter (λ o, o ≠ Widget.oid w) (selected_widgets z))) in *.
      assert (delete_step (z, log) o
              = (z1, log ++ [widget_removed (Widget.widget_id w); layout_changed]))
        as -> by (unfold delete_step; by rewrite Hfind, Hdel, Hrm).
      assert (removal (widgets z) o
              = [widget_removed (Widget.widget_id w); layout_changed]) as ->
        by (unfold removal, widget_of; rewrite Hfind; simpl; by rewrite Hdel).
      subst o.
      destruct (IH z1 (log ++ [widget_removed (Widget.widget_id w); layout_changed]))
        as (Hws & Hsl & Hc & Hlog); [by apply consistent_remove| |done|].
      { by apply NoDup_filter_ids. }
      split; [|split; [|split; [done|]]].
      * rewrite Hws. unfold z1. simpl. rewrite list_filter_filter.
        apply filter_ext_in. intros x Hx. rewrite elem_of_cons. split.
        -- intros [Hn Hne] [[Heq|Hin] Hd]; [done|]. by apply Hn.
        -- intros Hn. split.
           ++ intros [Hin Hd]. apply Hn. split; [by right|done].
           ++ intros Heq. apply Hn. split; [by left|].
              by rewrite (oid_unique (widgets z) x w Hoids Hx Hw) by congruence.
      * rewrite Hsl. unfold z1. simpl. rewrite list_filter_filter.
        apply filter_ext_in. intros o' Ho'. rewrite elem_of_cons. split.
        -- intros [Hn Hne] [[Heq|Hin] Hd]; [done|].
           apply Hn. split; [done|]. apply Exists_exists in Hd as (x & Hx & Hxo & Hxd).
           apply Exists_exists.
           exists x. split; [|done]. apply list_elem_of_filter. split; [congruence|done].
        -- intros Hn. split.
           ++ intros [Hin (x & [_ Hx]%list_elem_of_filter & Hxo & Hxd)%Exists_exists].
              apply Hn. split; [by right|]. apply Exists_exists. by exists x.
           ++ intros ->. apply Hn. split; [by left|]. apply Exists_exists. by exists w.
      * rewrite Hlog, <- app_assoc. f_equal. f_equal.
        unfold z1. simpl. apply bind_ext_in. intros o' Ho'. unfold removal.
        rewrite widget_of_filter; [done..|]. by intros ->.
    + assert (delete_step (z, log) o = (z, log)) as ->
        by (unfold delete_step; by rewrite Hfind, Hdel).
      assert (removal (widgets z) o = []) as ->
        by (unfold removal, widget_of; rewrite Hfind; simpl; by rewrite Hdel).
      destruct (IH z log) as (Hws & Hsl & Hc & Hlog); [done..|].
      split; [|split; [|split; [done|]]].
      * rewrite Hws. apply filter_ext_in. intros x Hx. rewrite elem_of_cons. split.
        -- intros Hn [[Heq|Hin] Hd]; [|by apply Hn].
           rewrite (oid_unique (widgets z) x w Hoids Hx Hw) in Hd by congruence. congruence.
        -- intros Hn [Hin Hd]. apply Hn. split; [by right|done].
      * rewrite Hsl. apply filter_ext_in. intros o' Ho'. rewrite elem_of_cons. split.
        -- intros Hn [[->|Hin] Hd]; [|by apply Hn].
           apply Exists_exists in Hd as (x & Hx & Hxo & Hxd).
           rewrite (oid_unique (widgets z) x w Hoids Hx Hw) in Hxd by congruence. congruence.
        -- intros Hn [Hin Hd]. apply Hn. split; [by right|done].
      * by rewrite Hlog.
  - assert (delete_step (z, log) o = (z, log)) as ->
      by (unfold delete_step; by rewrite Hfind).
    assert (removal (widgets z) o = []) as ->
      by (unfold removal, widget_of; by rewrite Hfind).
    apply list_find_None in Hfind. rewrite Forall_forall in Hfind.
    destruct (IH z log) as (Hws & Hsl & Hc & Hlog); [done..|].
    split; [|split; [|split; [done|]]].
    * rewrite Hws. apply filter_ext_in. intros x Hx. rewrite elem_of_cons. split.
      -- intros Hn [[Heq|Hin] Hd]; [by apply (Hfind x)|by apply Hn].
      -- intros Hn [Hin Hd]. apply Hn. split; [by right|done].
    * rewrite Hsl. apply filter_ext_in. intros o' Ho'. rewrite elem_of_cons. split.
      -- intros Hn [[->|Hin] Hd]; [|by apply Hn].
         apply Exists_exists in Hd as (x & Hx & Hxo & Hxd). by apply (Hfind x).
      -- intros Hn [Hin Hd]. apply Hn. split; [by right|done].
    * by rewrite Hlog.
Qed.

(** X17. In a zone with a consistent selection and distinct widget ids,
    delete_selected removes exactly the widgets that are selected and deletable;
    a selected widget with is_deletable False stays in the zone and in the
    selection; the selection stays consistent, and widget_removed and
    layout_changed are emitted once per removed widget, in the order of the
    selection. *)
Theorem delete_selected_spares_protected z :
  consistent z →
  NoDup (Widget.widget_id <$> widgets z) →
  let r := delete_selected z in
  widgets r.1
  = filter (λ w, ¬ (Widget.is_selected w = true ∧ Widget.is_deletable w = true)) (widgets z)
  ∧ selected_widgets r.1
    = filter (λ o, o ∈ Widget.oid <$> widgets r.1) (selected_widgets z)
  ∧ consistent r.1
  ∧ r.2 = selected_widgets z ≫= removal (widgets z).
Proof.
  intros Hz Hids r. pose proof Hz as (Hoids & Hsel & Hflags).
  unfold r. rewrite delete_selected_fold.
  destruct (delete_fold (selected_widgets z) z [] Hz Hids Hsel) as (Hws & Hsl & Hc & Hlog).
  assert (widgets (foldl delete_step (z, []) (selected_widgets z)).1
          = filter (λ w, ¬ (Widget.is_selected w = true ∧ Widget.is_deletable w = true))
              (widgets z)) as Hws'.
  { rewrite Hws. apply filter_ext_in. intros x Hx. split.
    - intros Hn [Hs Hd]. apply Hn. split; [|done]. apply Hflags. by exists x.
    - intros Hn [(y & Hy & Hyo & Hys)%Hflags Hd]. apply Hn. split; [|done].
      by rewrite (oid_unique (widgets z) x y Hoids Hx Hy). }
  split; [done|]. split; [|done].
  rewrite Hsl, Hws'. apply filter_ext_in. intros o Ho. split.
  - intros Hn. pose proof Ho as (x & Hx & Hxo & Hxs)%Hflags.
    apply list_elem_of_fmap. exists x. split; [done|].
    apply list_elem_of_filter. split; [|done]. intros [_ Hd]. apply Hn.
    split; [done|]. apply Exists_exists. by exists x.
  - intros (x & -> & [Hn Hx]%list_elem_of_filter)%list_elem_of_fmap
      [_ (y & Hy & Hyo & Hyd)%Exists_exists].
    apply Hn. rewrite (oid_unique (widgets z) x y Hoids Hx Hy) by done.
    split; [|done]. apply Hflags in Ho as (y' & Hy' & Hyo' & Hys').
    by rewrite (oid_unique (widgets z) y y' Hoids Hy Hy') by congruence.
Qed.
End delete_selected.

Section drop.
Import DropZone.
Implicit Types (z : DropZone.t) (widget w : Widget) (ws : list Widget) (o : nat).

(** The text that [start_drag_operation] puts into the drag. *)
Definition drag_text (widget_id : string) : string := "widget:" +:+ widget_id.

Lemma split_cons (sep c : ascii) (s : string) :
  Py.split sep (String c s)
  = if Ascii.eqb c sep then EmptyString :: Py.split sep s
    else match Py.split sep s with
         | [] => [String c EmptyString]
         | piece :: pieces => String c piece :: pieces
         end.
Proof. reflexivity. Qed.

Lemma split_drag_text (widget_id : string) :
  Py.split ":" widget_id = [widget_id] →
  Py.split ":" (drag_text widget_id) !! 1%nat = Some widget_id.
Proof.
  intros H.
  change (drag_text widget_id)
    with (String "w" (String "i" (String "d" (String "g" (String "e" (String "t"
            (String ":" widget_id))))))).
  rewrite !split_cons, H. reflexivity.
Qed.

Lemma prefix_drag_text (widget_id : string) :
  String.prefix "widget:" (drag_text widget_id) = true.
Proof. apply String.prefix_correct. by destruct widget_id. Qed.

Lemma list_find_id ws w :
  NoDup (Widget.widget_id <$> ws) → w ∈ ws →
  ∃ i, list_find (λ w', Widget.widget_id w' = Widget.widget_id w) ws = Some (i, w).
Proof.
  intros Hnd [i Hi]%list_elem_of_lookup. exists i.
  apply list_find_Some. split; [done|]. split; [done|].
  intros j w' Hj Hlt Heq.
  assert (i = j); [|lia].
  eapply NoDup_lookup; [exact Hnd| |]; rewrite list_lookup_fmap.
  - by rewrite Hi.
  - rewrite Hj. simpl. by rewrite Heq.
Qed.

(** Whether [dropEvent] snaps the widget. *)
Definition snaps w : bool :=
  match w with
  | Draggable d => DraggableWidget.snap_to_grid d
  | Plain _ => false
  end.

Definition with_drop_target z (b : bool) : DropZone.t :=
  mk (widgets z) (selected_widgets z) (show_grid z) (grid_size z) b
     (layout_mode z) (width z) (height z).

(** X18. A drop with the text widget:<id> of a widget of the zone (distinct ids,
    no colon in the id) moves that widget to the drop position, or, for a
    DraggableWidget with snap_to_grid on, to round(v / g) * g per axis for the
    grid size g of the zone, provided these values are C ints; it emits
    widget_dropped with that position and resets is_drop_target. If such a
    widget snaps and g is 0, ZeroDivisionError is raised, and if a snapped value
    is no C int, OverflowError: then nothing moves, nothing is emitted and
    is_drop_target is not reset. *)
Theorem dropEvent_places z w (p : QPoint.t) :
  NoDup (Widget.widget_id <$> widgets z) →
  w ∈ widgets z →
  Py.split ":" (Widget.widget_id w) = [Widget.widget_id w] →
  let r := dropEvent z (QDropEvent.mk (Some (drag_text (Widget.widget_id w))) p) in
  let q := quantize (grid_size z) p in
  let at_ (q : QPoint.t) : Dropped :=
    {| zone := with_drop_target
                 (with_selection z
                    (update (Widget.oid w) (λ w, Widget.move w q) (widgets z))
                    (selected_widgets z)) false;
       dropped := [widget_dropped (Widget.oid w) q];
       failed := None |} in
  let raises (error : PyError) : Dropped :=
    {| zone := z; dropped := []; failed := Some error |} in
  (snaps w = false → r = at_ p)
  ∧ (snaps w = true → grid_size z ≠ 0 → fits_point q = true →
       r = at_ q ∧ aligned (grid_size z) q)
  ∧ (snaps w = true → grid_size z ≠ 0 → fits_point q = false → r = raises OverflowError)
  ∧ (snaps w = true → grid_size z = 0 → r = raises ZeroDivisionError).
Proof.
  intros Hids Hw Hcolon r q at_ raises.
  destruct (list_find_id _ _ Hids Hw) as [i Hfind].
  assert (∀ snapped,
            snapped = (if snaps w then _snap_to_grid z p else inr p) →
            r = match snapped with
                | inr q => at_ q
                | inl error => raises error
                end) as Hr.
  { intros snapped ->. unfold r, dropEvent. cbn [QDropEvent.text QDropEvent.pos].
    rewrite prefix_drag_text, split_drag_text by done.
    cbv beta iota zeta delta [default id]. rewrite Hfind. unfold snaps. destruct w as [b|d]; [done|].
    by destruct (DraggableWidget.snap_to_grid d). }
  assert (grid_size z ≠ 0 →
          _snap_to_grid z p = if fits_point q then inr q else inl OverflowError) as Hsnap.
  { intros Hg. unfold _snap_to_grid, Py.truediv.
    by destruct (Z.eqb_spec (grid_size z) 0). }
  split; [|split; [|split]].
  - intros Hs. rewrite (Hr (inr p)); [done|]. by rewrite Hs.
  - intros Hs Hg Hfit. split; [|apply quantize_aligned].
    rewrite (Hr (inr q)); [done|]. by rewrite Hs, Hsnap, Hfit.
  - intros Hs Hg Hfit. rewrite (Hr (inl OverflowError)); [done|].
    by rewrite Hs, Hsnap, Hfit.
  - intros Hs Hg. rewrite (Hr (inl ZeroDivisionError)); [done|]. rewrite Hs.
    unfold _snap_to_grid, Py.truediv. by rewrite Hg.
Qed.

(** X19. A drop without text, with a text that does not start with widget:, or
    whose id (the part between the first and the second colon) is the id of no
    widget of the zone moves nothing, emits nothing and raises nothing; it only
    resets is_drop_target. *)
Theorem dropEvent_ignores z (event : QDropEvent.t) :
  (∀ text, QDropEvent.text event = Some text →
     String.prefix "widget:" text = true →
     Forall (λ w, Widget.widget_id w ≠ default EmptyString (Py.split ":" text !! 1%nat))
       (widgets z)) →
  dropEvent z event
  = {| zone := with_drop_target z false; dropped := []; failed := None |}.
Proof.
  intros Hno. unfold dropEvent, with_drop_target.
  destruct (QDropEvent.text event) as [text|]; [|done].
  destruct (String.prefix "widget:" text) eqn:Hp; [|done].
  specialize (Hno text eq_refl Hp).
  rewrite (proj2 (list_find_None _ _) Hno). done.
Qed.
End drop.

Section cells.
(** Rows and columns of a grid filled row by row: a later index lies further
    right in the same row or in a later row. *)
Lemma cell_order (c i j : Z) :
  0 < c → 0 ≤ i < j →
  i `div` c = j `div` c ∧ i `mod` c + 1 ≤ j `mod` c
  ∨ i `div` c + 1 ≤ j `div` c.
Proof.
  intros Hc Hij.
  pose proof (Z.div_mod i c ltac:(lia)) as Hi. pose proof (Z.div_mod j c ltac:(lia)) as Hj.
  pose proof (Z.mod_pos_bound i c Hc). pose proof (Z.mod_pos_bound j c Hc).
  pose proof (Z.div_le_mono i j c Hc ltac:(lia)).
  destruct (decide (i `div` c = j `div` c)) as [Heq|Hne]; [left|right; lia].
  split; [done|]. rewrite Heq in Hi. lia.
Qed.
End cells.

Section layout_modes.
Import DropZone.
Implicit Types (z : DropZone.t) (widget w : Widget) (ws : list Widget) (o : nat).



Lemma oid_place w p : Widget.oid (Widget.place w p) = Widget.oid w.
Proof. by destruct w. Qed.

(** The cell of the widget at index [i] in a grid of [columns] columns. *)
Definition cell (columns : Z) (i : nat) : QPoint.t :=
  QPoint.mk (Z.of_nat i `mod` columns * 150 + 20) (Z.of_nat i `div` columns * 100 + 20).

(** X20. set_layout_mode('grid') sends the widget at index i to (20 + 150 (i mod
    c), 20 + 100 (i div c)) with c = max(1, width // 150) columns (at once, or
    by its animation); two widgets never get the same cell: the later one is at
    least 150 to the right in the same row, or at least 100 further down. The
    selection and the grid, drop and size settings are unchanged. *)
Theorem grid_mode_separates z :
  let z' := set_layout_mode z "grid" in
  let columns := Z.max 1 (width z `div` 150) in
  layout_mode z' = "grid"
  ∧ widgets z' = imap (λ i w, Widget.place w (cell columns i)) (widgets z)
  ∧ (∀ (i : nat) w', widgets z' !! i = Some w' → Widget.destination w' = cell columns i)
  ∧ (∀ (i j : nat) a b,
       (i < j)%nat → widgets z' !! i = Some a → widgets z' !! j = Some b →
       let pa := Widget.destination a in
       let pb := Widget.destination b in
       QPoint.y pa = QPoint.y pb ∧ QPoint.x pa + 150 ≤ QPoint.x pb
       ∨ QPoint.y pa + 100 ≤ QPoint.y pb)
  ∧ (selected_widgets z', show_grid z', grid_size z', is_drop_target z', width z', height z')
    = (selected_widgets z, show_grid z, grid_size z, is_drop_target z, width z, height z).
Proof.
  intros z' columns.
  assert (widgets z' = imap (λ i w, Widget.place w (cell columns i)) (widgets z)) as Hws
    by reflexivity.
  assert (∀ (i : nat) w', widgets z' !! i = Some w' →
            Widget.destination w' = cell columns i) as Hcell.
  { intros i w'. rewrite Hws, list_lookup_imap.
    destruct (widgets z !! i) as [w|]; [|done]. simpl. intros [= <-].
    apply destination_place. }
  split; [done|]. split; [done|]. split; [done|]. split; [|done].
  intros i j a b Hij Ha Hb. cbv zeta. rewrite (Hcell i a Ha), (Hcell j b Hb).
  unfold cell. simpl.
  destruct (cell_order columns (Z.of_nat i) (Z.of_nat j)) as [[-> Hcol]|Hrow]; [lia..| |].
  - left. split; [done|]. lia.
  - right. lia.
Qed.

(** *** Flow *)


End layout_modes.

(** *** The drop surface, continued, on concrete zones *)

(** The invariant of the selection, in a form that evaluates. *)
Lemma consistent_check (z : DropZone.t) :
  NoDup (Widget.oid <$> DropZone.widgets z) →
  NoDup (DropZone.selected_widgets z) →
  Forall (λ o, Exists (λ w, Widget.oid w = o ∧ Widget.is_selected w = true)
                 (DropZone.widgets z))
    (DropZone.selected_widgets z) →
  Forall (λ w, Widget.is_selected w = true → Widget.oid w ∈ DropZone.selected_widgets z)
    (DropZone.widgets z) →
  consistent z.
Proof.
  intros Hoids Hsel Hlisted Hflags. split; [done|]. split; [done|].
  intros o. split.
  - intros Ho. rewrite Forall_forall in Hlisted.
    apply Hlisted, Exists_exists in Ho as (w & Hw & Hwo & Hws). by exists w.
  - intros (w & Hw & <- & Hws). rewrite Forall_forall in Hflags. by apply Hflags.
Qed.

(** A widget of 80 by 30 at (50, 30) in a zone of 640 by 480. *)
Definition member (oid : nat) (id : string) (selected deletable : bool) : Widget :=
  Plain (WidgetBase.mk oid id (QPoint.mk 50 30) 80 30 (Some (QRect.mk 0 0 640 480))
           true selected true true deletable ∅).

(** A zone with three widgets, of which [a] and [b] are selected and [b]
    is not deletable. *)
Definition zone_abc : DropZone.t :=
  DropZone.mk [member 1 "a" true true; member 2 "b" true false; member 3 "c" false true]
    [1%nat; 2%nat] true 20 false "free" 640 480.

Lemma consistent_zone_abc : consistent zone_abc.
Proof. apply consistent_check; compute_done. Qed.

Lemma click_selects_witness :
  let c := member 3 "c" false true in
  let event := QMouseEvent.mk LeftButton [LeftButton] (QPoint.mk 5 5) in
  let click ctrl := DropZone.call zone_abc 3 (λ w, Widget.mousePressEvent w event) ctrl in
  consistent (click false).1
  ∧ DropZone.selected_widgets (click false).1 = [3%nat]
  ∧ DropZone.selected_widgets (click true).1 = [1%nat; 2%nat; 3%nat]
  ∧ (click true).2 = [widget_selected 3].
Proof.
  intros c event click.
  assert (c ∈ DropZone.widgets zone_abc) as Hc by (do 2 right; left).
  destruct (click_selects zone_abc c event false consistent_zone_abc Hc)
    as (Hcons & _ & _ & Hplain).
  destruct (click_selects zone_abc c event true consistent_zone_abc Hc)
    as (_ & _ & _ & Hctrl).
  destruct (Hplain eq_refl) as [_ Hsel]. destruct (Hctrl eq_refl) as [Hsig Hsel'].
  split; [exact Hcons|]. split; [exact Hsel|]. split; [exact Hsel' | exact Hsig].
Defined.

Lemma selection_stays_consistent_witness :
  consistent zone_abc
  ∧ consistent (DropZone.remove_widget zone_abc "a").1
  ∧ DropZone.selected_widgets (DropZone.remove_widget zone_abc "a").1 = [2%nat]
  ∧ consistent (DropZone.clear_selection zone_abc)
  ∧ Widget.is_selected <$> DropZone.widgets (DropZone.clear_selection zone_abc)
    = [false; false; false].
Proof.
  destruct (selection_stays_consistent zone_abc consistent_zone_abc)
    as (_ & Hremove & Hclear & _).
  split; [exact consistent_zone_abc|]. split; [exact (Hremove "a")|].
  split; [reflexivity|]. split; [exact Hclear | reflexivity].
Defined.

Lemma delete_selected_spares_protected_witness :
  let r := DropZone.delete_selected zone_abc in
  Widget.widget_id <$> DropZone.widgets r.1 = ["b"; "c"]
  ∧ DropZone.selected_widgets r.1 = [2%nat]
  ∧ consistent r.1
  ∧ r.2 = [widget_removed "a"; layout_changed].
Proof.
  intros r.
  destruct (delete_selected_spares_protected zone_abc consistent_zone_abc)
    as (Hws & Hsel & Hcons & Hlog); [compute_done|].
  split; [reflexivity|]. split; [reflexivity|].
  split; [exact Hcons | reflexivity].
Defined.

(** The zone of [btn1], with the drag over it, and drops at (117, 43) and
    at (2147483647, 43), the latter with a grid of 4 as well. *)
Lemma dropEvent_places_witness :
  let event := QDropEvent.mk (Some "widget:btn1") (QPoint.mk 117 43) in
  let far := QDropEvent.mk (Some "widget:btn1") (QPoint.mk 2147483647 43) in
  let z := DropZone.dragEnterEvent
             (with_widgets (DropZone.resize DropZone.__init__ 400 300) [Draggable btn1])
             event in
  let z0 := DropZone.set_grid_size z 0 in
  let z4 := DropZone.set_grid_size z 4 in
  DropZone.is_drop_target z = true
  ∧ DropZone.dropped (DropZone.dropEvent z event)
    = [widget_dropped 1 (QPoint.mk 120 40)]
  ∧ DropZone.is_drop_target (DropZone.zone (DropZone.dropEvent z event)) = false
  ∧ DropZone.dropped (DropZone.dropEvent z far)
    = [widget_dropped 1 (QPoint.mk 2147483640 40)]
  ∧ DropZone.dropEvent z4 far
    = {| DropZone.zone := z4; DropZone.dropped := [];
         DropZone.failed := Some OverflowError |}
  ∧ DropZone.dropEvent z0 event
    = {| DropZone.zone := z0; DropZone.dropped := [];
         DropZone.failed := Some ZeroDivisionError |}.
Proof.
  intros event far z z0 z4.
  assert (NoDup (Widget.widget_id <$> [Draggable btn1])) as Hnd by apply NoDup_singleton.
  assert (Draggable btn1 ∈ [Draggable btn1]) as Hin by left.
  assert (snaps (Draggable btn1) = true) as Hsnaps by (by vm_compute).
  assert (Py.split ":" (Widget.widget_id (Draggable btn1)) = [Widget.widget_id (Draggable btn1)])
    as Hsplit by (by vm_compute).
  destruct (dropEvent_places z (Draggable btn1) (QPoint.mk 117 43) Hnd Hin Hsplit)
    as (_ & Hgrid & _).
  destruct (dropEvent_places z4 (Draggable btn1) (QPoint.mk 2147483647 43) Hnd Hin Hsplit)
    as (_ & _ & Hover & _).
  destruct (dropEvent_places z0 (Draggable btn1) (QPoint.mk 117 43) Hnd Hin Hsplit)
    as (_ & _ & _ & Hzero).
  split; [by vm_compute|]. split; [by vm_compute|]. split; [by vm_compute|].
  split; [by vm_compute|].
  specialize (Hzero Hsnaps eq_refl).
  destruct (Hgrid Hsnaps) as [_ Haligned]; [by vm_compute|by vm_compute|].
  split.
  - rewrite <- Hover; [by vm_compute|done|by vm_compute|by vm_compute].
  - rewrite <- Hzero. by vm_compute.
Defined.

Lemma dropEvent_ignores_witness :
  let z := DropZone.dragEnterEvent zone_abc (QDropEvent.mk (Some "widget:a") (QPoint.mk 0 0)) in
  DropZone.is_drop_target z = true
  ∧ DropZone.dropEvent z (QDropEvent.mk (Some "widget:d") (QPoint.mk 117 43))
    = {| DropZone.zone := zone_abc; DropZone.dropped := []; DropZone.failed := None |}
  ∧ DropZone.dropEvent z (QDropEvent.mk (Some "a") (QPoint.mk 117 43))
    = {| DropZone.zone := zone_abc; DropZone.dropped := []; DropZone.failed := None |}.
Proof.
  intros z. split; [reflexivity|]. split.
  - apply (dropEvent_ignores z (QDropEvent.mk (Some "widget:d") (QPoint.mk 117 43))).
    intros text [= <-] _. repeat constructor; discriminate.
  - apply (dropEvent_ignores z (QDropEvent.mk (Some "a") (QPoint.mk 117 43))).
    intros text [= <-] H. discriminate H.
Defined.


(** ** The layout engine, continued *)

Section alignment.
Import DynamicLayoutManager.
Implicit Types (w : Widget) (ws : list Widget) (p : QPoint.t).

(** The alignment types that [auto_align_widgets] knows. *)
Definition alignment_types : list string :=
  ["left"; "right"; "top"; "bottom"; "center_horizontal"; "center_vertical"].





End alignment.

Section uniform.
Import DynamicLayoutManager.
Implicit Types (w : Widget) (ws : list Widget) (p : QPoint.t).

Lemma resize_each_lookup (size : Widget → Z * Z) ws (i : nat) w :
  ws !! i = Some w →
  resize_each size ws !! i
  = Some (if Widget.is_resizable w then Widget.resize w (size w).1 (size w).2 else w).
Proof. intros Hi. unfold resize_each. by rewrite list_lookup_fmap, Hi. Qed.

(** X24. For a non-empty list and size type width, height or both,
    resize_widgets_uniform gives every resizable widget the largest width, the
    largest height, or both, of the group (each the size of some widget of the
    list) and keeps its other dimension; no widget shrinks or moves, a widget
    that is not resizable is unchanged, and layout_changed is emitted once. *)
Theorem resize_widgets_uniform_grows ws (size_type : string) :
  ws ≠ [] →
  size_type ∈ ["width"; "height"; "both"] →
  let r := resize_widgets_uniform ws size_type in
  let max_width := py_max (Widget.width <$> ws) in
  let max_height := py_max (Widget.height <$> ws) in
  length r.1 = length ws
  ∧ r.2 = [manager_layout_changed]
  ∧ (∃ w, w ∈ ws ∧ Widget.width w = max_width)
  ∧ (∃ w, w ∈ ws ∧ Widget.height w = max_height)
  ∧ ∀ (i : nat) w, ws !! i = Some w →
      ∃ w', r.1 !! i = Some w'
            ∧ Widget.oid w' = Widget.oid w
            ∧ Widget.pos w' = Widget.pos w
            ∧ Widget.width w ≤ Widget.width w' ≤ max_width
            ∧ Widget.height w ≤ Widget.height w' ≤ max_height
            ∧ (Widget.is_resizable w = false → w' = w)
            ∧ (Widget.is_resizable w = true →
                 Widget.width w'
                 = (if String.eqb size_type "height" then Widget.width w else max_width)
                 ∧ Widget.height w'
                   = (if String.eqb size_type "width" then Widget.height w else max_height)).
Proof.
  intros Hne Hin r max_width max_height.
  destruct (py_max_spec (Widget.width <$> ws)) as [Hw Hwmax]; [by destruct ws|].
  destruct (py_max_spec (Widget.height <$> ws)) as [Hh Hhmax]; [by destruct ws|].
  fold max_width in Hw, Hwmax. fold max_height in Hh, Hhmax.
  rewrite Forall_fmap, Forall_forall in Hwmax, Hhmax.
  assert (∃ size : Widget → Z * Z,
            r = (resize_each size ws, [manager_layout_changed])
            ∧ ∀ w, size w
                   = (if String.eqb size_type "height" then Widget.width w else max_width,
                      if String.eqb size_type "width" then Widget.height w else max_height))
    as (size & -> & Hsize).
  { unfold r, resize_widgets_uniform.
    repeat (apply elem_of_cons in Hin as [->|Hin]); [..|by apply elem_of_nil in Hin];
      destruct ws as [|w0 ws0]; try done; simpl String.eqb; cbv iota;
      eexists; (split; [reflexivity|]); done. }
  cbn [fst snd]. split; [unfold resize_each; by rewrite length_fmap|]. split; [done|].
  split.
  { apply list_elem_of_fmap in Hw as (w & Heq & Hw). by exists w. }
  split.
  { apply list_elem_of_fmap in Hh as (w & Heq & Hh). by exists w. }
  intros i w Hi. eexists. split; [by apply resize_each_lookup|].
  assert (w ∈ ws) as Hin' by (by eapply list_elem_of_lookup_2).
  pose proof (Hwmax w Hin') as Hw1. pose proof (Hhmax w Hin') as Hh1. simpl in Hw1, Hh1.
  rewrite Hsize. cbn [fst snd].
  destruct (Widget.is_resizable w) eqn:Hr.
  - assert (∀ a b, Widget.width (Widget.resize w a b) = a
                   ∧ Widget.height (Widget.resize w a b) = b
                   ∧ Widget.oid (Widget.resize w a b) = Widget.oid w
                   ∧ Widget.pos (Widget.resize w a b) = Widget.pos w) as Hres
      by (intros a b; by destruct w).
    match goal with |- context [Widget.resize w ?a ?b] =>
      destruct (Hres a b) as (-> & -> & -> & ->) end.
    split; [done|]. split; [done|].
    split; [destruct (String.eqb size_type "height"); lia|].
    split; [destruct (String.eqb size_type "width"); lia|].
    split; [done|]. done.
  - split; [done|]. split; [done|]. split; [lia|]. split; [lia|]. split; done.
Qed.
End uniform.

Section grid.
Import DynamicLayoutManager.
Implicit Types (w : Widget) (ws : list Widget) (p : QPoint.t).


End grid.

Section suggestions.
Import DynamicLayoutManager.
Implicit Types (w other : Widget) (ws : list Widget) (p : QPoint.t).
Implicit Types (self : DynamicLayoutManager.t) (m : gmap string QPoint.t).






End suggestions.

Section applied_suggestions.
Import DynamicLayoutManager.
Implicit Types (w other : Widget) (ws : list Widget) (p : QPoint.t).
Implicit Types (self : DynamicLayoutManager.t) (m : gmap string QPoint.t).


End applied_suggestions.

Section layout_edges.
Import DynamicLayoutManager.
Implicit Types (w other : Widget) (ws : list Widget) (p : QPoint.t).

(** X23. With an empty list, auto_align_widgets, resize_widgets_uniform and
    create_layout_grid (also with 0 columns) do nothing, emit nothing and raise
    nothing. With a non-empty list and an alignment type or size type that is
    not known, or with no resizable widget in the list, no widget is moved or
    resized, yet layout_changed is emitted. *)
Theorem layout_edge_cases ws (type : string) (columns spacing : Z) :
  auto_align_widgets [] type = ([], [])
  ∧ resize_widgets_uniform [] type = ([], [])
  ∧ create_layout_grid [] columns spacing
    = {| arranged := []; announced := []; raised := None |}
  ∧ (type ∉ alignment_types → ws ≠ [] →
       auto_align_widgets ws type = (ws, [manager_layout_changed]))
  ∧ (type ∉ ["width"; "height"; "both"] → ws ≠ [] →
       resize_widgets_uniform ws type = (ws, [manager_layout_changed]))
  ∧ (Forall (λ w, Widget.is_resizable w = false) ws → ws ≠ [] →
       resize_widgets_uniform ws type = (ws, [manager_layout_changed])).
Proof.
  split; [done|]. split; [done|]. split; [done|]. split; [|split].
  - intros Hno Hne. unfold auto_align_widgets.
    destruct ws as [|w ws]; [done|].
    unfold alignment_types in Hno. rewrite !not_elem_of_cons in Hno.
    destruct Hno as (H1 & H2 & H3 & H4 & H5 & H6 & _).
    rewrite <- String.eqb_neq in H1, H2, H3, H4, H5, H6.
    by rewrite H1, H2, H3, H4, H5, H6.
  - intros Hno Hne. unfold resize_widgets_uniform.
    destruct ws as [|w ws]; [done|].
    rewrite !not_elem_of_cons in Hno. destruct Hno as (H1 & H2 & H3 & _).
    rewrite <- String.eqb_neq in H1, H2, H3.
    by rewrite H1, H2, H3.
  - intros Hfixed Hne. unfold resize_widgets_uniform.
    destruct ws as [|w ws]; [done|]. f_equal.
    assert (∀ size, resize_each size (w :: ws) = w :: ws) as Hsame.
    { intros size. unfold resize_each. rewrite <- (list_fmap_id (w :: ws)) at 2.
      apply list_fmap_ext. intros i x Hx.
      rewrite Forall_forall in Hfixed.
      by rewrite (Hfixed x) by (by eapply list_elem_of_lookup_2). }
    destruct (String.eqb _ _); [apply Hsame|].
    destruct (String.eqb _ _); [apply Hsame|].
    destruct (String.eqb _ _); [apply Hsame|done].
Qed.
End layout_edges.

(** *** The layout engine, continued, on concrete groups *)


(** The second widget is not resizable: the code sets the attribute,
    [widget.is_resizable = False], or calls [set_resizable(False)]. *)
Lemma resize_widgets_uniform_grows_witness :
  let fixed := Plain (WidgetBase.mk 2 "b" (QPoint.mk 0 0) 60 80 None false false true false
                        true ∅) in
  let ws := [plain 1 100 5 120 30; fixed; plain 3 20 7 90 40] in
  let r := DynamicLayoutManager.resize_widgets_uniform ws "width" in
  ws ≠ []
  ∧ (λ w, (Widget.width w, Widget.height w)) <$> r.1 = [(120, 30); (60, 80); (120, 40)]
  ∧ r.2 = [manager_layout_changed]
  ∧ length r.1 = 3%nat.
Proof.
  intros fixed ws r.
  assert (ws ≠ []) as Hne by discriminate.
  destruct (resize_widgets_uniform_grows ws "width" Hne) as (Hlen & Hsignals & _);
    [left|].
  split; [exact Hne|]. split; [reflexivity|]. split; [exact Hsignals | exact Hlen].
Defined.


